(** * The matching engine of the skill-exchange application

    A shallow embedding of [find_matches_for_user] (app.py) and of the
    tables it reads and writes (models.py), followed by the properties of
    the engine: the accumulation rule of the score, the double-swap flag,
    the deduplication of match rows and the behaviour on unknown users.
    The views around the engine follow: the skills, the page of matches,
    sessions and reviews with the trust score, messages, registration.

    Conventions of the embedding.
    - Python integers are [Z] (identities) or [nat] (loop counters that
      only ever grow from 0).
    - Python floats are Rocq's primitive binary64 floats; [int / int] and
      [round(x, 1)] are the correctly rounded operations of CPython.
    - A table is the list of its rows in insertion order; a query is a
      [filter] or a [find] over it.
    - A call that can raise returns in the monad [py].
    - Skill names are strings of 7-bit characters. *)

From Stdlib Require Import ZArith List String Ascii Bool Lia.
From Stdlib Require Import Permutation Sorted.
From Stdlib Require Import PrimFloat SpecFloat FloatOps FloatAxioms.
Import ListNotations.

(** Decimal literals such as 28.7 stand for the nearest binary64 number,
    as they do in Python. *)
Set Warnings "-inexact-float".

(** ** Python values and builtins *)

Module Py.

Inductive exn : Type :=
| ZeroDivisionError.

(** The outcome of a call: a value, or an exception that is not caught. *)
Inductive py (A : Type) : Type :=
| Return (a : A)
| Raise (e : exn).

Arguments Return {A} a.
Arguments Raise {A} e.

Definition bind {A B : Type} (c : py A) (k : A -> py B) : py B :=
  match c with
  | Return a => k a
  | Raise e => Raise e
  end.

(** [for x in l: body], the loop state threaded through the iterations. *)
Fixpoint for_each {A S : Type} (body : A -> S -> py S) (l : list A) (s : S)
  : py S :=
  match l with
  | [] => Return s
  | x :: l' => bind (body x s) (for_each body l')
  end.

(** [str.lower()], on strings of 7-bit characters: the letters A-Z move
    to a-z, every other character is kept. *)
Definition lower_ascii (c : ascii) : ascii :=
  let n := nat_of_ascii c in
  if (65 <=? n)%nat && (n <=? 90)%nat then ascii_of_nat (n + 32) else c.

Fixpoint lower (s : string) : string :=
  match s with
  | EmptyString => EmptyString
  | String c s' => String (lower_ascii c) (lower s')
  end.

(** [sep.join(l)] *)
Definition join (sep : string) (l : list string) : string :=
  String.concat sep l.

(** An integer as an unrounded binary number, mantissa times 2^0. *)
Definition int_to_SF (n : Z) : spec_float :=
  match n with
  | Z0 => S754_zero false
  | Zpos p => S754_finite false p 0
  | Zneg p => S754_finite true p 0
  end.

(** [a / b] on integers: the binary64 number nearest to the exact
    quotient, [ZeroDivisionError] when [b] is 0.  (CPython also raises
    OverflowError for a quotient of 2^1024 and more; the operands here
    count pairs of list entries, and a list of CPython has fewer than
    2^63 of them.) *)
Definition nearest_quotient (a b : Z) : float :=
  SF2Prim (SFdiv prec emax (int_to_SF a) (int_to_SF b)).

Definition truediv (a b : Z) : py float :=
  if (b =? 0)%Z then Raise ZeroDivisionError
  else Return (nearest_quotient a b).

(** The integer nearest to [n / d], ties to the even one ([0 < d]). *)
Definition round_half_even (n d : Z) : Z :=
  let q := (n / d)%Z in
  let r := (n mod d)%Z in
  match (2 * r ?= d)%Z with
  | Lt => q
  | Gt => (q + 1)%Z
  | Eq => if Z.even q then q else (q + 1)%Z
  end.

(** [round(x, 1)]: CPython prints the exact value of [x] with one digit
    after the point, correctly rounded with ties to even, and reads the
    decimal back as the nearest binary64 number.  With [x = m * 2^e] the
    decimal is [k / 10] for [k] the integer nearest to [10 * m * 2^e].
    Infinities and NaN round to themselves. *)
Definition round1 (x : float) : float :=
  match Prim2SF x with
  | S754_finite s m e =>
      let k := if (0 <=? e)%Z then (10 * Zpos m * 2 ^ e)%Z
               else round_half_even (10 * Zpos m) (2 ^ (- e)) in
      match k with
      | Zpos p =>
          SF2Prim (SFdiv prec emax (S754_finite s p 0)
                                   (S754_finite false 10 0))
      | _ => if s then (-0)%float else 0%float
      end
  | _ => x
  end.

End Py.

Import Py.

Notation "x <- c ;; k" := (bind c (fun x => k))
  (at level 61, c at next level, right associativity).

(** ** The tables (models.py) *)

(** Only the columns the engine reads or writes are kept; the password
    hash, the picture, the trust score and the creation time stamps play
    no part in matching. *)

Module User.
Record t : Type := mk {
  id : Z;
  username : string;
  email : string;
  bio : string
}.
End User.

Module Skill.
Record t : Type := mk {
  id : Z;
  user_id : Z;
  skill_name : string;
  skill_type : string;
  proficiency_level : string;
  description : string
}.
End Skill.

Module Match.
Record t : Type := mk {
  user1_id : Z;
  user2_id : Z;
  user1_offers : string;
  user1_wants : string;
  user2_offers : string;
  user2_wants : string;
  match_percentage : float;
  is_double_swap : bool;
  status : string
}.
End Match.

(** The database session: the three tables, pending rows included (a query
    flushes the session before it runs, so a row added with
    [db.session.add] is seen by the queries that follow). *)
Record db : Type := mkdb {
  users : list User.t;
  skills : list Skill.t;
  matches : list Match.t
}.

(** [User.query.get(user_id)] *)
Definition User_query_get (d : db) (user_id : Z) : option User.t :=
  find (fun u => (User.id u =? user_id)%Z) (users d).

(** [Skill.query.filter_by(user_id=user_id, skill_type=skill_type).all()] *)
Definition Skill_query_filter_by (d : db) (user_id : Z) (skill_type : string)
  : list Skill.t :=
  filter (fun s => (Skill.user_id s =? user_id)%Z
                   && String.eqb (Skill.skill_type s) skill_type)
         (skills d).

(** [User.query.filter(User.id != user_id).all()] *)
Definition User_query_others (d : db) (user_id : Z) : list User.t :=
  filter (fun u => negb (User.id u =? user_id)%Z) (users d).

(** The filter of the deduplication query: the row joins the two users, in
    one order or the other. *)
Definition joins (user_id other_id : Z) (m : Match.t) : bool :=
  ((Match.user1_id m =? user_id)%Z && (Match.user2_id m =? other_id)%Z)
  || ((Match.user1_id m =? other_id)%Z && (Match.user2_id m =? user_id)%Z).

(** [Match.query.filter(...).first()] *)
Definition Match_query_first (d : db) (user_id other_id : Z)
  : option Match.t :=
  find (joins user_id other_id) (matches d).

(** [db.session.add(match)] *)
Definition session_add_match (m : Match.t) (d : db) : db :=
  mkdb (users d) (skills d) (matches d ++ [m]).

(** ** The scoring loops (app.py, lines 182-202) *)

(** The local variables of one iteration of the loop over the candidates. *)
Record locals : Type := mklocals {
  match_score : nat;
  total_possible : nat;
  matched_skills : list (string * string);
  is_double : bool
}.

Definition locals_init : locals := mklocals 0 0 [] false.

(** [a.skill_name.lower() == b.skill_name.lower()] *)
Definition same_name (a b : Skill.t) : bool :=
  String.eqb (lower (Skill.skill_name a)) (lower (Skill.skill_name b)).

Definition want_inner (my_want : Skill.t) (l : locals) (their_offer : Skill.t)
  : locals :=
  if same_name my_want their_offer
  then mklocals (match_score l + 1) (total_possible l)
                (matched_skills l
                 ++ [(Skill.skill_name my_want, Skill.skill_name their_offer)])
                (is_double l)
  else l.

Definition want_outer (other_offers : list Skill.t) (l : locals)
  (my_want : Skill.t) : locals :=
  fold_left (want_inner my_want) other_offers
    (mklocals (match_score l) (total_possible l + 1)
              (matched_skills l) (is_double l)).

Definition offer_inner (my_offer : Skill.t) (l : locals) (their_want : Skill.t)
  : locals :=
  if same_name my_offer their_want
  then mklocals (match_score l + 1) (total_possible l)
                (matched_skills l) true
  else l.

Definition offer_outer (other_wants : list Skill.t) (l : locals)
  (my_offer : Skill.t) : locals :=
  fold_left (offer_inner my_offer) other_wants
    (mklocals (match_score l) (total_possible l + 1)
              (matched_skills l) (is_double l)).

(** The two loops in sequence, from the initial values of the locals. *)
Definition score (user_offers user_wants other_offers other_wants
  : list Skill.t) : locals :=
  fold_left (offer_outer other_wants) user_offers
    (fold_left (want_outer other_offers) user_wants locals_init).

(** [', '.join([s.skill_name for s in l][:3])] *)
Definition top3 (l : list Skill.t) : string :=
  join ", " (firstn 3 (map Skill.skill_name l)).

(** ** The engine (app.py, lines 168-230) *)

(** One iteration of [for other_user in all_users]. *)
Definition visit (user_id : Z) (user_offers user_wants : list Skill.t)
  (other_user : User.t) (d : db) : py db :=
  let other_offers := Skill_query_filter_by d (User.id other_user) "offer" in
  let other_wants := Skill_query_filter_by d (User.id other_user) "want" in
  let l := score user_offers user_wants other_offers other_wants in
  if (0 <? match_score l)%nat && (0 <? total_possible l)%nat then
    q <- truediv (Z.of_nat (match_score l)) (Z.of_nat (total_possible l)) ;;
    let match_percentage := (q * 100)%float in
    match Match_query_first d user_id (User.id other_user) with
    | Some _ => Return d
    | None =>
        Return (session_add_match
                  {| Match.user1_id := user_id;
                     Match.user2_id := User.id other_user;
                     Match.user1_offers := top3 user_offers;
                     Match.user1_wants := top3 user_wants;
                     Match.user2_offers := top3 other_offers;
                     Match.user2_wants := top3 other_wants;
                     Match.match_percentage := round1 match_percentage;
                     Match.is_double_swap := is_double l;
                     Match.status := "pending" |} d)
    end
  else Return d.

(** The final [db.session.commit()] makes the pending rows durable; it
    changes nothing that a later query can see. *)
Definition find_matches_for_user (user_id : Z) (d : db) : py db :=
  match User_query_get d user_id with
  | None => Return d
  | Some _ =>
      let user_offers := Skill_query_filter_by d user_id "offer" in
      let user_wants := Skill_query_filter_by d user_id "want" in
      let all_users := User_query_others d user_id in
      for_each (visit user_id user_offers user_wants) all_users d
  end.

(** ** The two routes that change the skill table (app.py, lines 127-166) *)

(** The integer primary key of a new row: one more than the largest. *)
Definition next_skill_id (d : db) : Z :=
  (fold_right Z.max 0 (map Skill.id (skills d)) + 1)%Z.

(** [add_skill], for the logged-in user [current_user_id] and the four
    fields of the form.  The flash messages and the redirect are left to
    the HTTP layer. *)
Definition add_skill (current_user_id : Z)
  (skill_name skill_type proficiency description : string) (d : db) : py db :=
  if negb (existsb (String.eqb skill_type) ["offer"; "want"]%string)
  then Return d
  else
    let skill := Skill.mk (next_skill_id d) current_user_id skill_name
                          skill_type proficiency description in
    let d1 := mkdb (users d) (skills d ++ [skill]) (matches d) in
    if String.eqb skill_type "offer"
    then find_matches_for_user current_user_id d1
    else Return d1.

(** [delete_skill]: an unknown identifier is answered with 404 and a skill
    of another user with a flash message, the tables unchanged in both. *)
Definition delete_skill (current_user_id skill_id : Z) (d : db) : py db :=
  match find (fun s => (Skill.id s =? skill_id)%Z) (skills d) with
  | None => Return d
  | Some skill =>
      if negb (Skill.user_id skill =? current_user_id)%Z then Return d
      else Return (mkdb (users d)
                        (filter (fun s => negb (Skill.id s =? skill_id)%Z)
                                (skills d))
                        (matches d))
  end.

(** ** Reachable states *)

Inductive request : Type :=
| AddSkill (current_user_id : Z)
           (skill_name skill_type proficiency description : string)
| DeleteSkill (current_user_id skill_id : Z)
| FindMatches (user_id : Z).

Definition handle (r : request) (d : db) : py db :=
  match r with
  | AddSkill u n t p e => add_skill u n t p e d
  | DeleteSkill u s => delete_skill u s d
  | FindMatches u => find_matches_for_user u d
  end.

(** The states the application reaches from a database without match
    rows, whatever its users and skills. *)
Inductive reachable : db -> Prop :=
| reachable_init : forall d, matches d = [] -> reachable d
| reachable_step : forall d r d',
    reachable d -> handle r d = Return d' -> reachable d'.

(** ** Observations used by the statements *)

(** The pairs of entries with equal lower-cased names, one entry from each
    list: every want against every offer, duplicates counted each time. *)
Definition equal_pairs (mine theirs : list Skill.t)
  : list (Skill.t * Skill.t) :=
  filter (fun p => same_name (fst p) (snd p)) (list_prod mine theirs).

(** The locals of the iteration for candidate [other_id] when [user_id]
    triggers, in state [d]. *)
Definition score_for (d : db) (user_id other_id : Z) : locals :=
  score (Skill_query_filter_by d user_id "offer")
        (Skill_query_filter_by d user_id "want")
        (Skill_query_filter_by d other_id "offer")
        (Skill_query_filter_by d other_id "want").

(** The number of match rows that join [a] and [b], in either order. *)
Definition pair_count (d : db) (a b : Z) : nat :=
  List.length (filter (joins a b) (matches d)).

(** The rows of [d'] that are not rows of [d], when [d'] extends [d]. *)
Definition created (d d' : db) : list Match.t :=
  skipn (List.length (matches d)) (matches d').

(** The state [d] with the rows [new] appended to its match table. *)
Definition extend (d : db) (new : list Match.t) : db :=
  mkdb (users d) (skills d) (matches d ++ new).

(** The row the engine builds for candidate [other_id] when [user_id]
    triggers: every field is read off the skill table of [d]. *)
Definition row_of (d : db) (user_id other_id : Z) : Match.t :=
  let l := score_for d user_id other_id in
  {| Match.user1_id := user_id;
     Match.user2_id := other_id;
     Match.user1_offers := top3 (Skill_query_filter_by d user_id "offer");
     Match.user1_wants := top3 (Skill_query_filter_by d user_id "want");
     Match.user2_offers := top3 (Skill_query_filter_by d other_id "offer");
     Match.user2_wants := top3 (Skill_query_filter_by d other_id "want");
     Match.match_percentage :=
       round1 (nearest_quotient (Z.of_nat (match_score l))
                                (Z.of_nat (total_possible l)) * 100);
     Match.is_double_swap := is_double l;
     Match.status := "pending" |}.

(** [m] is the row built for some candidate of the trigger [user_id]: a
    user other than [user_id] whose score is positive. *)
Definition made_by (d : db) (user_id : Z) (m : Match.t) : Prop :=
  exists other,
    In other (users d) /\ User.id other <> user_id
    /\ 0 < match_score (score_for d user_id (User.id other))
    /\ 0 < total_possible (score_for d user_id (User.id other))
    /\ m = row_of d user_id (User.id other).

(** The two ends of the row are different users. *)
Definition distinct_ends (m : Match.t) : Prop :=
  Match.user1_id m <> Match.user2_id m.

(** The users [a] and [b] have an overlap: a want of one has the
    lower-cased name of an offer of the other. *)
Definition overlap (d : db) (a b : Z) : Prop :=
  equal_pairs (Skill_query_filter_by d a "want")
              (Skill_query_filter_by d b "offer") <> []
  \/ equal_pairs (Skill_query_filter_by d b "want")
                 (Skill_query_filter_by d a "offer") <> [].

(** No two entries of the list have the same lower-cased name. *)
Definition distinct_names (l : list Skill.t) : Prop :=
  NoDup (map (fun s => lower (Skill.skill_name s)) l).

(** A sequence of requests, served one after the other. *)
Definition serve (rs : list request) (d : db) : py db := for_each handle rs d.

(** The state [add_skill] hands to the engine: [d] with the new offer. *)
Definition with_offer (current_user_id : Z)
  (skill_name proficiency description : string) (d : db) : db :=
  mkdb (users d)
       (skills d ++ [Skill.mk (next_skill_id d) current_user_id skill_name
                              "offer" proficiency description])
       (matches d).

(** ** Binary64 numbers as mantissa and exponent *)

(** The vocabulary of the bounds on the stored percentage.  A finite
    binary64 number is [m * 2^e]; the numbers met here are at least
    [2^-1074] apart, and are measured in units of [2^-1074]. *)

Section Binary64Values.

Local Open Scope Z_scope.

(** The exponent of the last place of a binary64 number below [2^e]. *)
Definition fx (e : Z) : Z := SpecFloat.fexp prec emax e.

(** [f] is +0 or a positive finite number of at most [B] units. *)
Definition SF_upto (B : Z) (f : spec_float) : Prop :=
  match f with
  | S754_zero false => True
  | S754_finite false m e => -1074 <= e /\ Z.pos m * 2 ^ (e + 1074) <= B
  | _ => False
  end.

(** [f] is +0, a positive finite number or plus infinity. *)
Definition SF_nonneg (f : spec_float) : Prop :=
  match f with
  | S754_zero false | S754_finite false _ _ | S754_infinity false => True
  | _ => False
  end.

(** [f] is +0 or a positive finite number strictly below 1. *)
Definition SF_below_1 (f : spec_float) : Prop :=
  match f with
  | S754_zero false => True
  | S754_finite false m e => -1074 <= e < 0 /\ Z.pos m < 2 ^ (- e)
  | _ => False
  end.

(** The numbers 1 and 100. *)
Definition SF_one : spec_float := S754_finite false 4503599627370496 (-52).

Definition SF_100 : spec_float := S754_finite false 7036874417766400 (-46).

(** The quotient that [nearest_quotient] converts to a float, for two
    positive integers. *)
Definition int_quotient (m t : positive) : spec_float :=
  SFdiv prec emax (S754_finite false m 0) (S754_finite false t 0).

(** The exponent at which that quotient is computed; its opposite is the
    number of digits by which the dividend is shifted. *)
Definition div_exp (m t : positive) : Z :=
  Z.min (fx (Zdigits2 (Z.pos m) - Zdigits2 (Z.pos t))) 0.

(** The decimal [k / 10] read back as binary64, the last step of
    [round1], and the check that it lies between 0 and 100. *)
Definition tenth (k : positive) : float :=
  SF2Prim (SFdiv prec emax (S754_finite false k 0) (S754_finite false 10 0)).

Definition tenth_in_range (n : nat) : bool :=
  (0 <=? tenth (Pos.of_nat n))%float && (tenth (Pos.of_nat n) <=? 100)%float.

End Binary64Values.

(** ** The accumulation rule in the words of the specification *)

(** The number of equal pairs, wants against offers and offers against
    wants, each pair counted. *)
Definition matchScore (myWants myOffers theirOffers theirWants : list Skill.t)
  : nat :=
  List.length (equal_pairs myWants theirOffers)
  + List.length (equal_pairs myOffers theirWants).

(** The number of entries of the triggering user. *)
Definition totalPossible (myWants myOffers : list Skill.t) : nat :=
  List.length myWants + List.length myOffers.

(** [round(100 * matchScore / totalPossible, 1)] *)
Definition percentage_as_specified (score total : nat) : py float :=
  q <- truediv (100 * Z.of_nat score) (Z.of_nat total) ;;
  Return (round1 q).

(** [round((match_score / total_possible) * 100, 1)] *)
Definition percentage_as_coded (score total : nat) : py float :=
  q <- truediv (Z.of_nat score) (Z.of_nat total) ;;
  Return (round1 (q * 100)).

(** ** Example databases *)

(** A user and a skill with the columns that do not matter left empty. *)
Definition user (i : Z) (name : string) : User.t := User.mk i name "" "".

Definition skill (i u : Z) (name type : string) : Skill.t :=
  Skill.mk i u name type "" "".

(** A two-digit skill name, [00] to [99]. *)
Definition numbered (n : nat) : string :=
  String (ascii_of_nat (48 + n / 10))
         (String (ascii_of_nat (48 + n mod 10)) EmptyString).

(** Users 1 and 2 with one entry each: user 1 wants what user 2 offers. *)
Definition db_guitar : db :=
  mkdb [user 1 "ana"; user 2 "ben"]
       [skill 1 1 "Guitar" "want"; skill 2 2 "guitar" "offer"]
       [].

(** User 1 wants two skills, user 2 offers one of them. *)
Definition db_two_wants : db :=
  mkdb [user 1 "ana"; user 2 "ben"]
       [skill 1 1 "Guitar" "want"; skill 2 1 "Piano" "want";
        skill 3 2 "guitar" "offer"]
       [].

(** User 1 wants one skill, user 2 offers it in two entries. *)
Definition db_two_offers : db :=
  mkdb [user 1 "ana"; user 2 "ben"]
       [skill 1 1 "Guitar" "want";
        skill 2 2 "guitar" "offer"; skill 3 2 "Guitar" "offer"]
       [].

(** Three users: user 3 shares no skill name with the other two. *)
Definition db_three : db :=
  mkdb [user 1 "ana"; user 2 "ben"; user 3 "cy"]
       [skill 1 1 "Guitar" "want"; skill 2 2 "guitar" "offer";
        skill 3 3 "Chess" "offer"; skill 4 3 "Piano" "want"]
       [].

(** User 1 is registered without any skill; user 2 offers and wants. *)
Definition db_newcomer : db :=
  mkdb [user 1 "ana"; user 2 "ben"]
       [skill 1 2 "guitar" "offer"; skill 2 2 "Piano" "want"]
       [].

(** User 1 wants the eighty skills 00..79; user 2 offers 00..22. *)
Definition db_80_23 : db :=
  mkdb [user 1 "ana"; user 2 "ben"]
       (map (fun n => skill (Z.of_nat n + 1) 1 (numbered n) "want") (seq 0 80)
        ++ map (fun n => skill (Z.of_nat n + 81) 2 (numbered n) "offer")
               (seq 0 23))
       [].

(** The state after user 2 adds its offer to [db_guitar], twice. *)
Definition db_guitar_served : db :=
  match serve [AddSkill 2 "guitar" "offer" "expert" "";
               AddSkill 2 "guitar" "offer" "expert" ""] db_guitar with
  | Return d => d
  | Raise _ => db_guitar
  end.

(** ** Further observations on the routes and the engine *)

(** The primary key of the skill table: no two rows share an identifier. *)
Definition skill_ids_distinct (d : db) : Prop :=
  NoDup (map Skill.id (skills d)).

(** The row that [add_skill] stores. *)
Definition new_skill (current_user_id : Z)
  (skill_name skill_type proficiency description : string) (d : db)
  : Skill.t :=
  Skill.mk (next_skill_id d) current_user_id skill_name skill_type
           proficiency description.

(** Both ends of the row are identities of users of the table. *)
Definition ends_exist (d : db) (m : Match.t) : Prop :=
  (exists u, In u (users d) /\ User.id u = Match.user1_id m)
  /\ (exists u, In u (users d) /\ User.id u = Match.user2_id m).

(** A skill, and the state [d], with the name of the skill, of every
    skill, rewritten by [f]. *)
Definition rename_skill (f : string -> string) (s : Skill.t) : Skill.t :=
  Skill.mk (Skill.id s) (Skill.user_id s) (f (Skill.skill_name s))
           (Skill.skill_type s) (Skill.proficiency_level s)
           (Skill.description s).

Definition rename_skills (f : string -> string) (d : db) : db :=
  mkdb (users d) (map (rename_skill f) (skills d)) (matches d).

(** Two rows that differ at most in the four snapshots of skill names. *)
Definition same_score_row (m m' : Match.t) : Prop :=
  Match.user1_id m = Match.user1_id m'
  /\ Match.user2_id m = Match.user2_id m'
  /\ Match.match_percentage m = Match.match_percentage m'
  /\ Match.is_double_swap m = Match.is_double_swap m'
  /\ Match.status m = Match.status m'.

(** ** The page of matches (app.py, lines 232-239) *)

(** The filter of the query: the row has the user at one of its ends. *)
Definition involves (user_id : Z) (m : Match.t) : bool :=
  (Match.user1_id m =? user_id)%Z || (Match.user2_id m =? user_id)%Z.

(** [order_by(Match.match_percentage.desc())].  SQL leaves the order of
    rows with equal percentages open; here they keep the order of the
    table. *)
Fixpoint insert_desc (m : Match.t) (l : list Match.t) : list Match.t :=
  match l with
  | [] => [m]
  | x :: l' =>
      if (Match.match_percentage x <=? Match.match_percentage m)%float
      then m :: x :: l'
      else x :: insert_desc m l'
  end.

Definition order_by_percentage_desc (l : list Match.t) : list Match.t :=
  fold_right insert_desc [] l.

(** The list that the route [matches] hands to its template. *)
Definition all_matches (current_user_id : Z) (d : db) : list Match.t :=
  order_by_percentage_desc (filter (involves current_user_id) (matches d)).

(** [x] comes before [y] in a list of non-increasing percentages. *)
Definition percentage_ge (x y : Match.t) : Prop :=
  (Match.match_percentage y <=? Match.match_percentage x)%float = true.

(** The matches of the dashboard (app.py, lines 91-93): the same query
    with [limit(10)]. *)
Definition dashboard_matches (current_user_id : Z) (d : db) : list Match.t :=
  firstn 10 (all_matches current_user_id d).

(** ** The trust score (models.py, lines 38-43) *)

(** The table of reviews; it is kept apart from the state of the engine,
    which never reads it. *)
Module Review.
Record t : Type := mk {
  reviewer_id : Z;
  reviewee_id : Z;
  session_id : option Z;
  rating : Z;
  comment : string
}.
End Review.

(** [Review.query.filter_by(reviewee_id=...).all()] *)
Definition Review_query_filter_by (table : list Review.t) (reviewee_id : Z)
  : list Review.t :=
  filter (fun r => (Review.reviewee_id r =? reviewee_id)%Z) table.

(** [sum(l)]: from 0, left to right. *)
Definition sum (l : list Z) : Z := fold_left Z.add l 0%Z.

(** [User.calculate_trust_score], over the table of reviews. *)
Definition calculate_trust_score (table : list Review.t) (self : User.t)
  : py float :=
  let reviews := Review_query_filter_by table (User.id self) in
  match reviews with
  | [] => Return 5%float
  | _ :: _ =>
      let total := sum (map Review.rating reviews) in
      q <- truediv total (Z.of_nat (List.length reviews)) ;;
      Return (round1 q)
  end.

(** Every review of the table received by [self] has a rating from [lo]
    to [hi]. *)
Definition ratings_within (lo hi : Z) (table : list Review.t) (self : User.t)
  : Prop :=
  forall r, In r table -> Review.reviewee_id r = User.id self ->
    (lo <= Review.rating r <= hi)%Z.

(** [f] is a positive finite number of at least [2^1074] units, that is
    at least 1, or plus infinity. *)
Definition SF_from_1 (f : spec_float) : Prop :=
  match f with
  | S754_finite false m e =>
      (-1074 <= e /\ 2 ^ 1074 <= Z.pos m * 2 ^ (e + 1074))%Z
  | S754_infinity false => True
  | _ => False
  end.

(** The check that the decimal [k / 10] read back lies between 1 and 5. *)
Definition tenth_in_1_5 (n : nat) : bool :=
  (1 <=? tenth (Pos.of_nat n))%float && (tenth (Pos.of_nat n) <=? 5)%float.

(** A table of reviews: two received by user 1, one by user 2. *)
Definition some_reviews : list Review.t :=
  [ Review.mk 2 1 (Some 1%Z) 5 "great";
    Review.mk 3 1 (Some 2%Z) 4 "";
    Review.mk 1 2 (Some 1%Z) 3 "" ].

(** ** Sessions and reviews (app.py, lines 241-278 and 326-358) *)

Module Session.
Record t : Type := mk {
  teacher_id : Z;
  learner_id : Z;
  skill_topic : string;
  scheduled_time : Z;
  duration_minutes : Z;
  status : string;
  room_id : string;
  notes : string
}.
End Session.

(** The tables of the engine together with the sessions, the reviews and
    the column [trust_score] of the users, 5.0 by default.  The primary
    keys of matches and sessions are chosen by the database: [Match_pk]
    and [Session_pk] give the position of the row that a key denotes, once
    that row is stored.  Rows of the two tables are never deleted, so the
    position of a row never changes. *)
Record site : Type := mksite {
  tables : db;
  sessions : list Session.t;
  reviews : list Review.t;
  trust_score : Z -> float;
  Match_pk : Z -> option nat;
  Session_pk : Z -> option nat
}.

(** What a view function hands back to Flask; [InternalServerError]
    stands for an exception that no handler catches.  The transaction of
    such a request is rolled back. *)
Inductive response : Type :=
| render_template (template : string)
| redirect (endpoint : string)
| NotFound
| InternalServerError.

(** [Match.query.get_or_404(match_id)] and
    [Session.query.get_or_404(session_id)], [None] for the 404. *)
Definition Match_query_get (s : site) (match_id : Z) : option Match.t :=
  match Match_pk s match_id with
  | Some i => nth_error (matches (tables s)) i
  | None => None
  end.

Definition Session_query_get (s : site) (session_id : Z)
  : option Session.t :=
  match Session_pk s session_id with
  | Some i => nth_error (sessions s) i
  | None => None
  end.

(** The form of [schedule_session] as the view reads it: the topic is
    absent when the field is; [form_scheduled] is the value of [strptime]
    on the date and the time, [form_duration] the value of [int] on the
    duration, absent when the call raises. *)
Record schedule_form : Type := mk_schedule_form {
  form_skill_topic : option string;
  form_scheduled : option Z;
  form_duration : option Z;
  form_notes : string
}.

(** [schedule_session(match_id)]; [form] is absent for a GET, [token] is
    the value that [secrets.token_urlsafe(16)] draws.  The insertion
    fails when the topic is absent (the column is not nullable) and when
    the token is the room of a stored session (the column is unique). *)
Definition schedule_session (current_user_id match_id : Z)
  (form : option schedule_form) (token : string) (s : site)
  : response * site :=
  match Match_query_get s match_id with
  | None => (NotFound, s)
  | Some m =>
      let other_user :=
        if (Match.user1_id m =? current_user_id)%Z
        then User_query_get (tables s) (Match.user2_id m)
        else User_query_get (tables s) (Match.user1_id m) in
      match form with
      | Some f =>
          match form_duration f, form_scheduled f, other_user,
                form_skill_topic f with
          | Some duration, Some scheduled_datetime, Some other,
            Some skill_topic =>
              if existsb (fun x => String.eqb (Session.room_id x) token)
                         (sessions s)
              then (InternalServerError, s)
              else
                let session :=
                  Session.mk (User.id other) current_user_id skill_topic
                             scheduled_datetime duration "scheduled" token
                             (form_notes f) in
                (redirect "sessions",
                 mksite (tables s) (sessions s ++ [session]) (reviews s)
                        (trust_score s) (Match_pk s) (Session_pk s))
          | _, _, _, _ => (InternalServerError, s)
          end
      | None => (render_template "schedule_session.html", s)
      end
  end.

(** [User.update_trust_score] (models.py, lines 45-47) *)
Definition update_trust_score (self : User.t) (s : site) : py site :=
  x <- calculate_trust_score (reviews s) self ;;
  Return (mksite (tables s) (sessions s) (reviews s)
                 (fun i => if (i =? User.id self)%Z then x
                           else trust_score s i)
                 (Match_pk s) (Session_pk s)).

(** The form of [review]: [form_rating] is the value of [int] on the
    rating, absent when the call raises. *)
Record review_form : Type := mk_review_form {
  form_rating : option Z;
  form_comment : string
}.

(** [review(session_id)]; [form] is absent for a GET.  The new review is
    flushed before the reviewee is queried, so the trust score counts
    it. *)
Definition review (current_user_id session_id : Z)
  (form : option review_form) (s : site) : response * site :=
  match Session_query_get s session_id with
  | None => (NotFound, s)
  | Some session =>
      if negb (Session.teacher_id session =? current_user_id)%Z
         && negb (Session.learner_id session =? current_user_id)%Z
      then (redirect "dashboard", s)
      else
        match form with
        | Some f =>
            match form_rating f with
            | Some rating =>
                let reviewee_id :=
                  if (current_user_id =? Session.learner_id session)%Z
                  then Session.teacher_id session
                  else Session.learner_id session in
                let review_obj :=
                  Review.mk current_user_id reviewee_id (Some session_id)
                            rating (form_comment f) in
                let s1 :=
                  mksite (tables s) (sessions s) (reviews s ++ [review_obj])
                         (trust_score s) (Match_pk s) (Session_pk s) in
                match User_query_get (tables s1) reviewee_id with
                | Some reviewee =>
                    match update_trust_score reviewee s1 with
                    | Return s2 => (redirect "sessions", s2)
                    | Raise _ => (InternalServerError, s)
                    end
                | None => (InternalServerError, s)
                end
            | None => (InternalServerError, s)
            end
        | None => (render_template "review.html", s)
        end
  end.

(** The first statement of [dashboard] (app.py, line 89): the trust score
    of the logged-in user is computed again.  A request whose user the
    loader (lines 23-25) does not find is sent to the login page. *)
Definition dashboard (current_user_id : Z) (s : site) : response * site :=
  match User_query_get (tables s) current_user_id with
  | Some current_user =>
      match update_trust_score current_user s with
      | Return s1 => (render_template "dashboard.html", s1)
      | Raise _ => (InternalServerError, s)
      end
  | None => (redirect "login", s)
  end.

(** The requests of the site: those of the engine, and the three views
    above. *)
Inductive call : Type :=
| Engine (r : request)
| ScheduleSession (current_user_id match_id : Z)
                  (form : option schedule_form) (token : string)
| ReviewSession (current_user_id session_id : Z) (form : option review_form)
| Dashboard (current_user_id : Z).

(** The state after a request. *)
Definition after (c : call) (s : site) : site :=
  match c with
  | Engine r =>
      match handle r (tables s) with
      | Return d =>
          mksite d (sessions s) (reviews s) (trust_score s) (Match_pk s)
                 (Session_pk s)
      | Raise _ => s
      end
  | ScheduleSession u m f t => snd (schedule_session u m f t s)
  | ReviewSession u x f => snd (review u x f s)
  | Dashboard u => snd (dashboard u s)
  end.

(** The states the site reaches from tables without matches, sessions
    and reviews, every trust score at its default. *)
Inductive site_reachable : site -> Prop :=
| site_init : forall s,
    matches (tables s) = [] -> sessions s = [] -> reviews s = [] ->
    (forall i, trust_score s i = 5%float) -> site_reachable s
| site_step : forall s c, site_reachable s -> site_reachable (after c s).

(** The teacher of a session is a user of the table, an end of a stored
    match row, and not the learner. *)
Definition session_sound (s : site) (x : Session.t) : Prop :=
  Session.teacher_id x <> Session.learner_id x
  /\ (exists u, In u (users (tables s)) /\ User.id u = Session.teacher_id x)
  /\ (exists m, In m (matches (tables s))
                /\ (Match.user1_id m = Session.teacher_id x
                    \/ Match.user2_id m = Session.teacher_id x)).

(** The two users of a review are the two users of the session it
    names. *)
Definition review_of_session (s : site) (r : Review.t) : Prop :=
  exists session_id session,
    Review.session_id r = Some session_id
    /\ Session_query_get s session_id = Some session
    /\ ((Session.learner_id session = Review.reviewer_id r
         /\ Session.teacher_id session = Review.reviewee_id r)
        \/ (Session.teacher_id session = Review.reviewer_id r
            /\ Session.learner_id session = Review.reviewee_id r)).

(** Keys that count the rows from 1, as SQLite gives them. *)
Definition pk_from_1 (key : Z) : option nat :=
  if (1 <=? key)%Z then Some (Z.to_nat (key - 1)) else None.

(** Users 1 and 2 matched, a session that user 1 scheduled, and the
    review that user 1 wrote after it. *)
Definition site_guitar : site :=
  mksite db_guitar [] [] (fun _ => 5%float) pk_from_1 pk_from_1.

Definition calls_guitar : list call :=
  [ Engine (AddSkill 2 "guitar" "offer" "expert" "");
    ScheduleSession 1 1
      (Some (mk_schedule_form (Some "guitar"%string) (Some 0%Z) (Some 60%Z)
                              ""))
      "room";
    ReviewSession 1 1 (Some (mk_review_form (Some 4%Z) "thanks")) ].

Definition site_guitar_reviewed : site :=
  fold_left (fun s c => after c s) calls_guitar site_guitar.

(** ** Messages (app.py, lines 101-104, 300-324 and 386-397) *)

Module Message.
Record t : Type := mk {
  sender_id : Z;
  receiver_id : Z;
  content : string;
  is_read : bool;
  created_at : Z
}.
End Message.

(** The row that [handle_send_message] stores, for a payload with an
    integer [receiver_id] and a string [content]; [utcnow] is the reading
    of the clock.  The two events it emits are not modelled. *)
Definition handle_send_message (current_user_id receiver_id : Z)
  (content : string) (utcnow : Z) (table : list Message.t)
  : list Message.t :=
  table ++ [Message.mk current_user_id receiver_id content false utcnow].

(** The filter of [chat]: the message went from one of the two users to
    the other. *)
Definition between (current_user_id user_id : Z) (m : Message.t) : bool :=
  ((Message.sender_id m =? current_user_id)%Z
   && (Message.receiver_id m =? user_id)%Z)
  || ((Message.sender_id m =? user_id)%Z
      && (Message.receiver_id m =? current_user_id)%Z).

(** [order_by(Message.created_at)]; messages of the same instant keep the
    order of the table. *)
Fixpoint insert_by_time (m : Message.t) (l : list Message.t)
  : list Message.t :=
  match l with
  | [] => [m]
  | x :: l' =>
      if (Message.created_at m <=? Message.created_at x)%Z
      then m :: x :: l'
      else x :: insert_by_time m l'
  end.

Definition order_by_created_at (l : list Message.t) : list Message.t :=
  fold_right insert_by_time [] l.

(** The query [chat_messages] of [chat]. *)
Definition chat_messages (current_user_id user_id : Z)
  (table : list Message.t) : list Message.t :=
  order_by_created_at (filter (between current_user_id user_id) table).

(** The filter of the update of [chat]: an unread message from [user_id]
    to the logged-in user. *)
Definition unread_from (user_id current_user_id : Z) (m : Message.t)
  : bool :=
  (Message.sender_id m =? user_id)%Z
  && (Message.receiver_id m =? current_user_id)%Z
  && negb (Message.is_read m).

Definition mark_read (m : Message.t) : Message.t :=
  Message.mk (Message.sender_id m) (Message.receiver_id m)
             (Message.content m) true (Message.created_at m).

(** [chat(user_id)]: the response and the table after the update.  The
    rows of [chat_messages] are read before the update and refreshed by
    the commit: the page shows them as they are in the table after it. *)
Definition chat (current_user_id user_id : Z) (d : db)
  (table : list Message.t) : response * list Message.t :=
  match User_query_get d user_id with
  | None => (NotFound, table)
  | Some other_user =>
      (render_template "chat.html",
       map (fun m => if unread_from user_id current_user_id m
                     then mark_read m else m) table)
  end.

(** The count [unread_messages] of [dashboard]. *)
Definition unread_messages (current_user_id : Z) (table : list Message.t)
  : nat :=
  List.length
    (filter (fun m => (Message.receiver_id m =? current_user_id)%Z
                      && negb (Message.is_read m)) table).

(** The query [conversations] of [messages]: the users joined with a
    message from or to the logged-in user, each of them once. *)
Definition conversations (current_user_id : Z) (d : db)
  (table : list Message.t) : list User.t :=
  filter (fun u =>
            existsb (fun m =>
                       ((Message.sender_id m =? User.id u)%Z
                        && (Message.receiver_id m =? current_user_id)%Z)
                       || ((Message.receiver_id m =? User.id u)%Z
                           && (Message.sender_id m =? current_user_id)%Z))
                    table)
         (users d).

(** One message, from user 2 to user 1, not read yet. *)
Definition one_message : list Message.t :=
  handle_send_message 2 1 "hello" 0 [].

(** A message without its flag. *)
Definition envelope (m : Message.t) : Z * Z * string * Z :=
  (Message.sender_id m, Message.receiver_id m, Message.content m,
   Message.created_at m).

(** ** Registration (app.py, lines 36-60) *)

(** The form of [register] as the view reads it; a field is absent when
    the request does not carry it. *)
Record register_form : Type := mk_register_form {
  form_username : option string;
  form_email : option string;
  form_password : option string;
  form_bio : string
}.

(** The integer primary key of a new user: one more than the largest. *)
Definition next_user_id (d : db) : Z :=
  (fold_right Z.max 0 (map User.id (users d)) + 1)%Z.

(** [User.query.filter_by(username=...).first()] and the same for the
    email; an absent value finds nobody, the columns are not nullable. *)
Definition User_query_username (d : db) (username : option string)
  : option User.t :=
  match username with
  | Some n => find (fun u => String.eqb (User.username u) n) (users d)
  | None => None
  end.

Definition User_query_email (d : db) (email : option string)
  : option User.t :=
  match email with
  | Some e => find (fun u => String.eqb (User.email u) e) (users d)
  | None => None
  end.

(** [register]; [form] is absent for a GET.  Hashing an absent password
    raises, and storing an absent username or email breaks the
    constraint of the column; the hash itself is not kept here. *)
Definition register (form : option register_form) (d : db)
  : response * db :=
  match form with
  | Some f =>
      match User_query_username d (form_username f) with
      | Some _ => (redirect "register", d)
      | None =>
          match User_query_email d (form_email f) with
          | Some _ => (redirect "register", d)
          | None =>
              match form_password f, form_username f, form_email f with
              | Some password, Some username, Some email =>
                  let user := User.mk (next_user_id d) username email
                                      (form_bio f) in
                  (redirect "login",
                   mkdb (users d ++ [user]) (skills d) (matches d))
              | _, _, _ => (InternalServerError, d)
              end
          end
      end
  | None => (render_template "register.html", d)
  end.

(** Two accounts. *)
Definition db_accounts : db :=
  mkdb [User.mk 1 "ana" "ana@example.org" "";
        User.mk 2 "ben" "ben@example.org" ""] [] [].

Definition form_cleo : register_form :=
  mk_register_form (Some "cleo"%string) (Some "cleo@example.org"%string)
                   (Some "secret"%string) "".

(** No two users share an identity, a username or an email. *)
Definition users_unique (d : db) : Prop :=
  NoDup (map User.id (users d))
  /\ NoDup (map User.username (users d))
  /\ NoDup (map User.email (users d)).

(** * Properties *)

(** ** The builtins on a few inputs *)

Example lower_Python : lower "Python" = "python"%string.
Proof. reflexivity. Qed.

Example join_three : join ", " ["a"; "b"; "c"]%string = "a, b, c"%string.
Proof. reflexivity. Qed.

Example truediv_by_zero : truediv 1 0 = Raise ZeroDivisionError.
Proof. reflexivity. Qed.

Example truediv_third : truediv 1 3 = Return 0.33333333333333331%float.
Proof. vm_compute. reflexivity. Qed.

(** On integers that are binary64 numbers the quotient is the one of the
    hardware division. *)
Example truediv_hardware : truediv 23 80 = Return (23 / 80)%float.
Proof. vm_compute. reflexivity. Qed.

(** 6.25 and 28.75 are binary64 numbers: the tie goes to the even digit. *)
Example round1_ties :
  round1 6.25 = 6.2%float /\ round1 28.75 = 28.8%float.
Proof. split; vm_compute; reflexivity. Qed.

(** The binary64 number written 0.05 lies above 5/100, and rounds up. *)
Example round1_inexact :
  round1 0.05 = 0.1%float /\ round1 33.333333333333336 = 33.3%float
  /\ round1 (-0.04) = (-0)%float /\ round1 1e22 = 1e22%float.
Proof. repeat split; vm_compute; reflexivity. Qed.

Lemma Return_inj : forall (A : Type) (x y : A), Return x = Return y -> x = y.
Proof.
  intros A x y H.
  exact (f_equal (fun c => match c with Return z => z | Raise _ => x end) H).
Qed.

(** ** The scoring loops *)

Section ScoringLoops.

Variables other_offers other_wants : list Skill.t.

Lemma want_inner_score : forall my_want l,
  match_score (fold_left (want_inner my_want) other_offers l)
  = match_score l + List.length (filter (same_name my_want) other_offers).
Proof.
  intros my_want. induction other_offers as [|o os IH]; intros l; simpl.
  - lia.
  - rewrite IH. unfold want_inner.
    destruct (same_name my_want o); simpl; lia.
Qed.

Lemma want_inner_total : forall my_want l,
  total_possible (fold_left (want_inner my_want) other_offers l)
  = total_possible l.
Proof.
  intros my_want. induction other_offers as [|o os IH]; intros l; simpl.
  - reflexivity.
  - rewrite IH. unfold want_inner.
    destruct (same_name my_want o); reflexivity.
Qed.

Lemma want_inner_flag : forall my_want l,
  is_double (fold_left (want_inner my_want) other_offers l) = is_double l.
Proof.
  intros my_want. induction other_offers as [|o os IH]; intros l; simpl.
  - reflexivity.
  - rewrite IH. unfold want_inner.
    destruct (same_name my_want o); reflexivity.
Qed.

Lemma offer_inner_score : forall my_offer l,
  match_score (fold_left (offer_inner my_offer) other_wants l)
  = match_score l + List.length (filter (same_name my_offer) other_wants).
Proof.
  intros my_offer. induction other_wants as [|w ws IH]; intros l; simpl.
  - lia.
  - rewrite IH. unfold offer_inner.
    destruct (same_name my_offer w); simpl; lia.
Qed.

Lemma offer_inner_total : forall my_offer l,
  total_possible (fold_left (offer_inner my_offer) other_wants l)
  = total_possible l.
Proof.
  intros my_offer. induction other_wants as [|w ws IH]; intros l; simpl.
  - reflexivity.
  - rewrite IH. unfold offer_inner.
    destruct (same_name my_offer w); reflexivity.
Qed.

Lemma offer_inner_flag : forall my_offer l,
  is_double (fold_left (offer_inner my_offer) other_wants l)
  = is_double l || existsb (same_name my_offer) other_wants.
Proof.
  intros my_offer. induction other_wants as [|w ws IH]; intros l; simpl.
  - now rewrite orb_false_r.
  - rewrite IH. unfold offer_inner.
    destruct (same_name my_offer w); simpl.
    + now rewrite orb_true_r.
    + reflexivity.
Qed.

End ScoringLoops.

Lemma equal_pairs_cons : forall x mine theirs,
  List.length (equal_pairs (x :: mine) theirs)
  = List.length (filter (same_name x) theirs)
    + List.length (equal_pairs mine theirs).
Proof.
  intros x mine theirs. unfold equal_pairs. simpl.
  rewrite filter_app, length_app. f_equal.
  induction theirs as [|y ys IH]; simpl.
  - reflexivity.
  - destruct (same_name x y); simpl; now rewrite IH.
Qed.

Lemma want_outer_score : forall other_offers user_wants l,
  match_score (fold_left (want_outer other_offers) user_wants l)
  = match_score l + List.length (equal_pairs user_wants other_offers).
Proof.
  intros oo uw. induction uw as [|w ws IH]; intros l.
  - simpl. unfold equal_pairs. simpl. lia.
  - simpl. rewrite IH. unfold want_outer.
    rewrite want_inner_score, equal_pairs_cons. simpl. lia.
Qed.

Lemma want_outer_total : forall other_offers user_wants l,
  total_possible (fold_left (want_outer other_offers) user_wants l)
  = total_possible l + List.length user_wants.
Proof.
  intros oo uw. induction uw as [|w ws IH]; intros l; simpl.
  - lia.
  - rewrite IH. unfold want_outer. rewrite want_inner_total. simpl. lia.
Qed.

Lemma want_outer_flag : forall other_offers user_wants l,
  is_double (fold_left (want_outer other_offers) user_wants l) = is_double l.
Proof.
  intros oo uw. induction uw as [|w ws IH]; intros l; simpl.
  - reflexivity.
  - rewrite IH. unfold want_outer. now rewrite want_inner_flag.
Qed.

Lemma offer_outer_score : forall other_wants user_offers l,
  match_score (fold_left (offer_outer other_wants) user_offers l)
  = match_score l + List.length (equal_pairs user_offers other_wants).
Proof.
  intros ow uo. induction uo as [|o os IH]; intros l.
  - simpl. unfold equal_pairs. simpl. lia.
  - simpl. rewrite IH. unfold offer_outer.
    rewrite offer_inner_score, equal_pairs_cons. simpl. lia.
Qed.

Lemma offer_outer_total : forall other_wants user_offers l,
  total_possible (fold_left (offer_outer other_wants) user_offers l)
  = total_possible l + List.length user_offers.
Proof.
  intros ow uo. induction uo as [|o os IH]; intros l; simpl.
  - lia.
  - rewrite IH. unfold offer_outer. rewrite offer_inner_total. simpl. lia.
Qed.

Lemma offer_outer_flag : forall other_wants user_offers l,
  is_double (fold_left (offer_outer other_wants) user_offers l)
  = is_double l
    || existsb (fun o => existsb (same_name o) other_wants) user_offers.
Proof.
  intros ow uo. induction uo as [|o os IH]; intros l; simpl.
  - now rewrite orb_false_r.
  - rewrite IH. unfold offer_outer. rewrite offer_inner_flag. simpl.
    now rewrite orb_assoc.
Qed.

(** The values of the locals when the two loops are over. *)
Lemma score_match_score : forall uo uw oo ow,
  match_score (score uo uw oo ow)
  = List.length (equal_pairs uw oo) + List.length (equal_pairs uo ow).
Proof.
  intros. unfold score. now rewrite offer_outer_score, want_outer_score.
Qed.

Lemma score_total_possible : forall uo uw oo ow,
  total_possible (score uo uw oo ow) = List.length uw + List.length uo.
Proof.
  intros. unfold score. now rewrite offer_outer_total, want_outer_total.
Qed.

Lemma score_is_double : forall uo uw oo ow,
  is_double (score uo uw oo ow)
  = existsb (fun o => existsb (same_name o) ow) uo.
Proof.
  intros. unfold score. now rewrite offer_outer_flag, want_outer_flag.
Qed.

(** A positive score needs an entry of the triggering user. *)
Lemma score_pos_total_pos : forall uo uw oo ow,
  0 < match_score (score uo uw oo ow) -> 0 < total_possible (score uo uw oo ow).
Proof.
  intros uo uw oo ow. rewrite score_match_score, score_total_possible.
  destruct uw as [|w ws]; destruct uo as [|o os]; simpl; lia.
Qed.

(** ** The deduplication query *)

Lemma joins_sym : forall a b m, joins a b m = joins b a m.
Proof. intros a b m. unfold joins. apply orb_comm. Qed.

(** A row that joins [a] and [b] is joined by the same queries as they. *)
Lemma joins_same_pair : forall a b m,
  joins a b m = true ->
  forall m', joins a b m' = joins (Match.user1_id m) (Match.user2_id m) m'.
Proof.
  intros a b m H m'. unfold joins in H.
  apply orb_true_iff in H.
  destruct H as [H|H]; apply andb_true_iff in H; destruct H as [H1 H2];
    apply Z.eqb_eq in H1; apply Z.eqb_eq in H2; rewrite H1, H2.
  - reflexivity.
  - apply joins_sym.
Qed.

Lemma find_none_filter : forall (A : Type) (f : A -> bool) (l : list A),
  find f l = None <-> filter f l = [].
Proof.
  intros A f l. induction l as [|x xs IH]; simpl.
  - tauto.
  - destruct (f x); [split; discriminate | exact IH].
Qed.

Lemma Match_query_first_none : forall d a b,
  Match_query_first d a b = None <-> pair_count d a b = 0.
Proof.
  intros d a b. unfold Match_query_first, pair_count.
  rewrite find_none_filter. split.
  - intros ->. reflexivity.
  - apply length_zero_iff_nil.
Qed.

Lemma pair_count_add : forall m d a b,
  pair_count (session_add_match m d) a b
  = pair_count d a b + (if joins a b m then 1 else 0).
Proof.
  intros m d a b. unfold pair_count, session_add_match. simpl.
  rewrite filter_app, length_app. simpl.
  destruct (joins a b m); reflexivity.
Qed.

Lemma pair_count_extend : forall d new a b,
  pair_count (extend d new) a b
  = pair_count d a b + List.length (filter (joins a b) new).
Proof.
  intros. unfold pair_count, extend. simpl. now rewrite filter_app, length_app.
Qed.

Lemma extend_nil : forall d, extend d [] = d.
Proof. intros [us sk ms]. unfold extend. simpl. now rewrite app_nil_r. Qed.

Lemma extend_add : forall d m new,
  extend (session_add_match m d) new = extend d (m :: new).
Proof.
  intros d m new. unfold extend, session_add_match. simpl.
  now rewrite <- app_assoc.
Qed.

Lemma created_extend : forall d new, created d (extend d new) = new.
Proof.
  intros d new. unfold created, extend. simpl.
  rewrite skipn_app, skipn_all, Nat.sub_diag. reflexivity.
Qed.

(** ** One iteration, without the monad *)

Lemma truediv_pos : forall a b : nat,
  0 < b ->
  truediv (Z.of_nat a) (Z.of_nat b)
  = Return (nearest_quotient (Z.of_nat a) (Z.of_nat b)).
Proof.
  intros a b Hb. unfold truediv.
  destruct (Z.eqb_spec (Z.of_nat b) 0) as [E|_]; [lia | reflexivity].
Qed.

Lemma filter_by_skills : forall d d0 u t,
  skills d = skills d0 ->
  Skill_query_filter_by d u t = Skill_query_filter_by d0 u t.
Proof. intros d d0 u t H. unfold Skill_query_filter_by. now rewrite H. Qed.

Lemma visit_cases : forall d0 user_id other d,
  skills d = skills d0 ->
  visit user_id (Skill_query_filter_by d0 user_id "offer")
        (Skill_query_filter_by d0 user_id "want") other d
  = if (0 <? match_score (score_for d0 user_id (User.id other)))
       && (0 <? total_possible (score_for d0 user_id (User.id other)))
    then match Match_query_first d user_id (User.id other) with
         | Some _ => Return d
         | None =>
             Return (session_add_match (row_of d0 user_id (User.id other)) d)
         end
    else Return d.
Proof.
  intros d0 uid other d Hs. unfold visit.
  rewrite !(filter_by_skills d d0 _ _ Hs). fold (score_for d0 uid (User.id other)).
  destruct (0 <? match_score _) eqn:E1; simpl; [|reflexivity].
  destruct (0 <? total_possible _) eqn:E2; simpl; [|reflexivity].
  apply Nat.ltb_lt in E2. rewrite (truediv_pos _ _ E2). simpl.
  reflexivity.
Qed.

(** ** The loop over the candidates *)

Lemma loop_spec : forall d0 user_id cands,
  (forall o, In o cands -> In o (users d0) /\ User.id o <> user_id) ->
  forall d, skills d = skills d0 ->
  exists new,
    for_each (visit user_id (Skill_query_filter_by d0 user_id "offer")
                    (Skill_query_filter_by d0 user_id "want")) cands d
    = Return (extend d new)
    /\ Forall (made_by d0 user_id) new
    /\ (forall a b,
          pair_count (extend d new) a b <= Nat.max (pair_count d a b) 1)
    /\ (forall o, In o cands ->
          0 < match_score (score_for d0 user_id (User.id o)) ->
          1 <= pair_count (extend d new) user_id (User.id o)).
Proof.
  intros d0 uid cands. induction cands as [|x xs IH]; intros Hc d Hs.
  - exists []. rewrite extend_nil. simpl. repeat split.
    + constructor.
    + intros; lia.
    + intros o [].
  - assert (Hxs : forall o, In o xs -> In o (users d0) /\ User.id o <> uid)
      by (intros o Ho; apply Hc; now right).
    destruct (Hc x (or_introl eq_refl)) as [Hin Hne].
    simpl for_each. rewrite (visit_cases d0 uid x d Hs).
    destruct ((0 <? match_score (score_for d0 uid (User.id x)))
              && (0 <? total_possible (score_for d0 uid (User.id x))))
      eqn:G.
    + apply andb_true_iff in G. destruct G as [G1 G2].
      apply Nat.ltb_lt in G1. apply Nat.ltb_lt in G2.
      destruct (Match_query_first d uid (User.id x)) as [old|] eqn:F.
      * simpl bind. destruct (IH Hxs d Hs) as (new & E & Hm & Hle & Hge).
        exists new. repeat split; try assumption.
        intros o [<-|Ho] Hpos; [|now apply Hge].
        rewrite pair_count_extend.
        assert (pair_count d uid (User.id x) <> 0).
        { intros H0. apply Match_query_first_none in H0. congruence. }
        lia.
      * simpl bind.
        set (m := row_of d0 uid (User.id x)).
        destruct (IH Hxs (session_add_match m d) Hs)
          as (new & E & Hm & Hle & Hge).
        rewrite extend_add in E, Hle, Hge.
        exists (m :: new). repeat split.
        -- exact E.
        -- constructor; [|exact Hm]. exists x. repeat split; assumption.
        -- intros a b. specialize (Hle a b).
           rewrite pair_count_add in Hle.
           destruct (joins a b m) eqn:J; [|lia].
           apply Match_query_first_none in F.
           assert (pair_count d a b = pair_count d uid (User.id x)).
           { unfold pair_count. f_equal. apply filter_ext.
             intros m'. apply (joins_same_pair a b m J). }
           lia.
        -- intros o [<-|Ho] Hpos; [|now apply Hge].
           rewrite pair_count_extend. simpl.
           assert (J : joins uid (User.id x) m = true).
           { unfold joins, m. simpl. now rewrite !Z.eqb_refl. }
           rewrite J. simpl. lia.
    + simpl bind. destruct (IH Hxs d Hs) as (new & E & Hm & Hle & Hge).
      exists new. repeat split; try assumption.
      intros o [<-|Ho] Hpos; [|now apply Hge].
      pose proof (score_pos_total_pos _ _ _ _ Hpos) as Htot.
      apply andb_false_iff in G.
      destruct G as [G|G]; apply Nat.ltb_ge in G; unfold score_for in *; lia.
Qed.

(** ** The engine as a whole *)

Lemma others_In : forall d user_id o,
  In o (User_query_others d user_id)
  <-> In o (users d) /\ User.id o <> user_id.
Proof.
  intros d uid o. unfold User_query_others. rewrite filter_In.
  rewrite negb_true_iff, Z.eqb_neq. reflexivity.
Qed.

(** The engine always returns; it only appends rows, each of them built
    for a candidate with a positive score; it never lets the number of
    rows of a pair grow beyond one; and it leaves a row for every
    candidate with a positive score. *)
Lemma find_matches_spec : forall user_id d,
  exists new,
    find_matches_for_user user_id d = Return (extend d new)
    /\ Forall (made_by d user_id) new
    /\ (forall a b,
          pair_count (extend d new) a b <= Nat.max (pair_count d a b) 1)
    /\ (User_query_get d user_id = None -> new = [])
    /\ (User_query_get d user_id <> None ->
        forall o, In o (users d) -> User.id o <> user_id ->
          0 < match_score (score_for d user_id (User.id o)) ->
          1 <= pair_count (extend d new) user_id (User.id o)).
Proof.
  intros uid d. unfold find_matches_for_user.
  destruct (User_query_get d uid) as [u|] eqn:G.
  - destruct (loop_spec d uid (User_query_others d uid)
                (fun o H => proj1 (others_In d uid o) H) d eq_refl)
      as (new & E & Hm & Hle & Hge).
    exists new. repeat split; try assumption.
    + discriminate.
    + intros _ o Ho Hne. apply Hge. apply others_In. now split.
  - exists []. rewrite extend_nil. repeat split.
    + constructor.
    + intros; lia.
    + intros H. now elim H.
Qed.

(** The opening of the proofs about the rows an invocation creates: the
    state returned is [extend d new] and every row of [new] is [made_by]. *)
Ltac created_rows uid d new E Hm :=
  destruct (find_matches_spec uid d) as (new & E & Hm & _);
  exists (extend d new); split; [exact E|];
  rewrite ?created_extend; rewrite Forall_forall in Hm.


(** The first scenario of the specification: user 1 wants Guitar, user 2
    offers guitar and triggers.  One row is created, from user 2 to user
    1, with 100.0 percent and the double-swap flag. *)
Example scenario_guitar :
  find_matches_for_user 2 db_guitar
  = Return (extend db_guitar
              [Match.mk 2 1 "guitar" "" "" "Guitar" 100 true "pending"]).
Proof. vm_compute. reflexivity. Qed.

(** ** The routes *)

Lemma made_by_distinct : forall d user_id m,
  made_by d user_id m -> distinct_ends m.
Proof.
  intros d uid m (o & _ & Hne & _ & _ & ->). unfold distinct_ends, row_of.
  simpl. congruence.
Qed.

(** Every request returns, keeps the users, appends rows to the match
    table and keeps the pairs deduplicated. *)
Lemma handle_spec : forall r d,
  exists d' new,
    handle r d = Return d'
    /\ users d' = users d
    /\ matches d' = matches d ++ new
    /\ Forall distinct_ends new
    /\ (forall a b, pair_count d' a b <= Nat.max (pair_count d a b) 1).
Proof.
  assert (Hid : forall d' d, users d' = users d -> matches d' = matches d ->
            users d' = users d /\ matches d' = matches d ++ []
            /\ Forall distinct_ends []
            /\ (forall a b, pair_count d' a b <= Nat.max (pair_count d a b) 1)).
  { intros d' d Hu Hm. rewrite app_nil_r. repeat split; try assumption.
    - constructor.
    - intros a b. unfold pair_count. rewrite Hm. lia. }
  assert (Hfm : forall u d1 d, users d1 = users d -> matches d1 = matches d ->
            exists d' new,
              find_matches_for_user u d1 = Return d'
              /\ users d' = users d
              /\ matches d' = matches d ++ new
              /\ Forall distinct_ends new
              /\ (forall a b,
                    pair_count d' a b <= Nat.max (pair_count d a b) 1)).
  { intros u d1 d Hu Hm.
    destruct (find_matches_spec u d1) as (new & E & Hmade & Hle & _).
    exists (extend d1 new), new. repeat split.
    - exact E.
    - exact Hu.
    - simpl. now rewrite Hm.
    - eapply Forall_impl; [|exact Hmade]. intros m. apply made_by_distinct.
    - intros a b. specialize (Hle a b).
      replace (pair_count d a b) with (pair_count d1 a b); [exact Hle|].
      unfold pair_count. now rewrite Hm. }
  intros [u n t p e|u s|u] d; simpl.
  - unfold add_skill.
    destruct (negb (existsb (String.eqb t) ["offer"; "want"]%string)).
    + exists d, []. split; [reflexivity|]. now apply Hid.
    + destruct (String.eqb t "offer").
      * apply Hfm; reflexivity.
      * eexists _, []. split; [reflexivity|]. now apply Hid.
  - unfold delete_skill.
    destruct (find _ (skills d)) as [sk|].
    + destruct (negb (Skill.user_id sk =? u)%Z);
        eexists _, []; (split; [reflexivity|]); now apply Hid.
    + exists d, []. split; [reflexivity|]. now apply Hid.
  - apply Hfm; reflexivity.
Qed.

Lemma serve_spec : forall rs d,
  exists d' new,
    serve rs d = Return d'
    /\ users d' = users d
    /\ matches d' = matches d ++ new
    /\ Forall distinct_ends new
    /\ (forall a b, pair_count d' a b <= Nat.max (pair_count d a b) 1).
Proof.
  induction rs as [|r rs IH]; intros d.
  - exists d, []. simpl. rewrite app_nil_r. repeat split.
    + constructor.
    + intros; lia.
  - destruct (handle_spec r d) as (d1 & n1 & E1 & U1 & M1 & D1 & P1).
    destruct (IH d1) as (d2 & n2 & E2 & U2 & M2 & D2 & P2).
    exists d2, (n1 ++ n2). unfold serve in *. simpl. rewrite E1. simpl.
    repeat split.
    + exact E2.
    + congruence.
    + rewrite M2, M1. now rewrite app_assoc.
    + apply Forall_app. now split.
    + intros a b. specialize (P1 a b). specialize (P2 a b). lia.
Qed.

(** ** The accumulation rule *)

Lemma score_for_spec : forall d user_id other_id,
  match_score (score_for d user_id other_id)
  = matchScore (Skill_query_filter_by d user_id "want")
               (Skill_query_filter_by d user_id "offer")
               (Skill_query_filter_by d other_id "offer")
               (Skill_query_filter_by d other_id "want")
  /\ total_possible (score_for d user_id other_id)
     = totalPossible (Skill_query_filter_by d user_id "want")
                     (Skill_query_filter_by d user_id "offer").
Proof.
  intros. unfold score_for, matchScore, totalPossible.
  now rewrite score_match_score, score_total_possible.
Qed.

(** C1 (as amended).  For every row the engine creates, match_percentage
    is [round((matchScore / totalPossible) * 100, 1)], the quotient taken
    first and multiplied by 100 afterwards, in binary64 arithmetic;
    matchScore counts every pair of a want of the triggering user and an
    offer of the candidate with equal lower-cased names, and every such
    pair of an offer and a want, duplicates counted each time;
    totalPossible is the number of the triggering user's wanted entries
    plus the number of their offered entries. *)
Theorem match_percentage_accumulation : forall user_id d,
  exists d',
    find_matches_for_user user_id d = Return d'
    /\ forall m, In m (created d d') ->
         percentage_as_coded
           (matchScore (Skill_query_filter_by d user_id "want")
                       (Skill_query_filter_by d user_id "offer")
                       (Skill_query_filter_by d (Match.user2_id m) "offer")
                       (Skill_query_filter_by d (Match.user2_id m) "want"))
           (totalPossible (Skill_query_filter_by d user_id "want")
                          (Skill_query_filter_by d user_id "offer"))
         = Return (Match.match_percentage m).
Proof.
  intros uid d. created_rows uid d new E Hm. intros m Hin.
  destruct (Hm m Hin) as (o & _ & _ & _ & Htot & ->).
  unfold row_of. cbn [Match.match_percentage Match.user2_id].
  destruct (score_for_spec d uid (User.id o)) as [<- <-].
  unfold percentage_as_coded. rewrite (truediv_pos _ _ Htot). reflexivity.
Qed.

Lemma match_percentage_accumulation_witness :
  exists d' m,
    find_matches_for_user 1 db_two_wants = Return d'
    /\ created db_two_wants d' = [m]
    /\ percentage_as_coded 1 2 = Return (Match.match_percentage m)
    /\ Match.match_percentage m = 50%float.
Proof.
  destruct (match_percentage_accumulation 1 db_two_wants) as (d' & E & H).
  pose proof E as E'. vm_compute in E'. apply Return_inj in E'.
  exists d'. eexists. split; [exact E|].
  split; [rewrite <- E'; vm_compute; reflexivity|].
  split; [|vm_compute; reflexivity].
  refine (eq_trans _ (H _ _)).
  - vm_compute. reflexivity.
  - rewrite <- E'. vm_compute. now left.
Defined.

(** C1, the claim as stated, fails.  With 23 equal pairs out of 80 entries
    the engine stores 28.7 (23/80 is rounded below 0.2875, so the product
    falls below 28.75), where [round(100 * 23 / 80, 1)] is 28.8, in
    binary64 arithmetic and in exact arithmetic alike (2300/80 is the tie
    28.75, and 288 tenths is the even neighbour). *)
Lemma match_percentage_not_as_specified :
  exists d' m,
    find_matches_for_user 1 db_80_23 = Return d'
    /\ created db_80_23 d' = [m]
    /\ Match.user2_id m = 2%Z
    /\ matchScore (Skill_query_filter_by db_80_23 1 "want")
                  (Skill_query_filter_by db_80_23 1 "offer")
                  (Skill_query_filter_by db_80_23 2 "offer")
                  (Skill_query_filter_by db_80_23 2 "want") = 23
    /\ totalPossible (Skill_query_filter_by db_80_23 1 "want")
                     (Skill_query_filter_by db_80_23 1 "offer") = 80
    /\ Match.match_percentage m = 28.7%float
    /\ percentage_as_specified 23 80 = Return 28.8%float
    /\ round_half_even (10 * (100 * 23)) 80 = 288%Z
    /\ percentage_as_specified 23 80 <> Return (Match.match_percentage m).
Proof.
  eexists. eexists. split; [vm_compute; reflexivity|].
  split; [vm_compute; reflexivity|].
  repeat split; try (vm_compute; reflexivity).
  intros H.
  apply (f_equal (fun c => match c with
                           | Return x => PrimFloat.eqb x 28.8
                           | Raise _ => false
                           end)) in H.
  vm_compute in H. discriminate H.
Qed.

(** ** Symmetry of the score *)

Lemma same_name_sym : forall a b, same_name a b = same_name b a.
Proof. intros a b. unfold same_name. apply String.eqb_sym. Qed.

Lemma equal_pairs_nil_r : forall mine, List.length (equal_pairs mine []) = 0.
Proof.
  induction mine as [|x xs IH].
  - reflexivity.
  - rewrite equal_pairs_cons. simpl. exact IH.
Qed.

Lemma equal_pairs_cons_r : forall y mine theirs,
  List.length (equal_pairs mine (y :: theirs))
  = List.length (filter (fun x => same_name x y) mine)
    + List.length (equal_pairs mine theirs).
Proof.
  intros y mine theirs. induction mine as [|x xs IH].
  - reflexivity.
  - rewrite !equal_pairs_cons, IH. simpl.
    destruct (same_name x y); simpl; lia.
Qed.

Lemma equal_pairs_swap : forall mine theirs,
  List.length (equal_pairs mine theirs) = List.length (equal_pairs theirs mine).
Proof.
  induction mine as [|x xs IH]; intros theirs.
  - now rewrite equal_pairs_nil_r.
  - rewrite equal_pairs_cons, equal_pairs_cons_r, IH. f_equal. f_equal.
    apply filter_ext. intros y. apply same_name_sym.
Qed.

(** C2 (as amended).  The score, the number of equal pairs, is the same
    whichever of the two users triggers; the percentage divides it by the
    number of entries of the triggering user only, so the two percentages
    agree whenever the two users have the same number of entries. *)
Theorem score_symmetric : forall d a b,
  match_score (score_for d a b) = match_score (score_for d b a)
  /\ (total_possible (score_for d a b) = total_possible (score_for d b a) ->
      Match.match_percentage (row_of d a b)
      = Match.match_percentage (row_of d b a)).
Proof.
  intros d a b.
  assert (S : match_score (score_for d a b) = match_score (score_for d b a)).
  { unfold score_for. rewrite !score_match_score.
    rewrite (equal_pairs_swap (Skill_query_filter_by d a "want")).
    rewrite (equal_pairs_swap (Skill_query_filter_by d a "offer")).
    lia. }
  split; [exact S|]. intros T. unfold row_of. simpl. now rewrite S, T.
Qed.

Lemma score_symmetric_witness :
  total_possible (score_for db_guitar 1 2)
  = total_possible (score_for db_guitar 2 1)
  /\ match_score (score_for db_guitar 1 2)
     = match_score (score_for db_guitar 2 1)
  /\ Match.match_percentage (row_of db_guitar 1 2)
     = Match.match_percentage (row_of db_guitar 2 1).
Proof.
  destruct (score_symmetric db_guitar 1 2) as [S P].
  split; [reflexivity|]. split; [exact S|]. apply P. reflexivity.
Defined.

(** C2, the claim as stated, fails: the engine stores 50.0 for candidate 2
    when user 1 triggers, and 100.0 for candidate 1 when user 2 triggers. *)
Lemma percentage_not_symmetric :
  exists d1 d2 m1 m2,
    find_matches_for_user 1 db_two_wants = Return d1
    /\ created db_two_wants d1 = [m1]
    /\ find_matches_for_user 2 db_two_wants = Return d2
    /\ created db_two_wants d2 = [m2]
    /\ Match.user2_id m1 = 2%Z /\ Match.user2_id m2 = 1%Z
    /\ Match.match_percentage m1 = 50%float
    /\ Match.match_percentage m2 = 100%float
    /\ Match.match_percentage m1 <> Match.match_percentage m2.
Proof.
  do 4 eexists.
  split; [vm_compute; reflexivity|]. split; [vm_compute; reflexivity|].
  split; [vm_compute; reflexivity|]. split; [vm_compute; reflexivity|].
  repeat split; try (vm_compute; reflexivity).
  intros H. apply (f_equal (fun x => PrimFloat.eqb x 50)) in H.
  vm_compute in H. discriminate H.
Qed.

(** ** Deduplication *)

(** C3.  In every reachable state there is at most one match row for an
    unordered pair of users: the rows whose two identities are [a] and [b],
    in either order, are never more than one. *)
Theorem one_row_per_pair : forall d,
  reachable d -> forall a b, pair_count d a b <= 1.
Proof.
  intros d R. induction R as [d H0|d r d' R IH H]; intros a b.
  - unfold pair_count. rewrite H0. simpl. lia.
  - destruct (handle_spec r d) as (d1 & new & E & _ & _ & _ & P).
    rewrite H in E. apply Return_inj in E. subst d1.
    specialize (P a b). specialize (IH a b). lia.
Qed.

Lemma db_guitar_served_reachable : reachable db_guitar_served.
Proof.
  eapply reachable_step with (r := AddSkill 2 "guitar" "offer" "expert" "").
  - eapply reachable_step with (r := AddSkill 2 "guitar" "offer" "expert" "").
    + apply (reachable_init db_guitar). reflexivity.
    + vm_compute. reflexivity.
  - vm_compute. reflexivity.
Qed.

Lemma one_row_per_pair_witness :
  reachable db_guitar_served
  /\ pair_count db_guitar_served 1 2 = 1
  /\ forall a b, pair_count db_guitar_served a b <= 1.
Proof.
  split; [exact db_guitar_served_reachable|].
  split; [vm_compute; reflexivity|].
  exact (one_row_per_pair db_guitar_served db_guitar_served_reachable).
Defined.

Lemma User_query_get_some : forall d u,
  In u (users d) -> User_query_get d (User.id u) <> None.
Proof.
  intros d u Hin Hnone. unfold User_query_get in Hnone.
  pose proof (find_none _ _ Hnone u Hin) as H. simpl in H.
  now rewrite Z.eqb_refl in H.
Qed.

Lemma pair_count_sym : forall d a b, pair_count d a b = pair_count d b a.
Proof.
  intros d a b. unfold pair_count. f_equal. apply filter_ext.
  intros m. apply joins_sym.
Qed.

Lemma overlap_score : forall d a b,
  overlap d a b -> 0 < match_score (score_for d a b).
Proof.
  intros d a b H. unfold score_for. rewrite score_match_score.
  rewrite (equal_pairs_swap (Skill_query_filter_by d a "offer")).
  destruct H as [H|H]; rewrite <- length_zero_iff_nil in H; lia.
Qed.

Lemma first_invocation : forall d a ua ub,
  In ua (users d) -> User.id ua = a -> In ub (users d) ->
  a <> User.id ub -> overlap d a (User.id ub) ->
  pair_count d a (User.id ub) = 0 ->
  exists d1,
    find_matches_for_user a d = Return d1
    /\ List.length (filter (joins a (User.id ub)) (created d d1)) = 1
    /\ pair_count d1 a (User.id ub) = 1.
Proof.
  intros d a ua ub Ha Ea Hb Hne Hov H0.
  destruct (find_matches_spec a d) as (new & E & _ & Hle & _ & Hge).
  exists (extend d new). split; [exact E|].
  assert (G : User_query_get d a <> None)
    by (rewrite <- Ea; now apply User_query_get_some).
  specialize (Hge G ub Hb (not_eq_sym Hne) (overlap_score d a _ Hov)).
  specialize (Hle a (User.id ub)).
  rewrite created_extend. rewrite pair_count_extend in *. lia.
Qed.

Lemma later_requests : forall d1 a b,
  pair_count d1 a b = 1 ->
  forall rs, exists d2,
    serve rs d1 = Return d2
    /\ filter (joins a b) (matches d2) = filter (joins a b) (matches d1).
Proof.
  intros d1 a b H1 rs.
  destruct (serve_spec rs d1) as (d2 & new & E & _ & M & _ & P).
  exists d2. split; [exact E|].
  specialize (P a b). unfold pair_count in *. rewrite M in *.
  rewrite filter_app in *. rewrite length_app in P.
  assert (L : List.length (filter (joins a b) new) = 0) by lia.
  apply length_zero_iff_nil in L. rewrite L. apply app_nil_r.
Qed.

(** C4.  Let [a] and [b] be two users with an overlap and without a match
    row.  One invocation of the engine, for [a] or for [b], creates exactly
    one row for the pair and leaves the rows that were there as they were;
    whatever requests follow (invocations of the engine for either user
    among them), the rows of the pair stay this one row, unchanged. *)
Theorem match_created_once : forall d a b ua ub trigger,
  In ua (users d) -> User.id ua = a ->
  In ub (users d) -> User.id ub = b ->
  a <> b ->
  overlap d a b ->
  pair_count d a b = 0 ->
  trigger = a \/ trigger = b ->
  exists d1,
    find_matches_for_user trigger d = Return d1
    /\ List.length (filter (joins a b) (created d d1)) = 1
    /\ pair_count d1 a b = 1
    /\ firstn (List.length (matches d)) (matches d1) = matches d
    /\ forall rs, exists d2,
         serve rs d1 = Return d2
         /\ filter (joins a b) (matches d2) = filter (joins a b) (matches d1).
Proof.
  intros d a b ua ub t Ha Ea Hb Eb Hne Hov H0 Ht.
  assert (K : exists d1,
            find_matches_for_user t d = Return d1
            /\ List.length (filter (joins a b) (created d d1)) = 1
            /\ pair_count d1 a b = 1).
  { destruct Ht as [-> | ->].
    - subst b. now apply (first_invocation d a ua ub).
    - destruct (first_invocation d b ub ua) as (d1 & E & L & P);
        try assumption.
      + subst a. congruence.
      + subst a. destruct Hov as [H|H]; [right|left]; exact H.
      + subst a. now rewrite pair_count_sym.
      + subst a. exists d1. split; [exact E|].
        rewrite pair_count_sym.
        rewrite (filter_ext _ _ (joins_sym (User.id ua) b)).
        now split. }
  destruct K as (d1 & E & L & P). exists d1.
  split; [exact E|]. split; [exact L|]. split; [exact P|]. split.
  - destruct (find_matches_spec t d) as (new & E' & _).
    rewrite E in E'. apply Return_inj in E'. subst d1. simpl.
    rewrite firstn_app, firstn_all, Nat.sub_diag. simpl. apply app_nil_r.
  - now apply later_requests.
Qed.

Lemma match_created_once_witness :
  exists d1,
    find_matches_for_user 2 db_guitar = Return d1
    /\ List.length (filter (joins 1 2) (created db_guitar d1)) = 1
    /\ pair_count d1 1 2 = 1
    /\ firstn (List.length (matches db_guitar)) (matches d1)
       = matches db_guitar
    /\ forall rs, exists d2,
         serve rs d1 = Return d2
         /\ filter (joins 1 2) (matches d2) = filter (joins 1 2) (matches d1).
Proof.
  apply (match_created_once db_guitar 1 2 (user 1 "ana") (user 2 "ben") 2).
  - simpl. now left.
  - reflexivity.
  - simpl. right. now left.
  - reflexivity.
  - discriminate.
  - left. vm_compute. discriminate.
  - reflexivity.
  - now right.
Defined.

(** ** Rounding to binary64

    The bounds on the stored percentage follow the three roundings of
    [round((match_score / total_possible) * 100, 1)] through the
    specification of the binary64 operations: the primitive operations
    are related to it by the axioms of the standard library. *)

Section Binary64Rounding.

Local Open Scope Z_scope.

(** *** The number of binary digits *)

Lemma fx_eq : forall e, fx e = Z.max (e - 53) (-1074).
Proof. reflexivity. Qed.

Lemma digits2_pos_size : forall p, digits2_pos p = Pos.size p.
Proof. induction p; simpl; now rewrite ?IHp. Qed.

Lemma Zdigits2_log2 : forall m, 0 < m -> Zdigits2 m = Z.log2 m + 1.
Proof.
  intros [|p|p] H; try lia. simpl. rewrite digits2_pos_size.
  destruct p; simpl; lia.
Qed.

Lemma Zdigits2_0 : Zdigits2 0 = 0.
Proof. reflexivity. Qed.

Lemma Zdigits2_nonneg : forall m, 0 <= Zdigits2 m.
Proof. intros [|p|p]; simpl; lia. Qed.

Lemma Zdigits2_lt_pow2 : forall m d, 0 <= m -> 0 <= d ->
  m < 2 ^ d <-> Zdigits2 m <= d.
Proof.
  intros m d Hm Hd. destruct (Z.eq_dec m 0) as [->|Hne].
  - rewrite Zdigits2_0. split; intros _; [lia|]. apply Z.pow_pos_nonneg; lia.
  - rewrite Zdigits2_log2 by lia. rewrite Z.log2_lt_pow2 by lia. lia.
Qed.

Lemma Zdigits2_le_pow2 : forall m d, 0 < m ->
  2 ^ d <= m <-> d < Zdigits2 m.
Proof.
  intros m d Hm. rewrite Zdigits2_log2 by lia.
  rewrite Z.log2_le_pow2 by lia. lia.
Qed.

Lemma Zdigits2_mono : forall a b, 0 <= a <= b -> Zdigits2 a <= Zdigits2 b.
Proof.
  intros a b H. destruct (Z.eq_dec a 0) as [->|Ha].
  - apply Zdigits2_nonneg.
  - rewrite !Zdigits2_log2 by lia.
    pose proof (Z.log2_le_mono a b). lia.
Qed.

Lemma Zdigits2_div_pow2 : forall m n, 0 <= n -> 0 < m / 2 ^ n ->
  Zdigits2 (m / 2 ^ n) = Zdigits2 m - n.
Proof.
  intros m n Hn Hpos.
  assert (Hm : 0 < m).
  { destruct (Z_lt_le_dec 0 m) as [H|H]; [exact H|].
    assert (m / 2 ^ n <= 0); [|lia].
    apply Z.div_le_upper_bound; [apply Z.pow_pos_nonneg; lia|lia]. }
  rewrite !Zdigits2_log2 by lia.
  rewrite <- Z.shiftr_div_pow2 in * by lia.
  rewrite Z.log2_shiftr by lia.
  assert (Z.log2 m >= n); [|lia].
  destruct (Z_lt_le_dec (Z.log2 m) n) as [H|H]; [|lia].
  rewrite Z.shiftr_eq_0 in Hpos; lia.
Qed.

(** *** Shifting a mantissa to the right *)

Lemma iter_pos_nat : forall (A : Type) (f : A -> A) n x,
  iter_pos f n x = Nat.iter (Pos.to_nat n) f x.
Proof.
  intros A f. induction n as [n IH|n IH|]; intros x; cbn [iter_pos].
  - rewrite !IH. rewrite Pos2Nat.inj_xI. rewrite Nat.iter_succ_r.
    rewrite <- Nat.iter_add. f_equal. lia.
  - rewrite !IH. rewrite Pos2Nat.inj_xO. rewrite <- Nat.iter_add. f_equal. lia.
  - reflexivity.
Qed.

Lemma shr_1_m : forall r, 0 <= shr_m r -> shr_m (shr_1 r) = shr_m r / 2.
Proof.
  intros [m r s] H. simpl in *. rewrite <- Z.div2_div.
  destruct m as [|[p|p|]|p]; simpl; try reflexivity; lia.
Qed.

Lemma shr_iter_m : forall n r, 0 <= shr_m r ->
  shr_m (Nat.iter n shr_1 r) = shr_m r / 2 ^ Z.of_nat n.
Proof.
  induction n as [|n IH]; intros r H.
  - simpl. now rewrite Z.div_1_r.
  - rewrite Nat.iter_succ. rewrite shr_1_m.
    + rewrite IH by exact H. rewrite Nat2Z.inj_succ, Z.pow_succ_r by lia.
      rewrite Z.div_div by (try apply Z.pow_pos_nonneg; lia).
      f_equal. lia.
    + rewrite IH by exact H. apply Z.div_pos; [exact H|].
      apply Z.pow_pos_nonneg; lia.
Qed.

Lemma shr_m_of_loc : forall m l, shr_m (shr_record_of_loc m l) = m.
Proof. intros m [|[| |]]; reflexivity. Qed.

Lemma shr_spec : forall r e n, 0 <= shr_m r ->
  shr_m (fst (shr r e n)) = shr_m r / 2 ^ Z.max n 0
  /\ snd (shr r e n) = e + Z.max n 0.
Proof.
  intros r e [|p|p] H; simpl.
  - rewrite Z.div_1_r. split; [reflexivity|lia].
  - rewrite iter_pos_nat, shr_iter_m by exact H.
    rewrite positive_nat_Z. split; [|lia].
    replace (Z.max (Z.pos p) 0) with (Z.pos p) by lia. reflexivity.
  - rewrite Z.div_1_r. split; [reflexivity|lia].
Qed.

Lemma shr_fexp_spec : forall m e l, 0 <= m ->
  let n := Z.max (fx (Zdigits2 m + e) - e) 0 in
  shr_m (fst (shr_fexp prec emax m e l)) = m / 2 ^ n
  /\ snd (shr_fexp prec emax m e l) = e + n.
Proof.
  intros m e l H n. unfold shr_fexp.
  pose proof (shr_spec (shr_record_of_loc m l) e
                (fexp prec emax (Zdigits2 m + e) - e)) as S.
  rewrite shr_m_of_loc in S. apply S. exact H.
Qed.

Lemma round_nearest_even_bounds : forall m l,
  m <= round_nearest_even m l <= m + 1.
Proof.
  intros m [|[| |]]; simpl; try lia. destruct (Z.even m); lia.
Qed.

(** The shape of a rounded result: the mantissa is shifted to the
    exponent of its last place, moved up by at most one, and shifted once
    more if the carry made it one digit longer. *)
Lemma binary_round_aux_shape : forall s mx ex lx, 0 <= mx ->
  let n1 := Z.max (fx (Zdigits2 mx + ex) - ex) 0 in
  exists m1,
    mx / 2 ^ n1 <= m1 <= mx / 2 ^ n1 + 1
    /\ let n2 := Z.max (fx (Zdigits2 m1 + (ex + n1)) - (ex + n1)) 0 in
       binary_round_aux prec emax s mx ex lx
       = match m1 / 2 ^ n2 with
         | Z0 => S754_zero s
         | Zpos m =>
             if ex + n1 + n2 <=? emax - prec
             then S754_finite s m (ex + n1 + n2) else S754_infinity s
         | Zneg _ => S754_nan
         end.
Proof.
  intros s mx ex lx Hmx n1. unfold binary_round_aux.
  destruct (shr_fexp_spec mx ex lx Hmx) as [M1 E1]. fold n1 in M1, E1.
  destruct (shr_fexp prec emax mx ex lx) as [mrs' e'] eqn:S1.
  simpl in M1, E1.
  set (m1 := round_nearest_even (shr_m mrs') (loc_of_shr_record mrs')).
  assert (B : mx / 2 ^ n1 <= m1 <= mx / 2 ^ n1 + 1).
  { rewrite <- M1. apply round_nearest_even_bounds. }
  exists m1. split; [exact B|].
  assert (H1 : 0 <= m1).
  { assert (0 <= mx / 2 ^ n1); [|lia].
    apply Z.div_pos; [exact Hmx|apply Z.pow_pos_nonneg; lia]. }
  destruct (shr_fexp_spec m1 e' loc_Exact H1) as [M2 E2].
  destruct (shr_fexp prec emax m1 e' loc_Exact) as [mrs'' e''] eqn:S2.
  simpl in M2, E2. subst e'. cbv zeta. rewrite M2, E2.
  rewrite Z.add_assoc. reflexivity.
Qed.

Lemma fx_mono : forall a b, a <= b -> fx a <= fx b.
Proof. intros a b H. rewrite !fx_eq. lia. Qed.

Lemma fx_ge_emin : forall a, -1074 <= fx a.
Proof. intros a. rewrite fx_eq. lia. Qed.

Lemma pow2_pos : forall n, 0 <= n -> 0 < 2 ^ n.
Proof. intros n H. apply Z.pow_pos_nonneg; lia. Qed.

(** A rounded result is a binary64 number when the exponent of the input
    is not above the exponent of its last place. *)
Lemma binary_round_aux_valid : forall s mx ex lx,
  0 <= mx -> ex <= fx (Zdigits2 mx + ex) ->
  valid_binary (binary_round_aux prec emax s mx ex lx) = true.
Proof.
  intros s mx ex lx Hmx Hex.
  destruct (binary_round_aux_shape s mx ex lx Hmx) as (m1 & B & E).
  cbv zeta in E. rewrite E. clear E.
  set (n1 := Z.max (fx (Zdigits2 mx + ex) - ex) 0) in *.
  set (g := ex + n1) in *.
  assert (Hg : g = fx (Zdigits2 mx + ex)) by (unfold g, n1; lia).
  assert (Hn1 : 0 <= n1) by (unfold n1; lia).
  assert (H0 : 0 <= mx / 2 ^ n1) by (apply Z.div_pos; [lia|now apply pow2_pos]).
  assert (Key : g <= fx (Zdigits2 m1 + g)).
  { destruct (Z.eq_dec (mx / 2 ^ n1) 0) as [Z0|NZ].
    - apply Z.div_small_iff in Z0; [|pose proof (pow2_pos n1 Hn1); lia].
      destruct Z0 as [Z0|Z0]; [|pose proof (pow2_pos n1 Hn1); lia].
      assert (Zdigits2 mx <= n1) by (apply Zdigits2_lt_pow2; lia).
      assert (g = -1074) by (rewrite fx_eq in Hg; unfold g in *; lia).
      pose proof (fx_ge_emin (Zdigits2 m1 + g)). lia.
    - assert (D : Zdigits2 (mx / 2 ^ n1) = Zdigits2 mx - n1)
        by (apply Zdigits2_div_pow2; lia).
      assert (Zdigits2 (mx / 2 ^ n1) <= Zdigits2 m1)
        by (apply Zdigits2_mono; lia).
      rewrite Hg at 1. apply fx_mono. unfold g. lia. }
  set (n2 := Z.max (fx (Zdigits2 m1 + g) - g) 0).
  assert (Hn2 : n2 = fx (Zdigits2 m1 + g) - g) by (unfold n2; lia).
  destruct (m1 / 2 ^ n2) as [|m|m] eqn:Em; try reflexivity.
  destruct (g + n2 <=? emax - prec) eqn:Le; [|reflexivity].
  simpl. unfold bounded. rewrite Le, andb_true_r.
  unfold canonical_mantissa. apply Z.eqb_eq.
  change (Z.pos (digits2_pos m)) with (Zdigits2 (Z.pos m)).
  rewrite <- Em. rewrite Zdigits2_div_pow2 by lia.
  change (fexp prec emax) with fx.
  replace (Zdigits2 m1 - n2 + (g + n2)) with (Zdigits2 m1 + g) by lia. lia.
Qed.

(** A rounded result stays below a bound that lies on the grid of the
    last place and strictly above the number that is rounded. *)
Lemma binary_round_aux_upto : forall mx ex lx K B,
  0 <= mx ->
  let n1 := Z.max (fx (Zdigits2 mx + ex) - ex) 0 in
  -1074 <= ex + n1 ->
  mx / 2 ^ n1 < K ->
  K * 2 ^ (ex + n1 + 1074) <= B ->
  B < 2 ^ 2045 ->
  SF_upto B (binary_round_aux prec emax false mx ex lx).
Proof.
  intros mx ex lx K B Hmx n1 Hg HK HB Hov.
  destruct (binary_round_aux_shape false mx ex lx Hmx) as (m1 & Bm & E).
  cbv zeta in E. rewrite E. clear E. fold n1 in Bm |- *.
  set (g := ex + n1) in *.
  set (n2 := Z.max (fx (Zdigits2 m1 + g) - g) 0).
  assert (Hn2 : 0 <= n2) by (unfold n2; lia).
  assert (Hn1 : 0 <= n1) by (unfold n1; lia).
  assert (H0 : 0 <= mx / 2 ^ n1) by (apply Z.div_pos; [lia|now apply pow2_pos]).
  assert (Hm2 : 2 ^ n2 * (m1 / 2 ^ n2) <= m1)
    by (apply Z.mul_div_le; now apply pow2_pos).
  assert (Hm2' : 0 <= m1 / 2 ^ n2)
    by (apply Z.div_pos; [lia|now apply pow2_pos]).
  destruct (m1 / 2 ^ n2) as [|m|m] eqn:Em; [exact I| |lia].
  assert (P1 : 0 < 2 ^ (g + 1074)) by (apply pow2_pos; lia).
  assert (P2 : 0 < 2 ^ n2) by (now apply pow2_pos).
  assert (V : Z.pos m * 2 ^ (g + n2 + 1074) <= B).
  { replace (g + n2 + 1074) with (n2 + (g + 1074)) by lia.
    rewrite Z.pow_add_r by lia. nia. }
  assert (Hlt : g + n2 + 1074 < 2045).
  { apply (Z.pow_lt_mono_r_iff 2); [lia|lia|]. nia. }
  destruct (g + n2 <=? emax - prec) eqn:Le.
  - simpl. split; [lia|exact V].
  - apply Z.leb_gt in Le. change (emax - prec) with 971 in Le. lia.
Qed.

Lemma binary_round_aux_nonneg : forall mx ex lx,
  0 <= mx -> SF_nonneg (binary_round_aux prec emax false mx ex lx).
Proof.
  intros mx ex lx Hmx.
  destruct (binary_round_aux_shape false mx ex lx Hmx) as (m1 & Bm & E).
  cbv zeta in E. rewrite E. clear E.
  set (n1 := Z.max (fx (Zdigits2 mx + ex) - ex) 0) in *.
  set (n2 := Z.max _ 0).
  assert (0 <= mx / 2 ^ n1)
    by (apply Z.div_pos; [lia|apply pow2_pos; unfold n1; lia]).
  assert (0 <= m1 / 2 ^ n2)
    by (apply Z.div_pos; [lia|apply pow2_pos; unfold n2; lia]).
  destruct (m1 / 2 ^ n2); [exact I| |lia].
  destruct (_ <=? _); exact I.
Qed.

(** *** The quotient of two positive integers *)

Lemma div_exp_range : forall m t, -1074 <= div_exp m t <= 0.
Proof.
  intros m t. unfold div_exp.
  pose proof (fx_ge_emin (Zdigits2 (Z.pos m) - Zdigits2 (Z.pos t))). lia.
Qed.

Lemma int_quotient_eq : forall m t,
  int_quotient m t
  = binary_round_aux prec emax false
      (Z.pos m * 2 ^ (- div_exp m t) / Z.pos t) (div_exp m t)
      (new_location (Z.pos t) ((Z.pos m * 2 ^ (- div_exp m t)) mod Z.pos t)).
Proof.
  intros m t. unfold int_quotient, SFdiv, SFdiv_core_binary.
  pose proof (div_exp_range m t) as R.
  set (e0 := IntDef.Z.min _ _).
  assert (He0 : e0 = div_exp m t).
  { unfold e0, div_exp. rewrite !Z.add_0_r. reflexivity. }
  clearbody e0. subst e0.
  set (s0 := IntDef.Z.sub _ (div_exp m t)).
  assert (Hs0 : s0 = - div_exp m t) by (unfold s0; lia).
  clearbody s0. subst s0.
  set (m' := match - div_exp m t with 0 => _ | Z.pos _ => _ | Z.neg _ => _ end).
  assert (E : m' = Z.pos m * 2 ^ (- div_exp m t)).
  { unfold m'. destruct (- div_exp m t) as [|p|p] eqn:S.
    - simpl. lia.
    - rewrite <- S. change IntDef.Z.shiftl with Z.shiftl.
      rewrite Z.shiftl_mul_pow2 by lia. reflexivity.
    - lia. }
  clearbody m'. subst m'.
  change IntDef.Z.div_eucl with Z.div_eucl. unfold Z.div, Z.modulo.
  destruct (Z.div_eucl (Z.pos m * 2 ^ (- div_exp m t)) (Z.pos t)) as [q r].
  reflexivity.
Qed.

(** The quotient has at least 53 digits unless its exponent is the
    smallest one. *)
Lemma int_quotient_exp_ok : forall m t,
  let e := div_exp m t in
  e <= fx (Zdigits2 (Z.pos m * 2 ^ (- e) / Z.pos t) + e).
Proof.
  intros m t e. pose proof (div_exp_range m t) as R. fold e in R.
  set (q := Z.pos m * 2 ^ (- e) / Z.pos t).
  destruct (Z.eq_dec e (-1074)) as [->|Hne].
  - apply fx_ge_emin.
  - set (d1 := Zdigits2 (Z.pos m)). set (d2 := Zdigits2 (Z.pos t)).
    assert (He : e <= d1 - d2 - 53).
    { unfold e, div_exp in *. fold d1 d2 in Hne |- *.
      rewrite fx_eq in *. lia. }
    assert (Hd1 : 0 < d1) by (unfold d1; simpl; lia).
    assert (Hd2 : 0 < d2) by (unfold d2; simpl; lia).
    assert (Hm : 2 ^ (d1 - 1) <= Z.pos m)
      by (apply Zdigits2_le_pow2; unfold d1; lia).
    assert (Ht : Z.pos t < 2 ^ d2)
      by (apply Zdigits2_lt_pow2; unfold d2; lia).
    assert (Hq : 2 ^ 52 <= q).
    { unfold q. apply Z.div_le_lower_bound; [lia|].
      assert (P : 2 ^ (d2 + 52) <= 2 ^ (d1 - 1 + - e))
        by (apply Z.pow_le_mono_r; lia).
      rewrite !Z.pow_add_r in P by lia.
      assert (0 < 2 ^ 52) by (now apply pow2_pos).
      assert (0 < 2 ^ (- e)) by (apply pow2_pos; lia).
      nia. }
    assert (52 < Zdigits2 q) by (apply Zdigits2_le_pow2; lia).
    rewrite fx_eq. lia.
Qed.

Lemma int_quotient_valid : forall m t, valid_binary (int_quotient m t) = true.
Proof.
  intros m t. rewrite int_quotient_eq.
  apply binary_round_aux_valid.
  - apply Z.div_pos; [|lia]. pose proof (div_exp_range m t).
    assert (0 < 2 ^ (- div_exp m t)) by (apply pow2_pos; lia). lia.
  - apply int_quotient_exp_ok.
Qed.

Lemma int_quotient_nonneg : forall m t, SF_nonneg (int_quotient m t).
Proof.
  intros m t. rewrite int_quotient_eq.
  apply binary_round_aux_nonneg.
  apply Z.div_pos; [|lia]. pose proof (div_exp_range m t).
  assert (0 < 2 ^ (- div_exp m t)) by (apply pow2_pos; lia). lia.
Qed.

(** Below 1: a smaller integer divided by a larger one. *)
Lemma int_quotient_upto_1 : forall m t,
  (m < t)%positive -> SF_upto (2 ^ 1074) (int_quotient m t).
Proof.
  intros m t Hlt. rewrite int_quotient_eq.
  set (l := new_location _ _).
  pose proof (div_exp_range m t) as R.
  set (e := div_exp m t) in *. set (s := - e).
  set (q := Z.pos m * 2 ^ s / Z.pos t).
  assert (Ps : 0 < 2 ^ s) by (apply pow2_pos; unfold s; lia).
  assert (Hq0 : 0 <= q) by (apply Z.div_pos; lia).
  assert (Hq : q < 2 ^ s).
  { unfold q. apply Z.div_lt_upper_bound; [lia|].
    assert (Z.pos m < Z.pos t) by lia. nia. }
  assert (Hd : Zdigits2 q <= s)
    by (apply Zdigits2_lt_pow2; [lia|unfold s; lia|exact Hq]).
  set (n1 := Z.max (fx (Zdigits2 q + e) - e) 0).
  assert (Hn1 : 0 <= n1 <= s).
  { unfold n1. pose proof (fx_mono (Zdigits2 q + e) 0).
    rewrite (fx_eq 0) in *. unfold s in *. lia. }
  apply (binary_round_aux_upto q e l (2 ^ (s - n1))).
  - exact Hq0.
  - fold n1. unfold s in *. lia.
  - fold n1. apply Z.div_lt_upper_bound; [apply pow2_pos; lia|].
    rewrite <- Z.pow_add_r by lia. replace (n1 + (s - n1)) with s by lia.
    exact Hq.
  - fold n1. rewrite <- Z.pow_add_r by (unfold s in *; lia).
    replace (s - n1 + (e + n1 + 1074)) with 1074 by (unfold s; lia). lia.
  - apply Z.pow_lt_mono_r; lia.
Qed.

(** *** The number 1 *)

Lemma SF_upto_1_cases : forall f,
  valid_binary f = true -> SF_upto (2 ^ 1074) f ->
  f = SF_one \/ SF_below_1 f.
Proof.
  intros [[|]| | |[|] m e] V U; unfold SF_upto in U; try contradiction.
  - right. exact I.
  - destruct U as [He U].
    assert (P : 0 < 2 ^ (e + 1074)) by (apply pow2_pos; lia).
    destruct (Z_lt_le_dec e 0) as [Hneg|Hpos].
    + assert (S : 2 ^ 1074 = 2 ^ (- e) * 2 ^ (e + 1074)).
      { rewrite <- Z.pow_add_r by lia. f_equal. lia. }
      assert (Q : 0 < 2 ^ (- e)) by (apply pow2_pos; lia).
      destruct (Z_lt_le_dec (Z.pos m) (2 ^ (- e))) as [Hlt|Hge].
      * right. unfold SF_below_1. lia.
      * left. assert (Hm : Z.pos m = 2 ^ (- e)) by nia.
        simpl in V. unfold bounded, canonical_mantissa in V.
        apply andb_true_iff in V. destruct V as [V _].
        apply Z.eqb_eq in V.
        change (Z.pos (digits2_pos m)) with (Zdigits2 (Z.pos m)) in V.
        change (fexp prec emax) with fx in V.
        rewrite Zdigits2_log2 in V by lia. rewrite Hm in V.
        rewrite Z.log2_pow2 in V by lia.
        rewrite fx_eq in V.
        assert (e = -52) by lia. subst e.
        unfold SF_one. f_equal. change (2 ^ (- -52)) with 4503599627370496 in Hm.
        lia.
    + exfalso.
      assert (2 ^ 1074 <= 2 ^ (e + 1074)) by (apply Z.pow_le_mono_r; lia).
      assert (E1 : Z.pos m = 1) by nia.
      assert (E2 : 2 ^ (e + 1074) = 2 ^ 1074) by nia.
      apply Z.pow_inj_r in E2; try lia.
      assert (e = 0) by lia. subst e.
      simpl in V. unfold bounded, canonical_mantissa in V.
      apply andb_true_iff in V. destruct V as [V _].
      apply Z.eqb_eq in V. injection E1 as ->. vm_compute in V. discriminate.
Qed.

(** *** The product with 100 *)

Lemma Prim2SF_100 : Prim2SF 100 = SF_100.
Proof. vm_compute. reflexivity. Qed.

Lemma mul_100_upto : forall f,
  SF_below_1 f -> SF_upto (100 * 2 ^ 1074) (SFmul prec emax f SF_100).
Proof.
  intros [[|]| | |[|] mq eq] H; unfold SF_below_1 in H; try contradiction.
  - exact I.
  - destruct H as [He Hm]. unfold SF_100, SFmul. simpl xorb.
    set (mx := Z.pos (mq * 7036874417766400)). set (ex := eq + -46).
    assert (Emx : mx = Z.pos mq * (25 * 2 ^ 48)) by (unfold mx; lia).
    assert (Q : 0 < 2 ^ (- eq)) by (apply pow2_pos; lia).
    assert (Hlt : mx < 25 * 2 ^ (2 - ex)).
    { replace (2 - ex) with (48 + - eq) by (unfold ex; lia).
      rewrite Z.pow_add_r by lia. rewrite Emx.
      assert (0 < 2 ^ 48) by (now apply pow2_pos). nia. }
    assert (Hd : Zdigits2 mx + ex <= 7).
    { assert (Zdigits2 mx <= 7 - ex); [|lia].
      apply Zdigits2_lt_pow2; [lia|unfold ex; lia|].
      replace (7 - ex) with (5 + (2 - ex)) by lia.
      rewrite Z.pow_add_r by (unfold ex; lia).
      assert (0 < 2 ^ (2 - ex)) by (apply pow2_pos; unfold ex; lia).
      change (2 ^ 5) with 32. lia. }
    set (n1 := Z.max (fx (Zdigits2 mx + ex) - ex) 0).
    assert (Hg : -1074 <= ex + n1 <= 2).
    { pose proof (fx_ge_emin (Zdigits2 mx + ex)).
      pose proof (fx_mono _ _ Hd) as M. rewrite (fx_eq 7) in M.
      unfold n1, ex in *. lia. }
    apply (binary_round_aux_upto mx ex loc_Exact (25 * 2 ^ (2 - (ex + n1)))).
    + lia.
    + fold n1. lia.
    + fold n1. apply Z.div_lt_upper_bound; [apply pow2_pos; unfold n1; lia|].
      replace (2 ^ n1 * (25 * 2 ^ (2 - (ex + n1))))
        with (25 * (2 ^ n1 * 2 ^ (2 - (ex + n1)))) by ring.
      rewrite <- Z.pow_add_r by (unfold n1; lia).
      replace (n1 + (2 - (ex + n1))) with (2 - ex) by lia. exact Hlt.
    + fold n1. rewrite <- Z.mul_assoc, <- Z.pow_add_r by lia.
      replace (2 - (ex + n1) + (ex + n1 + 1074)) with (2 + 1074) by lia.
      rewrite Z.pow_add_r by lia. change (2 ^ 2) with 4. lia.
    + vm_compute. reflexivity.
Qed.

Lemma mul_100_nonneg : forall f,
  SF_nonneg f -> SF_nonneg (SFmul prec emax f SF_100).
Proof.
  intros [[|]|[|]| |[|] m e] H; simpl in H; try contradiction;
    try exact I.
  unfold SF_100, SFmul. simpl xorb. apply binary_round_aux_nonneg. lia.
Qed.

Lemma int_quotient_same : forall t, int_quotient t t = SF_one.
Proof.
  intros t. rewrite int_quotient_eq.
  assert (E : div_exp t t = -53).
  { unfold div_exp. rewrite Z.sub_diag. reflexivity. }
  rewrite E. change (- -53) with 53.
  rewrite (Z.mul_comm (Z.pos t)), Z.div_mul, Z.mod_mul by lia.
  assert (L : new_location (Z.pos t) 0 = loc_Exact).
  { unfold new_location. destruct (Z.even (Z.pos t)); reflexivity. }
  rewrite L. vm_compute. reflexivity.
Qed.

(** *** Rounding to one decimal *)

Lemma round_half_even_le : forall n d K,
  0 < d -> n <= K * d -> round_half_even n d <= K.
Proof.
  intros n d K Hd H. unfold round_half_even.
  pose proof (Z.div_mod n d ltac:(lia)) as DM.
  pose proof (Z.mod_pos_bound n d Hd) as MB.
  assert (Q : n / d <= K) by (apply Z.div_le_upper_bound; lia).
  destruct (Z.eq_dec (n / d) K) as [E|NE].
  - assert (R0 : n mod d = 0) by nia. rewrite R0.
    replace (2 * 0 ?= d) with Lt by (symmetry; apply Z.compare_lt_iff; lia).
    lia.
  - destruct (2 * (n mod d) ?= d); [destruct (Z.even (n / d))| |]; lia.
Qed.

Lemma round_half_even_nonneg : forall n d,
  0 <= n -> 0 < d -> 0 <= round_half_even n d.
Proof.
  intros n d Hn Hd. unfold round_half_even.
  assert (0 <= n / d) by (apply Z.div_pos; lia).
  destruct (2 * (n mod d) ?= d); [destruct (Z.even (n / d))| |]; lia.
Qed.

Lemma tenths_in_range : forallb tenth_in_range (seq 1 1000) = true.
Proof. vm_compute. reflexivity. Qed.

Lemma tenth_range : forall k, Z.pos k <= 1000 ->
  (0 <=? tenth k)%float = true /\ (tenth k <=? 100)%float = true.
Proof.
  intros k Hk. pose proof tenths_in_range as T.
  rewrite forallb_forall in T.
  specialize (T (Pos.to_nat k)). unfold tenth_in_range in T.
  rewrite Pos2Nat.id in T. apply andb_true_iff. apply T.
  apply in_seq. lia.
Qed.

Lemma float_of_SF : forall p f, Prim2SF p = f -> p = SF2Prim f.
Proof. intros p f <-. symmetry. apply SF2Prim_Prim2SF. Qed.

Lemma round1_upto : forall p,
  SF_upto (100 * 2 ^ 1074) (Prim2SF p) ->
  (0 <=? round1 p)%float = true /\ (round1 p <=? 100)%float = true.
Proof.
  intros p U. unfold round1.
  destruct (Prim2SF p) as [[|]| | |[|] m e] eqn:E;
    unfold SF_upto in U; try contradiction.
  - rewrite (float_of_SF _ _ E). split; reflexivity.
  - destruct U as [He U].
    set (k := if 0 <=? e then 10 * Z.pos m * 2 ^ e
              else round_half_even (10 * Z.pos m) (2 ^ (- e))).
    assert (Hk : 0 <= k <= 1000).
    { unfold k. destruct (Z.leb_spec 0 e) as [Hpos|Hneg].
      - rewrite Z.pow_add_r in U by lia.
        assert (0 < 2 ^ 1074) by (now apply pow2_pos).
        assert (0 < 2 ^ e) by (now apply pow2_pos). nia.
      - assert (Q : 0 < 2 ^ (- e)) by (apply pow2_pos; lia).
        assert (P : 0 < 2 ^ (e + 1074)) by (apply pow2_pos; lia).
        assert (S : 2 ^ 1074 = 2 ^ (- e) * 2 ^ (e + 1074)).
        { rewrite <- Z.pow_add_r by lia. f_equal. lia. }
        split.
        + apply round_half_even_nonneg; lia.
        + apply round_half_even_le; [lia|]. rewrite S in U. nia. }
    destruct k as [|pk|pk]; [split; reflexivity| |lia].
    apply (tenth_range pk). lia.
Qed.

Lemma leb_0_nonneg : forall f,
  valid_binary f = true -> SF_nonneg f -> (0 <=? SF2Prim f)%float = true.
Proof.
  intros f V N. rewrite leb_spec, (Prim2SF_SF2Prim _ V).
  destruct f as [[|]|[|]| |[|] m e]; simpl in N; try contradiction;
    reflexivity.
Qed.

Lemma round1_nonneg : forall p,
  SF_nonneg (Prim2SF p) -> (0 <=? round1 p)%float = true.
Proof.
  intros p N. unfold round1.
  destruct (Prim2SF p) as [[|]|[|]| |[|] m e] eqn:E;
    simpl in N; try contradiction.
  - rewrite (float_of_SF _ _ E). reflexivity.
  - rewrite (float_of_SF _ _ E). reflexivity.
  - destruct (if 0 <=? e then _ else _) as [|pk|pk]; try reflexivity.
    apply leb_0_nonneg.
    + apply (int_quotient_valid pk 10).
    + apply (int_quotient_nonneg pk 10).
Qed.

(** *** The percentage *)

Lemma nearest_quotient_pos : forall m t,
  nearest_quotient (Z.pos m) (Z.pos t) = SF2Prim (int_quotient m t).
Proof. reflexivity. Qed.

Lemma Prim2SF_times_100 : forall m t,
  Prim2SF (nearest_quotient (Z.pos m) (Z.pos t) * 100)
  = SFmul prec emax (int_quotient m t) SF_100.
Proof.
  intros m t. rewrite mul_spec, nearest_quotient_pos.
  rewrite (Prim2SF_SF2Prim _ (int_quotient_valid m t)), Prim2SF_100.
  reflexivity.
Qed.

Theorem percentage_nonneg : forall m t,
  (0 <=? round1 (nearest_quotient (Z.pos m) (Z.pos t) * 100))%float = true.
Proof.
  intros m t. apply round1_nonneg. rewrite Prim2SF_times_100.
  apply mul_100_nonneg, int_quotient_nonneg.
Qed.

Theorem percentage_le_100 : forall m t, (m <= t)%positive ->
  (round1 (nearest_quotient (Z.pos m) (Z.pos t) * 100) <=? 100)%float = true.
Proof.
  intros m t H.
  assert (C : int_quotient m t = SF_one \/ SF_below_1 (int_quotient m t)).
  { destruct (Pos.eq_dec m t) as [->|Hne].
    - left. apply int_quotient_same.
    - apply SF_upto_1_cases; [apply int_quotient_valid|].
      apply int_quotient_upto_1. lia. }
  destruct C as [C|C].
  - rewrite nearest_quotient_pos, C. vm_compute. reflexivity.
  - apply round1_upto. rewrite Prim2SF_times_100. now apply mul_100_upto.
Qed.

(** The percentage of a positive score: never negative, and at most 100
    when the score is at most the total. *)
Lemma percentage_float_bounds : forall score total : nat,
  (0 < score)%nat -> (0 < total)%nat ->
  (0 <=? round1 (nearest_quotient (Z.of_nat score) (Z.of_nat total) * 100))%float
  = true
  /\ ((score <= total)%nat ->
      (round1 (nearest_quotient (Z.of_nat score) (Z.of_nat total) * 100)
       <=? 100)%float = true).
Proof.
  intros [|m] [|t] Hm Ht; try lia. split.
  - apply (percentage_nonneg (Pos.of_succ_nat m) (Pos.of_succ_nat t)).
  - intros H. apply (percentage_le_100 (Pos.of_succ_nat m) (Pos.of_succ_nat t)).
    lia.
Qed.

End Binary64Rounding.

(** ** Bounds on the score *)

Lemma filter_none : forall (A : Type) (f : A -> bool) (l : list A),
  (forall x, In x l -> f x = false) -> filter f l = [].
Proof.
  intros A f l. induction l as [|x xs IH]; intros H; simpl.
  - reflexivity.
  - rewrite (H x (or_introl eq_refl)). apply IH.
    intros y Hy. apply H. now right.
Qed.

Lemma same_name_at_most_once : forall x theirs,
  distinct_names theirs -> List.length (filter (same_name x) theirs) <= 1.
Proof.
  intros x theirs. unfold distinct_names.
  induction theirs as [|y ys IH]; intros N; simpl.
  - lia.
  - inversion N as [|? ? Hnotin N']; subst.
    destruct (same_name x y) eqn:E; [|now apply IH].
    rewrite filter_none; [simpl; lia|].
    intros z Hz. destruct (same_name x z) eqn:Ez; [|reflexivity].
    exfalso. apply Hnotin. unfold same_name in E, Ez.
    apply String.eqb_eq in E. apply String.eqb_eq in Ez.
    rewrite <- E, Ez.
    apply (in_map (fun s => lower (Skill.skill_name s))). exact Hz.
Qed.

Lemma equal_pairs_le_mine : forall mine theirs,
  distinct_names theirs ->
  List.length (equal_pairs mine theirs) <= List.length mine.
Proof.
  intros mine theirs N. induction mine as [|x xs IH].
  - reflexivity.
  - rewrite equal_pairs_cons. simpl.
    pose proof (same_name_at_most_once x theirs N). lia.
Qed.

Lemma equal_pairs_le_prod : forall mine theirs,
  List.length (equal_pairs mine theirs)
  <= List.length mine * List.length theirs.
Proof.
  intros mine theirs. unfold equal_pairs. rewrite <- length_prod.
  apply filter_length_le.
Qed.

(** C5 (as amended).  Every row the engine creates has a match_percentage
    of at least 0.  The percentage is at most 100 whenever neither list of
    the candidate holds two entries with equal lower-cased names: then
    matchScore is at most totalPossible.  In general matchScore is
    positive and at most the number of (want, offer) and (offer, want)
    combinations, so that duplicates on the side of the candidate lift the
    percentage above 100. *)
Theorem percentage_bounds : forall user_id d,
  exists d',
    find_matches_for_user user_id d = Return d'
    /\ forall m, In m (created d d') ->
         let l := score_for d user_id (Match.user2_id m) in
         let user_wants := Skill_query_filter_by d user_id "want" in
         let user_offers := Skill_query_filter_by d user_id "offer" in
         let other_offers :=
           Skill_query_filter_by d (Match.user2_id m) "offer" in
         let other_wants :=
           Skill_query_filter_by d (Match.user2_id m) "want" in
         percentage_as_coded (match_score l) (total_possible l)
         = Return (Match.match_percentage m)
         /\ (0 <=? Match.match_percentage m)%float = true
         /\ 0 < match_score l
         /\ total_possible l = List.length user_wants + List.length user_offers
         /\ match_score l
            <= List.length user_wants * List.length other_offers
               + List.length user_offers * List.length other_wants
         /\ (distinct_names other_offers -> distinct_names other_wants ->
             match_score l <= total_possible l
             /\ (Match.match_percentage m <=? 100)%float = true).
Proof.
  intros uid d. created_rows uid d new E Hm. intros m Hin.
  destruct (Hm m Hin) as (o & _ & _ & Hpos & Htot & ->).
  cbv zeta. unfold row_of. cbn [Match.match_percentage Match.user2_id].
  destruct (percentage_float_bounds _ _ Hpos Htot) as [F0 F100].
  split.
  { unfold percentage_as_coded. rewrite (truediv_pos _ _ Htot). reflexivity. }
  split; [exact F0|]. split; [exact Hpos|].
  revert F100. unfold score_for.
  rewrite score_match_score, score_total_possible. intros F100.
  split; [reflexivity|]. split.
  - pose proof (equal_pairs_le_prod (Skill_query_filter_by d uid "want")
                  (Skill_query_filter_by d (User.id o) "offer")).
    pose proof (equal_pairs_le_prod (Skill_query_filter_by d uid "offer")
                  (Skill_query_filter_by d (User.id o) "want")).
    lia.
  - intros No Nw.
    pose proof (equal_pairs_le_mine (Skill_query_filter_by d uid "want") _ No).
    pose proof (equal_pairs_le_mine (Skill_query_filter_by d uid "offer") _ Nw).
    assert (L : List.length
                  (equal_pairs (Skill_query_filter_by d uid "want")
                     (Skill_query_filter_by d (User.id o) "offer"))
                + List.length
                    (equal_pairs (Skill_query_filter_by d uid "offer")
                       (Skill_query_filter_by d (User.id o) "want"))
                <= List.length (Skill_query_filter_by d uid "want")
                   + List.length (Skill_query_filter_by d uid "offer"))
      by lia.
    split; [exact L|]. exact (F100 L).
Qed.

Lemma percentage_bounds_witness :
  exists d',
    find_matches_for_user 1 db_two_wants = Return d'
    /\ forall m, In m (created db_two_wants d') ->
         (0 <=? Match.match_percentage m)%float = true
         /\ (Match.match_percentage m <=? 100)%float = true.
Proof.
  destruct (percentage_bounds 1 db_two_wants) as (d' & E & H).
  exists d'. split; [exact E|]. intros m Hin.
  assert (U : Match.user2_id m = 2%Z).
  { pose proof E as E'. vm_compute in E'. apply Return_inj in E'.
    rewrite <- E' in Hin. vm_compute in Hin.
    destruct Hin as [<-|[]]. reflexivity. }
  destruct (H m Hin) as (_ & F0 & _ & _ & _ & B). rewrite U in B.
  split; [exact F0|].
  apply B; vm_compute; repeat constructor; simpl; intuition discriminate.
Defined.

(** C5, the claim as stated, fails: one want against two offers of the
    same name scores 2 out of 1, and the row stores 200.0. *)
Lemma percentage_above_100 :
  exists d' m,
    find_matches_for_user 1 db_two_offers = Return d'
    /\ created db_two_offers d' = [m]
    /\ match_score (score_for db_two_offers 1 2) = 2
    /\ total_possible (score_for db_two_offers 1 2) = 1
    /\ Match.match_percentage m = 200%float
    /\ PrimFloat.leb (Match.match_percentage m) 100 = false.
Proof.
  do 2 eexists. split; [vm_compute; reflexivity|].
  split; [vm_compute; reflexivity|].
  repeat split; vm_compute; reflexivity.
Qed.

(** ** The double-swap flag *)

(** C6.  For every row the engine creates, is_double_swap is true exactly
    when an offered skill of the triggering user has the lower-cased name
    of a wanted skill of the candidate; the loop over the wants of the
    triggering user leaves the flag as it finds it. *)
Theorem double_swap_flag : forall user_id d,
  exists d',
    find_matches_for_user user_id d = Return d'
    /\ (forall m, In m (created d d') ->
          (Match.is_double_swap m = true <->
           exists my_offer their_want,
             In my_offer (Skill_query_filter_by d user_id "offer")
             /\ In their_want
                  (Skill_query_filter_by d (Match.user2_id m) "want")
             /\ same_name my_offer their_want = true))
    /\ (forall other_offers user_wants l,
          is_double (fold_left (want_outer other_offers) user_wants l)
          = is_double l).
Proof.
  intros uid d. created_rows uid d new E Hm.
  split; [|intros; apply want_outer_flag]. intros m Hin.
  destruct (Hm m Hin) as (o & _ & _ & _ & _ & ->).
  unfold row_of. cbn [Match.is_double_swap Match.user2_id].
  unfold score_for. rewrite score_is_double, existsb_exists. split.
  - intros (x & Hx & Hex). apply existsb_exists in Hex.
    destruct Hex as (w & Hw & Hs). now exists x, w.
  - intros (x & w & Hx & Hw & Hs). exists x. split; [exact Hx|].
    apply existsb_exists. now exists w.
Qed.

Lemma double_swap_flag_witness :
  exists d' m,
    find_matches_for_user 2 db_guitar = Return d'
    /\ created db_guitar d' = [m]
    /\ Match.is_double_swap m = true.
Proof.
  destruct (double_swap_flag 2 db_guitar) as (d' & E & H & _).
  pose proof E as E'. vm_compute in E'. apply Return_inj in E'.
  exists d'. eexists. split; [exact E|].
  split; [rewrite <- E'; vm_compute; reflexivity|].
  apply H.
  - rewrite <- E'. vm_compute. now left.
  - exists (skill 2 2 "guitar" "offer"), (skill 1 1 "Guitar" "want").
    vm_compute. repeat split; now left.
Defined.

(** ** Candidates that are skipped *)

Lemma no_overlap_no_score : forall d a b,
  ~ overlap d a b -> match_score (score_for d a b) = 0.
Proof.
  intros d a b H. unfold score_for. rewrite score_match_score.
  rewrite (equal_pairs_swap (Skill_query_filter_by d a "offer")).
  unfold overlap in H.
  destruct (equal_pairs (Skill_query_filter_by d a "want")
                        (Skill_query_filter_by d b "offer")) eqn:E1;
    [|exfalso; apply H; left; discriminate].
  destruct (equal_pairs (Skill_query_filter_by d b "want")
                        (Skill_query_filter_by d a "offer")) eqn:E2;
    [|exfalso; apply H; right; discriminate].
  reflexivity.
Qed.

(** C7.  A candidate whose score is 0, or for whom the total is 0, or who
    has no overlap with the triggering user, is skipped: the invocation
    creates no row for it and leaves every row that was there as it was. *)
Theorem no_score_no_row : forall user_id other_id d,
  match_score (score_for d user_id other_id) = 0
  \/ total_possible (score_for d user_id other_id) = 0
  \/ ~ overlap d user_id other_id ->
  exists d',
    find_matches_for_user user_id d = Return d'
    /\ firstn (List.length (matches d)) (matches d') = matches d
    /\ (forall m, In m (created d d') -> Match.user2_id m <> other_id)
    /\ pair_count d' user_id other_id = pair_count d user_id other_id.
Proof.
  intros uid oid d H.
  assert (Z : match_score (score_for d uid oid) = 0
              \/ total_possible (score_for d uid oid) = 0).
  { destruct H as [H|[H|H]]; [now left|now right|left].
    now apply no_overlap_no_score. }
  clear H.
  destruct (find_matches_spec uid d) as (new & E & Hm & _).
  rewrite Forall_forall in Hm.
  assert (N : forall m, In m new -> Match.user2_id m <> oid).
  { intros m Hin Hid. destruct (Hm m Hin) as (o & _ & _ & Hpos & Htot & ->).
    unfold row_of in Hid. simpl in Hid. subst oid. lia. }
  exists (extend d new). split; [exact E|]. split; [|split].
  - simpl. rewrite firstn_app, firstn_all, Nat.sub_diag. simpl.
    apply app_nil_r.
  - rewrite created_extend. exact N.
  - rewrite pair_count_extend. rewrite filter_none; [simpl; lia|].
    intros m Hin. pose proof (N m Hin) as Hn.
    destruct (Hm m Hin) as (o & _ & Hne & _ & _ & ->).
    unfold row_of in *. simpl in Hn. unfold joins. simpl.
    apply orb_false_iff. split; apply andb_false_iff.
    + right. now apply Z.eqb_neq.
    + right. now apply Z.eqb_neq.
Qed.

Lemma no_score_no_row_witness :
  exists d',
    find_matches_for_user 2 db_three = Return d'
    /\ firstn (List.length (matches db_three)) (matches d')
       = matches db_three
    /\ (forall m, In m (created db_three d') -> Match.user2_id m <> 3%Z)
    /\ pair_count d' 2 3 = pair_count db_three 2 3.
Proof.
  apply (no_score_no_row 2 3 db_three). left. reflexivity.
Defined.

(** ** Unknown users *)

(** C8.  When the identity of the triggering user is not in the user
    table the engine returns normally and the state it returns is the
    state it was given: no row is inserted, changed or removed. *)
Theorem unknown_user_noop : forall user_id d,
  User_query_get d user_id = None ->
  find_matches_for_user user_id d = Return d.
Proof.
  intros uid d H. unfold find_matches_for_user. now rewrite H.
Qed.

Lemma unknown_user_noop_witness :
  User_query_get db_three 7 = None
  /\ find_matches_for_user 7 db_three = Return db_three.
Proof.
  split; [reflexivity|]. apply unknown_user_noop. reflexivity.
Defined.

(** ** A triggering user without entries *)

(** C9 (as amended).  For a triggering user whose wanted list and offered
    list are both empty the score and the total are 0 for every candidate,
    every candidate is skipped and the state is returned as it was.  The route
    that adds a skill invokes the engine only after it stored an offer of
    the triggering user, and there the total is at least 1 for every
    candidate. *)
Theorem empty_lists_skip_everyone :
  (forall user_id d,
     Skill_query_filter_by d user_id "want" = [] ->
     Skill_query_filter_by d user_id "offer" = [] ->
     (forall other_id,
        match_score (score_for d user_id other_id) = 0
        /\ total_possible (score_for d user_id other_id) = 0)
     /\ find_matches_for_user user_id d = Return d)
  /\ (forall u n p e d,
        add_skill u n "offer" p e d
        = find_matches_for_user u (with_offer u n p e d)
        /\ forall other_id,
             1 <= total_possible (score_for (with_offer u n p e d) u other_id)).
Proof.
  split.
  - intros uid d Hw Ho.
    assert (T : forall oid, total_possible (score_for d uid oid) = 0).
    { intros oid. unfold score_for. rewrite score_total_possible, Hw, Ho.
      reflexivity. }
    split.
    { intros oid. split; [|apply T].
      unfold score_for. rewrite score_match_score, Hw, Ho. reflexivity. }
    destruct (find_matches_spec uid d) as (new & E & Hm & _).
    destruct new as [|m new]; [now rewrite extend_nil in E|].
    exfalso. inversion Hm as [|? ? (o & _ & _ & _ & Htot & _) _]; subst.
    rewrite T in Htot. lia.
  - intros u n p e d. split; [reflexivity|].
    intros oid. unfold score_for. rewrite score_total_possible.
    unfold Skill_query_filter_by at 2, with_offer. simpl.
    rewrite filter_app, length_app. simpl. rewrite Z.eqb_refl. simpl. lia.
Qed.

Lemma empty_lists_skip_everyone_witness :
  (forall other_id,
     match_score (score_for db_newcomer 1 other_id) = 0
     /\ total_possible (score_for db_newcomer 1 other_id) = 0)
  /\ find_matches_for_user 1 db_newcomer = Return db_newcomer.
Proof.
  apply (proj1 empty_lists_skip_everyone 1%Z db_newcomer); reflexivity.
Defined.

(** C9, the claim as stated, fails: user 1 has neither wants nor offers,
    the only candidate has total 0 and is skipped, and nothing is
    created. *)
Lemma empty_lists_all_skipped :
  Skill_query_filter_by db_newcomer 1 "want" = []
  /\ Skill_query_filter_by db_newcomer 1 "offer" = []
  /\ User_query_get db_newcomer 1 = Some (user 1 "ana")
  /\ User_query_others db_newcomer 1 = [user 2 "ben"]
  /\ (forall o, In o (User_query_others db_newcomer 1) ->
        total_possible (score_for db_newcomer 1 (User.id o)) = 0
        /\ visit 1 [] [] o db_newcomer = Return db_newcomer)
  /\ find_matches_for_user 1 db_newcomer = Return db_newcomer.
Proof.
  do 4 (split; [reflexivity|]). split; [|reflexivity].
  intros o [<-|[]]. split; reflexivity.
Qed.

(** ** The two ends of a row *)

(** C10.  Every row the engine creates has the triggering user as user1
    and a candidate, a user other than the triggering one, as user2; and
    in every reachable state no row has user1_id equal to user2_id. *)
Theorem row_ends :
  (forall user_id d,
     exists d',
       find_matches_for_user user_id d = Return d'
       /\ forall m, In m (created d d') ->
            Match.user1_id m = user_id
            /\ (exists other,
                  In other (User_query_others d user_id)
                  /\ Match.user2_id m = User.id other)
            /\ Match.user1_id m <> Match.user2_id m)
  /\ (forall d, reachable d ->
        forall m, In m (matches d) -> Match.user1_id m <> Match.user2_id m).
Proof.
  split.
  - intros uid d. created_rows uid d new E Hm. intros m Hin.
    destruct (Hm m Hin) as (o & Ho & Hne & _ & _ & ->).
    unfold row_of. simpl. repeat split.
    + exists o. split; [|reflexivity]. apply others_In. now split.
    + congruence.
  - intros d R. induction R as [d H0|d r d' R IH H]; intros m Hin.
    + rewrite H0 in Hin. destruct Hin.
    + destruct (handle_spec r d) as (d1 & new & E & _ & M & D & _).
      rewrite H in E. apply Return_inj in E. subst d1.
      rewrite M in Hin. apply in_app_or in Hin. destruct Hin as [Hin|Hin].
      * now apply IH.
      * rewrite Forall_forall in D. now apply D.
Qed.

Lemma row_ends_witness :
  reachable db_guitar_served
  /\ matches db_guitar_served <> []
  /\ forall m, In m (matches db_guitar_served) ->
       Match.user1_id m <> Match.user2_id m.
Proof.
  split; [exact db_guitar_served_reachable|].
  split; [vm_compute; discriminate|].
  exact (proj2 row_ends db_guitar_served db_guitar_served_reachable).
Defined.

(** * Further properties *)

(** ** The routes that change the skill table *)

Lemma next_skill_id_above : forall d s,
  In s (skills d) -> (Skill.id s < next_skill_id d)%Z.
Proof.
  intros d s. unfold next_skill_id.
  induction (skills d) as [|x xs IH]; simpl; intros H.
  - destruct H.
  - destruct H as [->|H]; [lia|]. specialize (IH H). lia.
Qed.




Lemma filter_some_length : forall (A : Type) (f : A -> bool) (l : list A) x,
  In x l -> f x = true -> 0 < List.length (filter f l).
Proof.
  intros A f l x Hin Hf. induction l as [|y ys IH]; [destruct Hin|].
  simpl. destruct Hin as [->|Hin].
  - rewrite Hf. simpl. lia.
  - destruct (f y); simpl; [lia|now apply IH].
Qed.

Lemma equal_pairs_some : forall mine theirs x y,
  In x mine -> In y theirs -> same_name x y = true ->
  0 < List.length (equal_pairs mine theirs).
Proof.
  intros mine theirs x y Hx Hy Hs. unfold equal_pairs.
  apply (filter_some_length _ _ _ (x, y)); [|exact Hs].
  now apply in_prod.
Qed.

Lemma filter_by_with_offer : forall u n p e d v t,
  Skill_query_filter_by (with_offer u n p e d) v t
  = Skill_query_filter_by d v t
    ++ (if (u =? v)%Z && String.eqb "offer" t
        then [new_skill u n "offer" p e d] else []).
Proof.
  intros. unfold Skill_query_filter_by, with_offer. simpl.
  rewrite filter_app. reflexivity.
Qed.

(** X2.  When a user of the table stores an offer whose lower-cased name
    is the one of a want of another user, the two are matched as soon as
    [add_skill] returns: a row joins them, and it is the only one if the
    pair had at most one row before. *)
Theorem offer_meets_want : forall u n p e d uu ub w,
  In uu (users d) -> User.id uu = u ->
  In ub (users d) -> User.id ub <> u ->
  In w (Skill_query_filter_by d (User.id ub) "want") ->
  lower (Skill.skill_name w) = lower n ->
  exists d',
    add_skill u n "offer" p e d = Return d'
    /\ 1 <= pair_count d' u (User.id ub)
    /\ (pair_count d u (User.id ub) <= 1 ->
        pair_count d' u (User.id ub) = 1).
Proof.
  intros u n p e d uu ub w Huu Eu Hub Hne Hw Hl.
  change (add_skill u n "offer" p e d)
    with (find_matches_for_user u (with_offer u n p e d)).
  destruct (find_matches_spec u (with_offer u n p e d))
    as (new & E & _ & Hle & _ & Hge).
  exists (extend (with_offer u n p e d) new). split; [exact E|].
  assert (G : User_query_get (with_offer u n p e d) u <> None).
  { rewrite <- Eu. now apply (User_query_get_some d uu). }
  assert (P : 0 < match_score (score_for (with_offer u n p e d) u (User.id ub))).
  { unfold score_for. rewrite score_match_score.
    assert (0 < List.length
                  (equal_pairs
                     (Skill_query_filter_by (with_offer u n p e d) u "offer")
                     (Skill_query_filter_by (with_offer u n p e d)
                        (User.id ub) "want"))); [|lia].
    apply (equal_pairs_some _ _ (new_skill u n "offer" p e d) w).
    - rewrite filter_by_with_offer, Z.eqb_refl. simpl.
      apply in_or_app. right. now left.
    - rewrite filter_by_with_offer. apply in_or_app. now left.
    - unfold same_name. simpl. rewrite Hl. apply String.eqb_refl. }
  specialize (Hge G ub Hub Hne P). specialize (Hle u (User.id ub)).
  split; [exact Hge|]. intros H1.
  change (pair_count (with_offer u n p e d) u (User.id ub))
    with (pair_count d u (User.id ub)) in Hle. lia.
Qed.

Lemma offer_meets_want_witness :
  exists d',
    add_skill 2 "GUITAR" "offer" "" "" db_guitar = Return d'
    /\ 1 <= pair_count d' 2 1
    /\ (pair_count db_guitar 2 1 <= 1 -> pair_count d' 2 1 = 1).
Proof.
  apply (offer_meets_want 2 "GUITAR" "" "" db_guitar
           (user 2 "ben") (user 1 "ana") (skill 1 1 "Guitar" "want")).
  - simpl. right. now left.
  - reflexivity.
  - simpl. now left.
  - discriminate.
  - simpl. now left.
  - reflexivity.
Defined.

Lemma NoDup_map_same : forall (A B : Type) (f : A -> B) (l : list A) a b,
  NoDup (map f l) -> In a l -> In b l -> f a = f b -> a = b.
Proof.
  intros A B f l a b N. induction l as [|x xs IH]; intros Ha Hb E.
  - destruct Ha.
  - simpl in N. inversion N as [|? ? Hnot N']; subst.
    destruct Ha as [->|Ha]; destruct Hb as [->|Hb]; try reflexivity.
    + exfalso. apply Hnot. rewrite E. now apply in_map.
    + exfalso. apply Hnot. rewrite <- E. now apply in_map.
    + now apply IH.
Qed.

Lemma find_skill_by_id : forall d sk,
  skill_ids_distinct d -> In sk (skills d) ->
  find (fun s => (Skill.id s =? Skill.id sk)%Z) (skills d) = Some sk.
Proof.
  intros d sk N Hin.
  destruct (find _ (skills d)) as [s|] eqn:F.
  - apply find_some in F. destruct F as [Hs E]. apply Z.eqb_eq in E.
    f_equal. now apply (NoDup_map_same _ _ Skill.id (skills d)).
  - pose proof (find_none _ _ F sk Hin) as H. simpl in H.
    now rewrite Z.eqb_refl in H.
Qed.

(** X3.  [delete_skill] never touches a skill of another user, nor a
    skill with another identifier, whatever identifier is asked for; it
    adds no skill and leaves the users and the match rows alone (a match
    stays when the skill it came from is gone). *)
Theorem delete_skill_spares_others : forall u sid d,
  skill_ids_distinct d ->
  exists d',
    delete_skill u sid d = Return d'
    /\ users d' = users d /\ matches d' = matches d
    /\ (forall s, In s (skills d') -> In s (skills d))
    /\ (forall s, In s (skills d) -> Skill.user_id s <> u ->
          In s (skills d'))
    /\ (forall s, In s (skills d) -> Skill.id s <> sid -> In s (skills d')).
Proof.
  intros u sid d N. unfold delete_skill.
  destruct (find _ (skills d)) as [sk|] eqn:F.
  - apply find_some in F. destruct F as [Hsk E]. apply Z.eqb_eq in E.
    destruct (Z.eqb_spec (Skill.user_id sk) u) as [Ou|Ou]; simpl.
    + eexists. split; [reflexivity|]. simpl. repeat split.
      * intros s Hs. apply filter_In in Hs. tauto.
      * intros s Hs Hu. apply filter_In. split; [exact Hs|].
        apply negb_true_iff, Z.eqb_neq. intros Es. apply Hu.
        rewrite <- Ou. f_equal.
        apply (NoDup_map_same _ _ Skill.id (skills d));
          [exact N|exact Hs|exact Hsk|congruence].
      * intros s Hs Hi. apply filter_In. split; [exact Hs|].
        now apply negb_true_iff, Z.eqb_neq.
    + exists d. repeat split; auto.
  - exists d. repeat split; auto.
Qed.

Lemma delete_skill_spares_others_witness :
  exists d',
    delete_skill 1 2 db_guitar = Return d'
    /\ In (skill 2 2 "guitar" "offer") (skills d').
Proof.
  destruct (delete_skill_spares_others 1 2 db_guitar) as (d' & E & _ & _ & _ & H & _).
  - unfold skill_ids_distinct. simpl. repeat constructor; simpl; intuition discriminate.
  - exists d'. split; [exact E|]. apply H.
    + simpl. right. now left.
    + discriminate.
Defined.

Lemma filter_all : forall (A : Type) (f : A -> bool) (l : list A),
  (forall x, In x l -> f x = true) -> filter f l = l.
Proof.
  intros A f l. induction l as [|x xs IH]; intros H; simpl.
  - reflexivity.
  - rewrite (H x (or_introl eq_refl)). f_equal. apply IH.
    intros y Hy. apply H. now right.
Qed.

Lemma filter_out_one : forall (A : Type) (f : A -> Z) (l : list A) a,
  NoDup (map f l) -> In a l ->
  S (List.length (filter (fun s => negb (f s =? f a)%Z) l)) = List.length l.
Proof.
  intros A f l a N. induction l as [|x xs IH]; intros Hin; [destruct Hin|].
  simpl in N. inversion N as [|? ? Hnot N']; subst. simpl.
  destruct Hin as [->|Hin].
  - rewrite Z.eqb_refl. simpl. f_equal.
    rewrite filter_all; [reflexivity|].
    intros y Hy. apply negb_true_iff, Z.eqb_neq.
    intros E. apply Hnot. rewrite <- E. now apply in_map.
  - destruct (Z.eqb_spec (f x) (f a)) as [E|E]; simpl.
    + exfalso. apply Hnot. rewrite E. now apply in_map.
    + f_equal. now apply IH.
Qed.

(** X4.  [delete_skill], asked by its owner for a skill of the table,
    removes this row and no other: the table is one row shorter, and a
    second request for the same identifier finds nothing and changes
    nothing. *)
Theorem delete_skill_removes_own : forall u d sk,
  skill_ids_distinct d -> In sk (skills d) -> Skill.user_id sk = u ->
  exists d',
    delete_skill u (Skill.id sk) d = Return d'
    /\ (forall s, In s (skills d') <-> In s (skills d) /\ s <> sk)
    /\ S (List.length (skills d')) = List.length (skills d)
    /\ delete_skill u (Skill.id sk) d' = Return d'.
Proof.
  intros u d sk N Hin Ou. unfold delete_skill at 1.
  rewrite (find_skill_by_id d sk N Hin).
  rewrite Ou, Z.eqb_refl. simpl.
  eexists. split; [reflexivity|]. simpl. split; [|split].
  - intros s. rewrite filter_In, negb_true_iff, Z.eqb_neq. split.
    + intros [Hs Hi]. split; [exact Hs|]. congruence.
    + intros [Hs Hne]. split; [exact Hs|]. intros E. apply Hne.
      now apply (NoDup_map_same _ _ Skill.id (skills d)).
  - now apply (filter_out_one _ Skill.id).
  - unfold delete_skill. simpl.
    destruct (find _ (filter _ (skills d))) as [s|] eqn:F; [|reflexivity].
    apply find_some in F. destruct F as [Hs E].
    apply filter_In in Hs. destruct Hs as [_ Hs].
    rewrite E in Hs. discriminate.
Qed.

Lemma delete_skill_removes_own_witness :
  exists d',
    delete_skill 2 2 db_guitar = Return d'
    /\ skills d' = [skill 1 1 "Guitar" "want"]
    /\ S (List.length (skills d')) = List.length (skills db_guitar)
    /\ delete_skill 2 2 d' = Return d'.
Proof.
  destruct (delete_skill_removes_own 2 db_guitar (skill 2 2 "guitar" "offer"))
    as (d' & E & _ & L & T).
  - unfold skill_ids_distinct. simpl.
    repeat constructor; simpl; intuition discriminate.
  - simpl. right. now left.
  - reflexivity.
  - exists d'. split; [exact E|]. split; [|now split].
    simpl in E. apply Return_inj in E. rewrite <- E. reflexivity.
Defined.

Lemma find_last : forall (A : Type) (f : A -> bool) (l : list A) x,
  (forall y, In y l -> f y = false) -> f x = true ->
  find f (l ++ [x]) = Some x.
Proof.
  intros A f l x Hl Hx. induction l as [|y ys IH]; simpl.
  - now rewrite Hx.
  - rewrite (Hl y (or_introl eq_refl)). apply IH.
    intros z Hz. apply Hl. now right.
Qed.

(** What [add_skill] does to the three tables, for a type it accepts. *)
Lemma add_skill_tables : forall u n t p e d,
  t = "offer"%string \/ t = "want"%string ->
  exists d1 new,
    add_skill u n t p e d = Return d1
    /\ users d1 = users d
    /\ skills d1 = skills d ++ [new_skill u n t p e d]
    /\ matches d1 = matches d ++ new
    /\ (t = "want"%string -> new = []).
Proof.
  intros u n t p e d [-> | ->].
  - change (add_skill u n "offer" p e d)
      with (find_matches_for_user u (with_offer u n p e d)).
    destruct (find_matches_spec u (with_offer u n p e d)) as (new & E & _).
    exists (extend (with_offer u n p e d) new), new.
    repeat split; [exact E|discriminate].
  - eexists. exists []. split; [reflexivity|]. simpl.
    rewrite app_nil_r. repeat split.
Qed.

(** X5.  Storing a skill and deleting it again: [delete_skill], asked by
    the same user for the identifier the new row was given, restores the
    users and the skills.  After a want the whole state is as before;
    after an offer the match rows that the offer brought stay. *)
Theorem add_then_delete : forall u n t p e d,
  t = "offer"%string \/ t = "want"%string ->
  exists d1 d2,
    add_skill u n t p e d = Return d1
    /\ delete_skill u (next_skill_id d) d1 = Return d2
    /\ users d2 = users d /\ skills d2 = skills d
    /\ matches d2 = matches d1
    /\ (t = "want"%string -> d2 = d).
Proof.
  intros u n t p e d Ht.
  destruct (add_skill_tables u n t p e d Ht) as (d1 & new & E & Hu & Hs & Hm & Hw).
  exists d1. unfold delete_skill. rewrite Hs.
  assert (Old : forall s, In s (skills d) ->
            (Skill.id s =? next_skill_id d)%Z = false).
  { intros s Hin. apply Z.eqb_neq.
    pose proof (next_skill_id_above d s Hin). lia. }
  rewrite (find_last _ _ (skills d) (new_skill u n t p e d) Old)
    by (simpl; apply Z.eqb_refl).
  simpl Skill.user_id. rewrite Z.eqb_refl. simpl negb. cbv iota.
  eexists. split; [exact E|]. split; [reflexivity|]. simpl.
  assert (F : filter (fun s => negb (Skill.id s =? next_skill_id d)%Z)
                (skills d ++ [new_skill u n t p e d]) = skills d).
  { rewrite filter_app. simpl. rewrite Z.eqb_refl. simpl.
    rewrite app_nil_r. apply filter_all.
    intros s Hin. now rewrite (Old s Hin). }
  rewrite F. repeat split; try assumption.
  intros W. rewrite Hu, Hm, (Hw W), app_nil_r. now destruct d.
Qed.

Lemma add_then_delete_witness :
  exists d1 d2,
    add_skill 2 "Guitar" "offer" "" "" db_guitar = Return d1
    /\ delete_skill 2 3 d1 = Return d2
    /\ skills d2 = skills db_guitar
    /\ matches d2 = matches d1
    /\ List.length (matches d2) = 1.
Proof.
  destruct (add_then_delete 2 "Guitar" "offer" "" "" db_guitar (or_introl eq_refl))
    as (d1 & d2 & E1 & E2 & _ & Hs & Hm & _).
  exists d1, d2. split; [exact E1|]. split; [exact E2|].
  split; [exact Hs|]. split; [exact Hm|]. rewrite Hm.
  vm_compute in E1. apply Return_inj in E1. rewrite <- E1. reflexivity.
Defined.

(** ** The match table over a sequence of requests *)



(** ** The engine, once more *)

Lemma loop_noop : forall d0 user_id cands d,
  skills d = skills d0 ->
  (forall o, In o cands ->
     0 < match_score (score_for d0 user_id (User.id o)) ->
     1 <= pair_count d user_id (User.id o)) ->
  for_each (visit user_id (Skill_query_filter_by d0 user_id "offer")
                  (Skill_query_filter_by d0 user_id "want")) cands d
  = Return d.
Proof.
  intros d0 uid cands d Hs. induction cands as [|x xs IH]; intros H.
  - reflexivity.
  - simpl for_each. rewrite (visit_cases d0 uid x d Hs).
    assert (T : for_each
                  (visit uid (Skill_query_filter_by d0 uid "offer")
                     (Skill_query_filter_by d0 uid "want")) xs d = Return d)
      by (apply IH; intros o Ho; apply H; now right).
    destruct (0 <? match_score (score_for d0 uid (User.id x))) eqn:G;
      simpl; [|exact T].
    destruct (0 <? total_possible (score_for d0 uid (User.id x)));
      simpl; [|exact T].
    apply Nat.ltb_lt in G. specialize (H x (or_introl eq_refl) G).
    destruct (Match_query_first d uid (User.id x)) eqn:F; simpl; [exact T|].
    apply Match_query_first_none in F. lia.
Qed.

(** X7.  The engine is idempotent: invoked a second time for the same
    user, with no request in between, it returns the state of the first
    invocation as it is. *)
Theorem find_matches_idempotent : forall user_id d,
  exists d1,
    find_matches_for_user user_id d = Return d1
    /\ find_matches_for_user user_id d1 = Return d1.
Proof.
  intros uid d.
  destruct (find_matches_spec uid d) as (new & E & _ & _ & _ & Hge).
  exists (extend d new). split; [exact E|].
  unfold find_matches_for_user.
  change (User_query_get (extend d new) uid) with (User_query_get d uid).
  destruct (User_query_get d uid) as [x|] eqn:G; [|reflexivity].
  apply loop_noop; [reflexivity|].
  intros o Ho Hpos.
  change (User_query_others (extend d new) uid)
    with (User_query_others d uid) in Ho.
  apply others_In in Ho. destruct Ho as [Ho Hne].
  apply Hge; [discriminate|exact Ho|exact Hne|exact Hpos].
Qed.

(** ** Rows and users *)

Lemma made_by_ends_exist : forall d user_id m,
  User_query_get d user_id <> None -> made_by d user_id m -> ends_exist d m.
Proof.
  intros d uid m G (o & Ho & _ & _ & _ & ->). unfold ends_exist, row_of.
  simpl. split.
  - destruct (User_query_get d uid) as [x|] eqn:F; [|now elim G].
    apply find_some in F. destruct F as [Hx E]. apply Z.eqb_eq in E.
    now exists x.
  - now exists o.
Qed.

Lemma find_matches_rows : forall user_id d,
  exists new,
    find_matches_for_user user_id d = Return (extend d new)
    /\ Forall (ends_exist d) new
    /\ Forall (fun m => (0 <=? Match.match_percentage m)%float = true) new.
Proof.
  intros uid d.
  destruct (find_matches_spec uid d) as (new & E & Hm & _ & Hnone & _).
  exists new. split; [exact E|].
  destruct (User_query_get d uid) as [x|] eqn:G.
  - split; eapply Forall_impl; try exact Hm.
    + intros m. apply made_by_ends_exist. rewrite G. discriminate.
    + intros m (o & _ & _ & Hpos & Htot & ->). unfold row_of. simpl.
      apply (percentage_float_bounds _ _ Hpos Htot).
  - rewrite (Hnone eq_refl). split; constructor.
Qed.

(** The rows a request appends: their ends are users, their percentage is
    not negative. *)
Lemma handle_rows : forall r d,
  exists d' new,
    handle r d = Return d'
    /\ users d' = users d
    /\ matches d' = matches d ++ new
    /\ Forall (ends_exist d) new
    /\ Forall (fun m => (0 <=? Match.match_percentage m)%float = true) new.
Proof.
  assert (Hid : forall d' d, users d' = users d -> matches d' = matches d ->
            users d' = users d /\ matches d' = matches d ++ []
            /\ Forall (ends_exist d) []
            /\ Forall (fun m => (0 <=? Match.match_percentage m)%float = true)
                 []).
  { intros d' d Hu Hm. rewrite app_nil_r. repeat split; auto. }
  assert (Hfm : forall u d1 d, users d1 = users d -> matches d1 = matches d ->
            exists d' new,
              find_matches_for_user u d1 = Return d'
              /\ users d' = users d
              /\ matches d' = matches d ++ new
              /\ Forall (ends_exist d) new
              /\ Forall (fun m =>
                           (0 <=? Match.match_percentage m)%float = true) new).
  { intros u d1 d Hu Hm.
    destruct (find_matches_rows u d1) as (new & E & He & Hp).
    exists (extend d1 new), new. repeat split.
    - exact E.
    - exact Hu.
    - simpl. now rewrite Hm.
    - eapply Forall_impl; [|exact He]. intros m. unfold ends_exist.
      now rewrite Hu.
    - exact Hp. }
  intros [u n t p e|u s|u] d; simpl.
  - unfold add_skill.
    destruct (negb (existsb (String.eqb t) ["offer"; "want"]%string)).
    + exists d, []. split; [reflexivity|]. now apply Hid.
    + destruct (String.eqb t "offer").
      * apply Hfm; reflexivity.
      * eexists _, []. split; [reflexivity|]. now apply Hid.
  - unfold delete_skill.
    destruct (find _ (skills d)) as [sk|].
    + destruct (negb (Skill.user_id sk =? u)%Z);
        eexists _, []; (split; [reflexivity|]); now apply Hid.
    + exists d, []. split; [reflexivity|]. now apply Hid.
  - apply Hfm; reflexivity.
Qed.

Lemma reachable_rows : forall d,
  reachable d ->
  Forall (ends_exist d) (matches d)
  /\ Forall (fun m => (0 <=? Match.match_percentage m)%float = true)
       (matches d).
Proof.
  intros d R. induction R as [d H0|d r d' R IH H].
  - rewrite H0. split; constructor.
  - destruct (handle_rows r d) as (d1 & new & E & U & M & He & Hp).
    rewrite H in E. apply Return_inj in E. subst d1.
    destruct IH as [IHe IHp]. rewrite M.
    assert (T : forall m, ends_exist d m -> ends_exist d' m)
      by (intros m; unfold ends_exist; now rewrite U).
    split; apply Forall_app; split; try assumption.
    + eapply Forall_impl; [exact T|exact IHe].
    + eapply Forall_impl; [exact T|exact He].
Qed.

(** X8.  In every reachable state both ends of every match row are
    identities of users of the user table. *)
Theorem rows_join_users : forall d,
  reachable d -> forall m, In m (matches d) -> ends_exist d m.
Proof.
  intros d R. apply Forall_forall. now apply reachable_rows.
Qed.

Lemma rows_join_users_witness :
  reachable db_guitar_served
  /\ forall m, In m (matches db_guitar_served) ->
       ends_exist db_guitar_served m.
Proof.
  split; [exact db_guitar_served_reachable|].
  exact (rows_join_users db_guitar_served db_guitar_served_reachable).
Defined.

(** ** Upper and lower case *)

Lemma lower_ascii_idempotent : forall c,
  lower_ascii (lower_ascii c) = lower_ascii c.
Proof. intros [[] [] [] [] [] [] [] []]; reflexivity. Qed.

Lemma lower_idempotent : forall s, lower (lower s) = lower s.
Proof.
  induction s as [|c s IH]; simpl.
  - reflexivity.
  - now rewrite lower_ascii_idempotent, IH.
Qed.

Section Renaming.

Variable f : string -> string.
Hypothesis f_case_only : forall s, lower (f s) = lower s.

Lemma filter_by_rename : forall d u t,
  Skill_query_filter_by (rename_skills f d) u t
  = map (rename_skill f) (Skill_query_filter_by d u t).
Proof.
  intros d u t. unfold Skill_query_filter_by, rename_skills. simpl.
  induction (skills d) as [|x xs IH]; simpl.
  - reflexivity.
  - destruct ((Skill.user_id x =? u)%Z
              && String.eqb (Skill.skill_type x) t); simpl; now rewrite IH.
Qed.

Lemma same_name_rename : forall x y,
  same_name (rename_skill f x) (rename_skill f y) = same_name x y.
Proof. intros x y. unfold same_name. simpl. now rewrite !f_case_only. Qed.

Lemma equal_pairs_rename : forall mine theirs,
  List.length (equal_pairs (map (rename_skill f) mine)
                           (map (rename_skill f) theirs))
  = List.length (equal_pairs mine theirs).
Proof.
  intros mine theirs. induction mine as [|x xs IH]; simpl.
  - reflexivity.
  - rewrite !equal_pairs_cons, IH. f_equal.
    clear IH. induction theirs as [|y ys IH]; simpl.
    + reflexivity.
    + rewrite same_name_rename. destruct (same_name x y); simpl; now rewrite IH.
Qed.

Lemma existsb_rename : forall mine theirs,
  existsb (fun o => existsb (same_name o) (map (rename_skill f) theirs))
          (map (rename_skill f) mine)
  = existsb (fun o => existsb (same_name o) theirs) mine.
Proof.
  intros mine theirs. induction mine as [|x xs IH]; simpl.
  - reflexivity.
  - rewrite IH. f_equal.
    clear IH. induction theirs as [|y ys IH]; simpl.
    + reflexivity.
    + now rewrite same_name_rename, IH.
Qed.

Lemma score_for_rename : forall d a b,
  match_score (score_for (rename_skills f d) a b)
  = match_score (score_for d a b)
  /\ total_possible (score_for (rename_skills f d) a b)
     = total_possible (score_for d a b)
  /\ is_double (score_for (rename_skills f d) a b)
     = is_double (score_for d a b).
Proof.
  intros d a b. unfold score_for. rewrite !filter_by_rename.
  rewrite !score_match_score, !score_total_possible, !score_is_double.
  rewrite !equal_pairs_rename, existsb_rename, !length_map. auto.
Qed.

Lemma row_of_rename : forall d a b,
  same_score_row (row_of d a b) (row_of (rename_skills f d) a b).
Proof.
  intros d a b. destruct (score_for_rename d a b) as (S & T & D).
  unfold same_score_row, row_of. simpl. rewrite S, T, D. auto.
Qed.

Lemma first_row_rename : forall l l' a b,
  Forall2 same_score_row l l' ->
  find (joins a b) l = None <-> find (joins a b) l' = None.
Proof.
  intros l l' a b H. induction H as [|m m' l l' Hm H IH]; simpl.
  - tauto.
  - destruct Hm as (E1 & E2 & _). unfold joins at 1 3. rewrite E1, E2.
    destruct (_ || _); [split; discriminate|exact IH].
Qed.

Lemma loop_rename : forall d0 user_id cands d dr,
  skills d = skills d0 -> skills dr = skills (rename_skills f d0) ->
  Forall2 same_score_row (matches d) (matches dr) ->
  exists new new',
    for_each (visit user_id (Skill_query_filter_by d0 user_id "offer")
                    (Skill_query_filter_by d0 user_id "want")) cands d
    = Return (extend d new)
    /\ for_each (visit user_id
                   (Skill_query_filter_by (rename_skills f d0) user_id "offer")
                   (Skill_query_filter_by (rename_skills f d0) user_id "want"))
         cands dr
       = Return (extend dr new')
    /\ Forall2 same_score_row new new'.
Proof.
  intros d0 uid cands. induction cands as [|x xs IH]; intros d dr Hs Hr HM.
  - exists [], []. rewrite !extend_nil. repeat split. constructor.
  - simpl for_each.
    rewrite (visit_cases d0 uid x d Hs).
    rewrite (visit_cases (rename_skills f d0) uid x dr Hr).
    destruct (score_for_rename d0 uid (User.id x)) as (S & T & _).
    rewrite S, T.
    destruct ((0 <? match_score (score_for d0 uid (User.id x)))
              && (0 <? total_possible (score_for d0 uid (User.id x))));
      [|simpl; now apply IH].
    pose proof (first_row_rename _ _ uid (User.id x) HM) as Q.
    unfold Match_query_first.
    destruct (find (joins uid (User.id x)) (matches d)) as [m|] eqn:F;
      destruct (find (joins uid (User.id x)) (matches dr)) as [m'|] eqn:F'.
    + simpl. now apply IH.
    + exfalso. destruct Q as [_ Q]. specialize (Q eq_refl). discriminate.
    + exfalso. destruct Q as [Q _]. specialize (Q eq_refl). discriminate.
    + simpl.
      destruct (IH (session_add_match (row_of d0 uid (User.id x)) d)
                   (session_add_match
                      (row_of (rename_skills f d0) uid (User.id x)) dr)
                   Hs Hr) as (new & new' & E & E' & H).
      { simpl. apply Forall2_app; [exact HM|].
        constructor; [apply row_of_rename|constructor]. }
      rewrite extend_add in E, E'.
      eexists _, _. split; [exact E|]. split; [exact E'|].
      constructor; [apply row_of_rename|exact H].
Qed.

(** X9.  Matching does not look at upper and lower case.  When the names
    of all skills are rewritten in a way that keeps their lower-cased
    form, the engine creates rows for the same candidates, in the same
    order, with the same percentage and the same double-swap flag: only
    the snapshots of the skill names differ. *)
Theorem engine_ignores_case : forall user_id d,
  exists new new',
    find_matches_for_user user_id d = Return (extend d new)
    /\ find_matches_for_user user_id (rename_skills f d)
       = Return (extend (rename_skills f d) new')
    /\ Forall2 same_score_row new new'.
Proof.
  intros uid d. unfold find_matches_for_user.
  change (User_query_get (rename_skills f d) uid) with (User_query_get d uid).
  change (User_query_others (rename_skills f d) uid)
    with (User_query_others d uid).
  destruct (User_query_get d uid).
  - apply loop_rename; try reflexivity.
    simpl. clear. induction (matches d) as [|m l IH]; constructor.
    + unfold same_score_row. auto.
    + exact IH.
  - exists [], []. rewrite !extend_nil. repeat split. constructor.
Qed.

End Renaming.

Lemma engine_ignores_case_witness :
  exists new new',
    find_matches_for_user 2 db_guitar = Return (extend db_guitar new)
    /\ find_matches_for_user 2 (rename_skills lower db_guitar)
       = Return (extend (rename_skills lower db_guitar) new')
    /\ Forall2 same_score_row new new'.
Proof.
  exact (engine_ignores_case lower lower_idempotent 2 db_guitar).
Defined.

(** ** The page of matches and the dashboard *)

(** *** The order of binary64 numbers *)

Lemma SFleb_total : forall x y,
  x <> S754_nan -> y <> S754_nan -> SFleb x y = false -> SFleb y x = true.
Proof.
  intros [sx|sx| |sx mx ex] [sy|sy| |sy my ey] Nx Ny; try congruence;
    unfold SFleb, SFcompare;
    try destruct sx; try destruct sy; simpl; try congruence;
    change (IntDef.Z.compare ex ey) with (Z.compare ex ey);
    change (PosDef.Pos.compare_cont Eq mx my) with (Pos.compare mx my);
    change (PosDef.Pos.compare_cont Eq my mx) with (Pos.compare my mx);
    rewrite (Z.compare_antisym ex ey), (Pos.compare_antisym mx my);
    destruct (ex ?= ey)%Z; simpl; try congruence;
    destruct (mx ?= my)%positive; simpl; congruence.
Qed.

Lemma SFleb_trans : forall x y z,
  SFleb x y = true -> SFleb y z = true -> SFleb x z = true.
Proof.
  intros [sx|sx| |sx mx ex] [sy|sy| |sy my ey] [sz|sz| |sz mz ez];
    unfold SFleb, SFcompare;
    try destruct sx; try destruct sy; try destruct sz; simpl;
    try congruence;
    change (IntDef.Z.compare ex ey) with (Z.compare ex ey);
    change (IntDef.Z.compare ey ez) with (Z.compare ey ez);
    change (IntDef.Z.compare ex ez) with (Z.compare ex ez);
    change (PosDef.Pos.compare_cont Eq mx my) with (Pos.compare mx my);
    change (PosDef.Pos.compare_cont Eq my mz) with (Pos.compare my mz);
    change (PosDef.Pos.compare_cont Eq mx mz) with (Pos.compare mx mz);
    destruct (Z.compare_spec ex ey); destruct (Z.compare_spec ey ez);
    destruct (Z.compare_spec ex ez); try lia; simpl; try congruence;
    destruct (Pos.compare_spec mx my); destruct (Pos.compare_spec my mz);
    destruct (Pos.compare_spec mx mz); try lia; simpl; congruence.
Qed.

(** Two numbers that are not below zero, hence not NaN, are comparable. *)
Lemma leb_total : forall x y : float,
  (0 <=? x)%float = true -> (0 <=? y)%float = true ->
  (x <=? y)%float = false -> (y <=? x)%float = true.
Proof.
  intros x y Hx Hy. rewrite !leb_spec in *. apply SFleb_total.
  - intros E. rewrite E in Hx. discriminate Hx.
  - intros E. rewrite E in Hy. discriminate Hy.
Qed.

Lemma leb_trans : forall x y z : float,
  (x <=? y)%float = true -> (y <=? z)%float = true -> (x <=? z)%float = true.
Proof. intros x y z. rewrite !leb_spec. apply SFleb_trans. Qed.

(** *** Sorting *)

Lemma insert_desc_perm : forall m l, Permutation (insert_desc m l) (m :: l).
Proof.
  intros m l. induction l as [|x l IH]; simpl.
  - apply Permutation_refl.
  - destruct (_ <=? _)%float.
    + apply Permutation_refl.
    + eapply perm_trans; [apply perm_skip, IH|apply perm_swap].
Qed.

Lemma order_by_perm : forall l, Permutation (order_by_percentage_desc l) l.
Proof.
  induction l as [|m l IH]; simpl.
  - constructor.
  - eapply perm_trans; [apply insert_desc_perm|now apply perm_skip].
Qed.

Lemma insert_desc_sorted : forall m l,
  (0 <=? Match.match_percentage m)%float = true ->
  Forall (fun x => (0 <=? Match.match_percentage x)%float = true) l ->
  StronglySorted percentage_ge l ->
  StronglySorted percentage_ge (insert_desc m l).
Proof.
  intros m l Hm Hl S. induction S as [|x l S IH F]; simpl.
  - repeat constructor.
  - inversion Hl as [|? ? Hx Hl']; subst.
    destruct (Match.match_percentage x <=? Match.match_percentage m)%float
      eqn:C.
    + constructor; [now constructor|]. constructor; [exact C|].
      eapply Forall_impl; [|exact F]. intros y Hy. unfold percentage_ge in *.
      eapply leb_trans; [exact Hy|exact C].
    + constructor; [now apply IH|].
      apply (Permutation_Forall (Permutation_sym (insert_desc_perm m l))).
      constructor; [|exact F]. unfold percentage_ge.
      now apply leb_total.
Qed.

Lemma order_by_sorted : forall l,
  Forall (fun x => (0 <=? Match.match_percentage x)%float = true) l ->
  StronglySorted percentage_ge (order_by_percentage_desc l).
Proof.
  induction l as [|m l IH]; intros H; simpl.
  - constructor.
  - inversion H as [|? ? Hm Hl]; subst. apply insert_desc_sorted.
    + exact Hm.
    + apply (Permutation_Forall (Permutation_sym (order_by_perm l))), Hl.
    + now apply IH.
Qed.

Lemma filter_length_perm : forall (A : Type) (f : A -> bool) (l l' : list A),
  Permutation l l' -> List.length (filter f l) = List.length (filter f l').
Proof.
  intros A f l l' P. induction P as [|x l l' P IH|x y l|l l' l'' P1 IH1 P2 IH2];
    simpl.
  - reflexivity.
  - destruct (f x); simpl; now rewrite IH.
  - destruct (f x), (f y); reflexivity.
  - now rewrite IH1.
Qed.

(** *** The rows of a reachable state *)

Lemma reachable_pairs : forall d,
  reachable d ->
  Forall distinct_ends (matches d) /\ forall a b, pair_count d a b <= 1.
Proof.
  intros d R. induction R as [d H0|d r d' R IH H].
  - unfold pair_count. rewrite H0. split; [constructor|simpl; lia].
  - destruct (handle_spec r d) as (d1 & new & E & _ & M & D & P).
    rewrite H in E. apply Return_inj in E. subst d1.
    destruct IH as [IHd IHp]. split.
    + rewrite M. apply Forall_app. now split.
    + intros a b. specialize (P a b). specialize (IHp a b). lia.
Qed.

Lemma involves_both : forall u p l,
  p <> u ->
  filter (involves p) (filter (involves u) l) = filter (joins u p) l.
Proof.
  intros u p l Hne. induction l as [|m l IH]; simpl.
  - reflexivity.
  - assert (E : joins u p m = involves u m && involves p m).
    { unfold joins, involves.
      destruct (Z.eqb_spec (Match.user1_id m) u),
               (Z.eqb_spec (Match.user2_id m) u),
               (Z.eqb_spec (Match.user1_id m) p),
               (Z.eqb_spec (Match.user2_id m) p);
        simpl; congruence. }
    rewrite E. destruct (involves u m); simpl; [|exact IH].
    destruct (involves p m); simpl; now rewrite IH.
Qed.

Lemma all_matches_sorted : forall d user_id,
  reachable d -> StronglySorted percentage_ge (all_matches user_id d).
Proof.
  intros d u R. apply order_by_sorted.
  apply incl_Forall with (l1 := matches d).
  - apply incl_filter.
  - now apply reachable_rows.
Qed.

(** X10.  The page of matches of a user shows the match rows that have
    the user at one of their ends, each of them once and no other row,
    and in every reachable state it shows them by non-increasing
    percentage: every row stands before all rows with a smaller
    percentage. *)
Theorem matches_page_sorted : forall d user_id,
  reachable d ->
  Permutation (all_matches user_id d) (filter (involves user_id) (matches d))
  /\ StronglySorted percentage_ge (all_matches user_id d).
Proof.
  intros d u R. split.
  - apply order_by_perm.
  - now apply all_matches_sorted.
Qed.

Lemma matches_page_sorted_witness :
  reachable db_guitar_served
  /\ Permutation (all_matches 1 db_guitar_served)
                 (filter (involves 1) (matches db_guitar_served))
  /\ StronglySorted percentage_ge (all_matches 1 db_guitar_served).
Proof.
  split; [exact db_guitar_served_reachable|].
  exact (matches_page_sorted db_guitar_served 1 db_guitar_served_reachable).
Defined.

(** X11.  In every reachable state each row of a user's page of matches
    joins the user with somebody else, and nobody else is the partner in
    more than one row of the page. *)
Theorem matches_page_partners : forall d user_id,
  reachable d ->
  (forall m, In m (all_matches user_id d) ->
     (Match.user1_id m = user_id /\ Match.user2_id m <> user_id)
     \/ (Match.user2_id m = user_id /\ Match.user1_id m <> user_id))
  /\ (forall partner, partner <> user_id ->
        List.length (filter (involves partner) (all_matches user_id d)) <= 1).
Proof.
  intros d u R. destruct (reachable_pairs d R) as [D P]. split.
  - intros m Hin.
    apply (Permutation_in _ (order_by_perm _)) in Hin.
    apply filter_In in Hin. destruct Hin as [Hin Hu].
    rewrite Forall_forall in D. specialize (D m Hin).
    unfold distinct_ends in D. unfold involves in Hu.
    apply orb_true_iff in Hu. destruct Hu as [Hu|Hu]; apply Z.eqb_eq in Hu.
    + left. split; [exact Hu|congruence].
    + right. split; [exact Hu|congruence].
  - intros p Hne. unfold all_matches.
    rewrite (filter_length_perm _ _ _ _ (order_by_perm _)).
    rewrite (involves_both u p _ Hne). apply (P u p).
Qed.

Lemma matches_page_partners_witness :
  reachable db_guitar_served
  /\ (forall m, In m (all_matches 1 db_guitar_served) ->
        (Match.user1_id m = 1%Z /\ Match.user2_id m <> 1%Z)
        \/ (Match.user2_id m = 1%Z /\ Match.user1_id m <> 1%Z))
  /\ (forall partner, partner <> 1%Z ->
        List.length (filter (involves partner)
                            (all_matches 1 db_guitar_served)) <= 1).
Proof.
  split; [exact db_guitar_served_reachable|].
  exact (matches_page_partners db_guitar_served 1 db_guitar_served_reachable).
Defined.

Lemma sorted_app : forall (l1 l2 : list Match.t),
  StronglySorted percentage_ge (l1 ++ l2) ->
  forall m m', In m l1 -> In m' l2 -> percentage_ge m m'.
Proof.
  induction l1 as [|x l1 IH]; intros l2 S m m' H1 H2.
  - destruct H1.
  - simpl in S. inversion S as [|? ? S' F]; subst. destruct H1 as [->|H1].
    + rewrite Forall_forall in F. apply F. apply in_or_app. now right.
    + now apply (IH l2).
Qed.

(** X12.  In every reachable state the dashboard shows the first ten rows
    of the page of matches, all of them when there are fewer, and no row
    it leaves out has a larger percentage than a row it shows. *)
Theorem dashboard_shows_best : forall d user_id,
  reachable d ->
  exists rest,
    all_matches user_id d = dashboard_matches user_id d ++ rest
    /\ List.length (dashboard_matches user_id d)
       = Nat.min 10 (List.length (all_matches user_id d))
    /\ forall m m', In m (dashboard_matches user_id d) -> In m' rest ->
         percentage_ge m m'.
Proof.
  intros d u R. exists (skipn 10 (all_matches u d)). unfold dashboard_matches.
  split; [symmetry; apply firstn_skipn|]. split; [apply length_firstn|].
  apply sorted_app. rewrite firstn_skipn.
  now apply all_matches_sorted.
Qed.

Lemma dashboard_shows_best_witness :
  reachable db_guitar_served
  /\ exists rest,
       all_matches 1 db_guitar_served
       = dashboard_matches 1 db_guitar_served ++ rest
       /\ List.length (dashboard_matches 1 db_guitar_served)
          = Nat.min 10 (List.length (all_matches 1 db_guitar_served))
       /\ forall m m', In m (dashboard_matches 1 db_guitar_served) ->
            In m' rest -> percentage_ge m m'.
Proof.
  split; [exact db_guitar_served_reachable|].
  exact (dashboard_shows_best db_guitar_served 1 db_guitar_served_reachable).
Defined.

(** ** The trust score *)

Section TrustScore.

Local Open Scope Z_scope.

(** *** Quotients from 1 to 5 *)

Lemma binary_round_aux_from_1 : forall mx ex lx,
  0 <= mx ->
  let n1 := Z.max (fx (Zdigits2 mx + ex) - ex) 0 in
  -1074 <= ex + n1 <= 0 ->
  2 ^ (- (ex + n1)) <= mx / 2 ^ n1 ->
  SF_from_1 (binary_round_aux prec emax false mx ex lx).
Proof.
  intros mx ex lx Hmx n1 Hg HK.
  destruct (binary_round_aux_shape false mx ex lx Hmx) as (m1 & Bm & E).
  cbv zeta in E. rewrite E. clear E. fold n1 in Bm |- *.
  set (g := ex + n1) in *.
  set (n2 := Z.max (fx (Zdigits2 m1 + g) - g) 0).
  assert (Pg : 0 < 2 ^ (- g)) by (apply pow2_pos; lia).
  assert (Hm1 : 2 ^ (- g) <= m1) by lia.
  assert (Hn2 : 0 <= n2) by (unfold n2; lia).
  assert (P2 : 0 < 2 ^ n2) by (now apply pow2_pos).
  assert (HD : - g < Zdigits2 m1) by (apply Zdigits2_le_pow2; lia).
  assert (V : 0 < m1 / 2 ^ n2
              /\ 2 ^ 1074 <= m1 / 2 ^ n2 * 2 ^ (g + n2 + 1074)).
  { destruct (Z.eq_dec n2 0) as [Z2|NZ].
    - rewrite Z2. rewrite Z.div_1_r, Z.add_0_r. split; [lia|].
      assert (S : 2 ^ 1074 = 2 ^ (- g) * 2 ^ (g + 1074)).
      { rewrite <- Z.pow_add_r by lia. f_equal. lia. }
      rewrite S. apply Z.mul_le_mono_nonneg_r; [|exact Hm1].
      apply Z.lt_le_incl, pow2_pos. lia.
    - assert (N : n2 = Zdigits2 m1 - 53).
      { unfold n2 in *. rewrite fx_eq in *. lia. }
      assert (L : 2 ^ (Zdigits2 m1 - 1) <= m1)
        by (apply Zdigits2_le_pow2; lia).
      assert (Q : 2 ^ 52 <= m1 / 2 ^ n2).
      { apply Z.div_le_lower_bound; [exact P2|].
        rewrite <- Z.pow_add_r by lia.
        replace (n2 + 52) with (Zdigits2 m1 - 1) by lia. exact L. }
      split; [lia|].
      assert (S : 2 ^ 1074 <= 2 ^ 52 * 2 ^ (g + n2 + 1074)).
      { rewrite <- Z.pow_add_r by lia. apply Z.pow_le_mono_r; lia. }
      eapply Z.le_trans; [exact S|].
      apply Z.mul_le_mono_nonneg_r; [|exact Q].
      apply Z.lt_le_incl, pow2_pos. lia. }
  destruct V as [V0 V].
  destruct (m1 / 2 ^ n2) as [|m|m]; try lia.
  destruct (g + n2 <=? emax - prec); [|exact I].
  simpl. split; [lia|exact V].
Qed.

Lemma quotient_shift : forall m t K,
  (Z.pos t <= Z.pos m) -> Z.pos m < K * Z.pos t -> K <= 8 ->
  let e := div_exp m t in
  let q := Z.pos m * 2 ^ (- e) / Z.pos t in
  let n1 := Z.max (fx (Zdigits2 q + e) - e) 0 in
  -1074 <= e <= 0 /\ 2 ^ (- e) <= q < K * 2 ^ (- e) /\ 0 <= n1 <= - e.
Proof.
  intros m t K Hle Hlt HK e q n1.
  pose proof (div_exp_range m t) as R. fold e in R.
  set (s := - e) in *.
  assert (Ps : 0 < 2 ^ s) by (apply pow2_pos; unfold s; lia).
  assert (Hq1 : 2 ^ s <= q).
  { unfold q. apply Z.div_le_lower_bound; [lia|]. nia. }
  assert (Hq : q < K * 2 ^ s).
  { unfold q. apply Z.div_lt_upper_bound; [lia|]. nia. }
  assert (Hd : Zdigits2 q <= s + 3).
  { apply Zdigits2_lt_pow2; [lia|unfold s; lia|].
    rewrite Z.pow_add_r by (unfold s; lia). change (2 ^ 3) with 8. nia. }
  repeat split; try lia.
  unfold n1. pose proof (fx_mono (Zdigits2 q + e) 3).
  rewrite (fx_eq 3) in *. unfold s in *. lia.
Qed.

Lemma int_quotient_upto : forall m t K,
  (Z.pos t <= Z.pos m) -> Z.pos m < K * Z.pos t -> K <= 8 ->
  SF_upto (K * 2 ^ 1074) (int_quotient m t).
Proof.
  intros m t K Hle Hlt HK. rewrite int_quotient_eq.
  set (l := new_location _ _).
  destruct (quotient_shift m t K Hle Hlt HK) as (R & Hq & Hn1).
  cbv zeta in Hq, Hn1.
  set (e := div_exp m t) in *.
  set (q := Z.pos m * 2 ^ (- e) / Z.pos t) in *.
  set (n1 := Z.max (fx (Zdigits2 q + e) - e) 0) in *.
  assert (Ps : 0 < 2 ^ (- e)) by (apply pow2_pos; lia).
  apply (binary_round_aux_upto q e l (K * 2 ^ (- e - n1))).
  - lia.
  - fold n1. lia.
  - fold n1. apply Z.div_lt_upper_bound; [apply pow2_pos; lia|].
    replace (2 ^ n1 * (K * 2 ^ (- e - n1))) with (K * 2 ^ (- e)); [lia|].
    replace (- e) with (n1 + (- e - n1)) at 1 by lia.
    rewrite Z.pow_add_r by lia. ring.
  - fold n1. rewrite <- Z.mul_assoc, <- Z.pow_add_r by lia.
    replace (- e - n1 + (e + n1 + 1074)) with 1074 by lia. lia.
  - assert (0 < 2 ^ 1074) by (now apply pow2_pos).
    assert (8 * 2 ^ 1074 < 2 ^ 2045).
    { change 8 with (2 ^ 3). rewrite <- Z.pow_add_r by lia.
      apply Z.pow_lt_mono_r; lia. }
    nia.
Qed.

Lemma int_quotient_from_1 : forall m t K,
  (Z.pos t <= Z.pos m) -> Z.pos m < K * Z.pos t -> K <= 8 ->
  SF_from_1 (int_quotient m t).
Proof.
  intros m t K Hle Hlt HK. rewrite int_quotient_eq.
  set (l := new_location _ _).
  destruct (quotient_shift m t K Hle Hlt HK) as (R & Hq & Hn1).
  cbv zeta in Hq, Hn1.
  set (e := div_exp m t) in *.
  set (q := Z.pos m * 2 ^ (- e) / Z.pos t) in *.
  set (n1 := Z.max (fx (Zdigits2 q + e) - e) 0) in *.
  apply binary_round_aux_from_1.
  - assert (0 < 2 ^ (- e)) by (apply pow2_pos; lia). lia.
  - fold n1. lia.
  - fold n1. apply Z.div_le_lower_bound; [apply pow2_pos; lia|].
    rewrite <- Z.pow_add_r by lia.
    replace (n1 + - (e + n1)) with (- e) by lia. lia.
Qed.

(** The quotient of [k * t] by [t] is computed exactly. *)
Lemma Zdigits2_times : forall k t j,
  0 <= j -> 2 ^ j <= Z.pos k < 2 ^ (j + 1) ->
  Zdigits2 (Z.pos t) + j <= Zdigits2 (Z.pos (k * t))
  <= Zdigits2 (Z.pos t) + j + 1.
Proof.
  intros k t j Hj [Hl Hu].
  pose proof (Zdigits2_nonneg (Z.pos t)) as D0.
  assert (Pj : 0 < 2 ^ j) by (now apply pow2_pos).
  assert (Pt : 0 < 2 ^ Zdigits2 (Z.pos t)) by (now apply pow2_pos).
  assert (Ht : Z.pos t < 2 ^ Zdigits2 (Z.pos t))
    by (apply Zdigits2_lt_pow2; lia).
  assert (Lt : 2 ^ (Zdigits2 (Z.pos t) - 1) <= Z.pos t)
    by (apply Zdigits2_le_pow2; lia).
  assert (D1 : 0 < Zdigits2 (Z.pos t)) by (rewrite Zdigits2_log2; [|lia];
    pose proof (Z.log2_nonneg (Z.pos t)); lia).
  rewrite Pos2Z.inj_mul. split.
  - assert (Zdigits2 (Z.pos t) + j - 1 < Zdigits2 (Z.pos k * Z.pos t));
      [|lia].
    apply Zdigits2_le_pow2; [lia|].
    replace (Zdigits2 (Z.pos t) + j - 1) with (j + (Zdigits2 (Z.pos t) - 1))
      by lia.
    rewrite Z.pow_add_r by lia.
    assert (0 < 2 ^ (Zdigits2 (Z.pos t) - 1)) by (apply pow2_pos; lia).
    nia.
  - apply Zdigits2_lt_pow2; [lia|lia|].
    replace (Zdigits2 (Z.pos t) + j + 1) with (j + 1 + Zdigits2 (Z.pos t))
      by lia.
    rewrite Z.pow_add_r by lia.
    assert (0 < 2 ^ (j + 1)) by (apply pow2_pos; lia).
    nia.
Qed.

Lemma int_quotient_multiple : forall k t,
  (k <= 5)%positive -> int_quotient (k * t) t = int_quotient k 1.
Proof.
  intros k t Hk. rewrite (int_quotient_eq (k * t) t).
  assert (Hc : exists j, 0 <= j <= 2 /\ 2 ^ j <= Z.pos k < 2 ^ (j + 1)).
  { assert (Hc : (k = 1 \/ k = 2 \/ k = 3 \/ k = 4 \/ k = 5)%positive) by lia.
    destruct Hc as [->|[->|[->|[->| ->]]]];
      [exists 0|exists 1|exists 1|exists 2|exists 2]; simpl; lia. }
  destruct Hc as (j & Hj & Hkj).
  pose proof (Zdigits2_times k t j ltac:(lia) Hkj) as D.
  unfold div_exp.
  set (delta := Zdigits2 (Z.pos (k * t)) - Zdigits2 (Z.pos t)) in *.
  assert (E : Z.min (fx delta) 0 = delta - 53) by (rewrite fx_eq; lia).
  rewrite E. rewrite Pos2Z.inj_mul.
  replace (Z.pos k * Z.pos t * 2 ^ (- (delta - 53)))
    with (Z.pos k * 2 ^ (- (delta - 53)) * Z.pos t) by ring.
  rewrite Z.div_mul, Z.mod_mul by lia.
  assert (L : new_location (Z.pos t) 0 = loc_Exact).
  { unfold new_location. destruct (Z.even (Z.pos t)); reflexivity. }
  rewrite L.
  assert (Hd : delta = j \/ delta = j + 1) by lia.
  clearbody delta. clear D E.
  assert (Hc : (k = 1%positive /\ j = 0) \/ (k = 2%positive /\ j = 1)
               \/ (k = 3%positive /\ j = 1) \/ (k = 4%positive /\ j = 2)
               \/ (k = 5%positive /\ j = 2)).
  { assert (Hj' : j = 0 \/ j = 1 \/ j = 2) by lia.
    destruct Hj' as [->|[->| ->]]; simpl in Hkj; lia. }
  destruct Hc as [[-> ->]|[[-> ->]|[[-> ->]|[[-> ->]|[-> ->]]]]];
    destruct Hd as [->| ->]; vm_compute; reflexivity.
Qed.

(** *** Rounding a number from 1 to 5 to one decimal *)

Lemma round_half_even_ge : forall n d K,
  0 < d -> K * d <= n -> K <= round_half_even n d.
Proof.
  intros n d K Hd H. unfold round_half_even.
  assert (Q : K <= n / d) by (apply Z.div_le_lower_bound; lia).
  destruct (2 * (n mod d) ?= d); [destruct (Z.even (n / d))| |]; lia.
Qed.

Lemma tenths_in_1_5 : forallb tenth_in_1_5 (seq 10 41) = true.
Proof. vm_compute. reflexivity. Qed.

Lemma tenth_1_5 : forall k, 10 <= Z.pos k <= 50 ->
  (1 <=? tenth k)%float = true /\ (tenth k <=? 5)%float = true.
Proof.
  intros k Hk. pose proof tenths_in_1_5 as T.
  rewrite forallb_forall in T.
  specialize (T (Pos.to_nat k)). unfold tenth_in_1_5 in T.
  rewrite Pos2Nat.id in T. apply andb_true_iff. apply T.
  apply in_seq. lia.
Qed.

Lemma round1_1_to_5 : forall p,
  SF_from_1 (Prim2SF p) -> SF_upto (5 * 2 ^ 1074) (Prim2SF p) ->
  (1 <=? round1 p)%float = true /\ (round1 p <=? 5)%float = true.
Proof.
  intros p L U. unfold round1.
  destruct (Prim2SF p) as [[|]|[|]| |[|] m e] eqn:E;
    unfold SF_upto in U; unfold SF_from_1 in L; try contradiction.
  destruct U as [He U]. destruct L as [_ L].
  set (k := if 0 <=? e then 10 * Z.pos m * 2 ^ e
            else round_half_even (10 * Z.pos m) (2 ^ (- e))).
  assert (Hk : 10 <= k <= 50).
  { unfold k. destruct (Z.leb_spec 0 e) as [Hpos|Hneg].
    - rewrite Z.pow_add_r in U, L by lia.
      assert (0 < 2 ^ 1074) by (now apply pow2_pos).
      assert (0 < 2 ^ e) by (now apply pow2_pos). nia.
    - assert (Q : 0 < 2 ^ (- e)) by (apply pow2_pos; lia).
      assert (P : 0 < 2 ^ (e + 1074)) by (apply pow2_pos; lia).
      assert (S : 2 ^ 1074 = 2 ^ (- e) * 2 ^ (e + 1074)).
      { rewrite <- Z.pow_add_r by lia. f_equal. lia. }
      rewrite S in U, L. split.
      + apply round_half_even_ge; [lia|]. nia.
      + apply round_half_even_le; [lia|]. nia. }
  destruct k as [|pk|pk]; try lia.
  apply (tenth_1_5 pk). lia.
Qed.

(** *** The sum of the ratings *)

Lemma fold_left_add : forall l a, fold_left Z.add l a = a + sum l.
Proof.
  unfold sum. induction l as [|x l IH]; intros a; simpl.
  - lia.
  - rewrite IH, (IH x). lia.
Qed.

Lemma sum_cons : forall x l, sum (x :: l) = x + sum l.
Proof. intros x l. unfold sum at 1. simpl. apply fold_left_add. Qed.

Lemma sum_bounds : forall lo hi l,
  Forall (fun x => lo <= x <= hi) l ->
  lo * Z.of_nat (List.length l) <= sum l <= hi * Z.of_nat (List.length l).
Proof.
  intros lo hi l H. induction H as [|x l Hx H IH].
  - unfold sum. simpl. lia.
  - rewrite sum_cons. cbn [List.length]. rewrite Nat2Z.inj_succ. lia.
Qed.

Lemma sum_constant : forall k l,
  Forall (fun x => x = k) l -> sum l = k * Z.of_nat (List.length l).
Proof.
  intros k l H. induction H as [|x l Hx H IH].
  - unfold sum. simpl. lia.
  - rewrite sum_cons. cbn [List.length]. rewrite Nat2Z.inj_succ. lia.
Qed.

Lemma ratings_of_reviews : forall (P : Z -> Prop) table self,
  (forall r, In r table -> Review.reviewee_id r = User.id self ->
     P (Review.rating r)) ->
  Forall P (map Review.rating (Review_query_filter_by table (User.id self))).
Proof.
  intros P table self H. apply Forall_forall. intros x Hx.
  apply in_map_iff in Hx. destruct Hx as (r & <- & Hr).
  apply filter_In in Hr. destruct Hr as [Hin E]. apply Z.eqb_eq in E.
  now apply H.
Qed.

(** The range of the score and of what the column stores. *)
Lemma calculate_trust_score_range : forall table self,
  ratings_within 1 5 table self ->
  exists x,
    calculate_trust_score table self = Return x
    /\ (1 <=? x)%float = true /\ (x <=? 5)%float = true.
Proof.
  intros table self H. unfold calculate_trust_score.
  pose proof (ratings_of_reviews (fun x => 1 <= x <= 5) table self H) as F.
  apply sum_bounds in F. rewrite length_map in F.
  destruct (Review_query_filter_by table (User.id self)) as [|r rs].
  - exists 5%float. repeat split.
  - set (reviews := r :: rs) in *.
    set (total := sum (map Review.rating reviews)) in *.
    set (n := Z.of_nat (List.length reviews)) in *.
    assert (Hn : 0 < n) by (unfold n, reviews; simpl; lia).
    destruct n as [|t|t] eqn:En; try lia.
    destruct total as [|m|m] eqn:Et; try lia.
    unfold truediv. simpl bind.
    exists (round1 (nearest_quotient (Z.pos m) (Z.pos t))).
    split; [reflexivity|].
    rewrite nearest_quotient_pos.
    destruct (Z.eq_dec (Z.pos m) (5 * Z.pos t)) as [E5|N5].
    + assert (Em : m = (5 * t)%positive) by lia. rewrite Em.
      rewrite int_quotient_multiple by lia. vm_compute. split; reflexivity.
    + apply round1_1_to_5;
        rewrite (Prim2SF_SF2Prim _ (int_quotient_valid m t)).
      * apply (int_quotient_from_1 m t 5); lia.
      * apply (int_quotient_upto m t 5); lia.
Qed.



(** X14.  When all the reviews a user received, at least one, carry the
    same rating [k] from 1 to 5, the trust score is [k] itself, as the
    float [k / 1]. *)
Theorem trust_score_unanimous : forall table self k,
  1 <= k <= 5 ->
  Review_query_filter_by table (User.id self) <> [] ->
  ratings_within k k table self ->
  calculate_trust_score table self = Return (nearest_quotient k 1).
Proof.
  intros table self k Hk Hne H. unfold calculate_trust_score.
  pose proof (ratings_of_reviews (fun x => x = k) table self) as F.
  apply sum_constant in F; [|intros r Hin E; specialize (H r Hin E); lia].
  rewrite length_map in F.
  destruct (Review_query_filter_by table (User.id self)) as [|r rs];
    [now elim Hne|].
  set (reviews := r :: rs) in *. rewrite F.
  set (n := Z.of_nat (List.length reviews)) in *.
  assert (Hn : 0 < n) by (unfold n, reviews; simpl; lia).
  destruct n as [|t|t] eqn:En; try lia.
  destruct k as [|pk|pk]; try lia.
  unfold truediv. simpl bind. f_equal.
  change (Z.pos pk * Z.pos t) with (Z.pos (pk * t)).
  rewrite !nearest_quotient_pos, int_quotient_multiple by lia.
  assert (Hc : (pk = 1 \/ pk = 2 \/ pk = 3 \/ pk = 4 \/ pk = 5)%positive)
    by lia.
  destruct Hc as [->|[->|[->|[->| ->]]]]; vm_compute; reflexivity.
Qed.

Lemma trust_score_unanimous_witness :
  (1 <= 3 <= 5)
  /\ ratings_within 3 3 some_reviews (user 2 "ben")
  /\ calculate_trust_score some_reviews (user 2 "ben") = Return 3%float.
Proof.
  assert (H : ratings_within 3 3 some_reviews (user 2 "ben")).
  { intros r Hin E. simpl in Hin.
    destruct Hin as [<-|[<-|[<-|[]]]]; simpl in *; lia. }
  split; [lia|]. split; [exact H|].
  refine (trust_score_unanimous some_reviews (user 2 "ben") 3 _ _ H).
  - lia.
  - vm_compute. discriminate.
Defined.

End TrustScore.

(** ** Sessions and reviews *)

Lemma User_query_get_id : forall d i u,
  User_query_get d i = Some u -> In u (users d) /\ User.id u = i.
Proof.
  intros d i u H. unfold User_query_get in H. apply find_some in H.
  destruct H as [Hin E]. apply Z.eqb_eq in E. now split.
Qed.

(** What [schedule_session] does to the state: nothing, or one session
    more, between the logged-in user and the other end of a stored match
    row (its first end when the user is not at that end). *)
Lemma schedule_session_effect : forall u mid f t s,
  let s' := snd (schedule_session u mid f t s) in
  tables s' = tables s /\ reviews s' = reviews s
  /\ trust_score s' = trust_score s
  /\ Match_pk s' = Match_pk s /\ Session_pk s' = Session_pk s
  /\ (sessions s' = sessions s
      \/ exists m x teacher,
           In m (matches (tables s)) /\ sessions s' = sessions s ++ [x]
           /\ Session.learner_id x = u
           /\ In teacher (users (tables s))
           /\ User.id teacher = Session.teacher_id x
           /\ Session.teacher_id x
              = (if (Match.user1_id m =? u)%Z then Match.user2_id m
                 else Match.user1_id m)).
Proof.
  intros u mid f t s. unfold schedule_session.
  assert (Same : tables s = tables s /\ reviews s = reviews s
                 /\ trust_score s = trust_score s
                 /\ Match_pk s = Match_pk s /\ Session_pk s = Session_pk s
                 /\ (sessions s = sessions s
                     \/ exists m x teacher,
                          In m (matches (tables s))
                          /\ sessions s = sessions s ++ [x]
                          /\ Session.learner_id x = u
                          /\ In teacher (users (tables s))
                          /\ User.id teacher = Session.teacher_id x
                          /\ Session.teacher_id x
                             = (if (Match.user1_id m =? u)%Z
                                then Match.user2_id m
                                else Match.user1_id m)))
    by (repeat split; now left).
  destruct (Match_query_get s mid) as [m|] eqn:G; [|exact Same].
  destruct f as [f|]; [|exact Same].
  destruct (form_duration f) as [duration|]; [|exact Same].
  destruct (form_scheduled f) as [scheduled|]; [|exact Same].
  destruct (if (Match.user1_id m =? u)%Z
            then User_query_get (tables s) (Match.user2_id m)
            else User_query_get (tables s) (Match.user1_id m))
    as [other|] eqn:O; [|exact Same].
  destruct (form_skill_topic f) as [topic|]; [|exact Same].
  destruct (existsb _ (sessions s)); [exact Same|].
  cbn [snd tables reviews trust_score Match_pk Session_pk sessions].
  repeat split. right.
  eexists m, _, other. split.
  { unfold Match_query_get in G. destruct (Match_pk s mid); [|discriminate].
    now apply nth_error_In in G. }
  split; [reflexivity|]. cbn [Session.learner_id Session.teacher_id].
  split; [reflexivity|].
  destruct (Match.user1_id m =? u)%Z; apply User_query_get_id in O;
    destruct O as [Hin E]; repeat split; assumption.
Qed.

Lemma calculate_trust_score_returns : forall table self,
  exists x, calculate_trust_score table self = Return x.
Proof.
  intros table self. unfold calculate_trust_score.
  destruct (Review_query_filter_by table (User.id self)) as [|r rs].
  - now exists 5%float.
  - unfold truediv.
    destruct (Z.of_nat (List.length (r :: rs)) =? 0)%Z eqn:E.
    + apply Z.eqb_eq in E. simpl in E. lia.
    + simpl. eexists. reflexivity.
Qed.

Lemma calculate_trust_score_id : forall table u v,
  User.id u = User.id v ->
  calculate_trust_score table u = calculate_trust_score table v.
Proof. intros table u v E. unfold calculate_trust_score. now rewrite E. Qed.

Lemma calculate_trust_score_other : forall table r u,
  Review.reviewee_id r <> User.id u ->
  calculate_trust_score (table ++ [r]) u = calculate_trust_score table u.
Proof.
  intros table r u N. unfold calculate_trust_score, Review_query_filter_by.
  rewrite filter_app. simpl.
  destruct (Z.eqb_spec (Review.reviewee_id r) (User.id u)) as [E|_];
    [now elim N|].
  now rewrite app_nil_r.
Qed.

(** What [update_trust_score] does: one entry of the column is computed
    again. *)
Lemma update_trust_score_effect : forall self s,
  exists s',
    update_trust_score self s = Return s'
    /\ tables s' = tables s /\ sessions s' = sessions s
    /\ reviews s' = reviews s
    /\ Match_pk s' = Match_pk s /\ Session_pk s' = Session_pk s
    /\ calculate_trust_score (reviews s) self
       = Return (trust_score s' (User.id self))
    /\ (forall i, i <> User.id self -> trust_score s' i = trust_score s i).
Proof.
  intros self s. unfold update_trust_score.
  destruct (calculate_trust_score_returns (reviews s) self) as [x E].
  rewrite E. simpl. eexists. split; [reflexivity|]. simpl.
  rewrite Z.eqb_refl. repeat split.
  intros i N. destruct (Z.eqb_spec i (User.id self)); [now elim N|reflexivity].
Qed.

(** What [review] does to the state: nothing, or one review more, written
    by the logged-in user, a participant of the session, about the other
    participant, whose trust score is computed again. *)
Lemma review_effect : forall u sid f s,
  let s' := snd (review u sid f s) in
  tables s' = tables s /\ sessions s' = sessions s
  /\ Match_pk s' = Match_pk s /\ Session_pk s' = Session_pk s
  /\ (s' = s
      \/ exists x r reviewee,
           Session_query_get s sid = Some x
           /\ (Session.teacher_id x = u \/ Session.learner_id x = u)
           /\ reviews s' = reviews s ++ [r]
           /\ Review.reviewer_id r = u
           /\ Review.session_id r = Some sid
           /\ Review.reviewee_id r
              = (if (u =? Session.learner_id x)%Z then Session.teacher_id x
                 else Session.learner_id x)
           /\ User.id reviewee = Review.reviewee_id r
           /\ calculate_trust_score (reviews s') reviewee
              = Return (trust_score s' (Review.reviewee_id r))
           /\ (forall i, i <> Review.reviewee_id r ->
                 trust_score s' i = trust_score s i)).
Proof.
  intros u sid f s. unfold review.
  destruct (Session_query_get s sid) as [x|] eqn:G;
    [|simpl; repeat split; now left].
  destruct (negb (Session.teacher_id x =? u)%Z
            && negb (Session.learner_id x =? u)%Z) eqn:A;
    [simpl; repeat split; now left|].
  destruct f as [f|]; [|simpl; repeat split; now left].
  destruct (form_rating f) as [rating|]; [|simpl; repeat split; now left].
  set (rid := if (u =? Session.learner_id x)%Z then Session.teacher_id x
              else Session.learner_id x).
  set (r := Review.mk u rid (Some sid) rating (form_comment f)).
  set (s1 := mksite (tables s) (sessions s) (reviews s ++ [r])
                    (trust_score s) (Match_pk s) (Session_pk s)).
  destruct (User_query_get (tables s1) rid) as [reviewee|] eqn:Q;
    [|simpl; repeat split; now left].
  apply User_query_get_id in Q. destruct Q as [_ Q].
  destruct (update_trust_score_effect reviewee s1)
    as (s2 & E & T & S & R & M & P & C & O).
  rewrite E. cbn [snd]. rewrite T, S, M, P. repeat split. right.
  exists x, r, reviewee. split; [reflexivity|]. split.
  { apply andb_false_iff in A.
    destruct A as [A|A]; apply negb_false_iff, Z.eqb_eq in A; auto. }
  split; [exact R|]. split; [reflexivity|]. split; [reflexivity|].
  split; [reflexivity|]. split; [exact Q|].
  rewrite R. change (Review.reviewee_id r) with rid. rewrite <- Q.
  split; [exact C|exact O].
Qed.

Lemma dashboard_effect : forall u s,
  let s' := snd (dashboard u s) in
  tables s' = tables s /\ sessions s' = sessions s
  /\ reviews s' = reviews s
  /\ Match_pk s' = Match_pk s /\ Session_pk s' = Session_pk s
  /\ (s' = s
      \/ exists current_user,
           User.id current_user = u
           /\ calculate_trust_score (reviews s) current_user
              = Return (trust_score s' u)
           /\ (forall i, i <> u -> trust_score s' i = trust_score s i)).
Proof.
  intros u s. unfold dashboard.
  destruct (User_query_get (tables s) u) as [cu|] eqn:Q;
    [|simpl; repeat split; now left].
  apply User_query_get_id in Q. destruct Q as [_ Q].
  destruct (update_trust_score_effect cu s)
    as (s1 & E & T & S & R & M & P & C & O).
  rewrite E. cbn [snd]. repeat split; try assumption. right.
  exists cu. rewrite <- Q. repeat split; assumption.
Qed.

Lemma engine_effect : forall r s,
  let s' := after (Engine r) s in
  handle r (tables s) = Return (tables s')
  /\ sessions s' = sessions s /\ reviews s' = reviews s
  /\ trust_score s' = trust_score s
  /\ Match_pk s' = Match_pk s /\ Session_pk s' = Session_pk s.
Proof.
  intros r s. simpl.
  destruct (handle_spec r (tables s)) as (d & new & E & _).
  rewrite E. simpl. repeat split.
Qed.

(** The tables of the engine, as the site sees them, are reachable
    tables of the engine. *)
Lemma site_tables_reachable : forall s,
  site_reachable s -> reachable (tables s).
Proof.
  intros s R. induction R as [s M _ _ _|s c R IH].
  - now apply reachable_init.
  - destruct c as [r|u m f t|u x f|u].
    + destruct (engine_effect r s) as (E & _).
      eapply reachable_step; [exact IH|exact E].
    + destruct (schedule_session_effect u m f t s) as (T & _).
      simpl. now rewrite T.
    + destruct (review_effect u x f s) as (T & _). simpl. now rewrite T.
    + destruct (dashboard_effect u s) as (T & _). simpl. now rewrite T.
Qed.

(** A request keeps the users, the stored match rows, the stored
    sessions and the keys. *)
Lemma after_keeps : forall c s,
  users (tables (after c s)) = users (tables s)
  /\ (exists new, matches (tables (after c s)) = matches (tables s) ++ new)
  /\ (exists new, sessions (after c s) = sessions s ++ new)
  /\ Session_pk (after c s) = Session_pk s.
Proof.
  intros [r|u m f t|u x f|u] s.
  - destruct (engine_effect r s) as (E & S & _ & _ & _ & P).
    destruct (handle_spec r (tables s)) as (d & new & E' & U & M & _).
    rewrite E' in E. apply Return_inj in E. rewrite <- E.
    split; [exact U|]. split; [now exists new|].
    split; [exists []; now rewrite app_nil_r|exact P].
  - destruct (schedule_session_effect u m f t s)
      as (T & _ & _ & _ & P & [S|(m0 & x & _ & _ & S & _)]);
      cbn [after]; rewrite T; (split; [reflexivity|]);
      (split; [exists []; now rewrite app_nil_r|]); split; try exact P.
    + exists []. now rewrite app_nil_r.
    + now exists [x].
  - destruct (review_effect u x f s) as (T & S & _ & P & _).
    cbn [after]. rewrite T, S. split; [reflexivity|].
    split; [exists []; now rewrite app_nil_r|].
    split; [exists []; now rewrite app_nil_r|exact P].
  - destruct (dashboard_effect u s) as (T & S & _ & _ & P & _).
    cbn [after]. rewrite T, S. split; [reflexivity|].
    split; [exists []; now rewrite app_nil_r|].
    split; [exists []; now rewrite app_nil_r|exact P].
Qed.

Lemma site_sessions_sound : forall s,
  site_reachable s -> Forall (session_sound s) (sessions s).
Proof.
  intros s R. induction R as [s _ S _ _|s c R IH].
  - rewrite S. constructor.
  - pose proof (site_tables_reachable s R) as RT.
    destruct (reachable_pairs _ RT) as [D _].
    destruct (after_keeps c s) as (U & (newm & M) & _ & _).
    assert (K : forall x, session_sound s x -> session_sound (after c s) x).
    { intros x (N & Hu & (m & Hm & Hx)). split; [exact N|]. split.
      - now rewrite U.
      - exists m. rewrite M. split; [apply in_or_app; now left|exact Hx]. }
    assert (Old : Forall (session_sound (after c s)) (sessions s))
      by (eapply Forall_impl; [exact K|exact IH]).
    destruct c as [r|u m f t|u x f|u].
    + destruct (engine_effect r s) as (_ & S & _). now rewrite S.
    + destruct (schedule_session_effect u m f t s)
        as (_ & _ & _ & _ & _
            & [S|(m0 & x & te & Hm & S & L & Hte & Ete & Tx)]);
        cbn [after] in *; rewrite S; [exact Old|].
      apply Forall_app. split; [exact Old|]. constructor; [|constructor].
      apply K. rewrite Forall_forall in D. specialize (D m0 Hm).
      unfold distinct_ends in D. split; [|split].
      * rewrite Tx, L.
        destruct (Z.eqb_spec (Match.user1_id m0) u); congruence.
      * now exists te.
      * exists m0. split; [exact Hm|]. rewrite Tx.
        destruct (Match.user1_id m0 =? u)%Z; auto.
    + destruct (review_effect u x f s) as (_ & S & _).
      cbn [after] in *. now rewrite S.
    + destruct (dashboard_effect u s) as (_ & S & _).
      cbn [after] in *. now rewrite S.
Qed.

Lemma site_guitar_reviewed_reachable : site_reachable site_guitar_reviewed.
Proof.
  unfold site_guitar_reviewed, calls_guitar. cbn [fold_left].
  do 3 apply site_step. apply site_init; reflexivity.
Qed.

(** X15.  In every reachable state of the site a session joins two
    different users: the teacher is never the learner.  The teacher is a
    user of the table and an end of a stored match row. *)
Theorem sessions_join_two_users : forall s,
  site_reachable s ->
  forall x, In x (sessions s) -> session_sound s x.
Proof.
  intros s R. apply Forall_forall. now apply site_sessions_sound.
Qed.

Lemma sessions_join_two_users_witness :
  site_reachable site_guitar_reviewed
  /\ List.length (sessions site_guitar_reviewed) = 1%nat
  /\ forall x, In x (sessions site_guitar_reviewed) ->
       session_sound site_guitar_reviewed x.
Proof.
  split; [exact site_guitar_reviewed_reachable|].
  split; [vm_compute; reflexivity|].
  exact (sessions_join_two_users site_guitar_reviewed
           site_guitar_reviewed_reachable).
Defined.

Lemma Session_query_get_kept : forall c s sid x,
  Session_query_get s sid = Some x ->
  Session_query_get (after c s) sid = Some x.
Proof.
  intros c s sid x H. destruct (after_keeps c s) as (_ & _ & (new & S) & P).
  unfold Session_query_get in *. rewrite P, S.
  destruct (Session_pk s sid) as [i|]; [|discriminate].
  rewrite nth_error_app1; [exact H|].
  apply nth_error_Some. congruence.
Qed.

Lemma site_reviews_sound : forall s,
  site_reachable s ->
  Forall (fun r => Review.reviewer_id r <> Review.reviewee_id r
                   /\ review_of_session s r) (reviews s).
Proof.
  intros s R. induction R as [s _ _ S _|s c R IH].
  - rewrite S. constructor.
  - pose proof (site_sessions_sound s R) as SS.
    assert (K : forall r, review_of_session s r ->
                          review_of_session (after c s) r).
    { intros r (sid & x & E & G & P). exists sid, x.
      split; [exact E|]. split; [now apply Session_query_get_kept|exact P]. }
    assert (Old : Forall (fun r => Review.reviewer_id r <> Review.reviewee_id r
                                   /\ review_of_session (after c s) r)
                         (reviews s)).
    { eapply Forall_impl; [|exact IH]. intros r [N P]. split; auto. }
    destruct c as [r|u m f t|u x f|u].
    + destruct (engine_effect r s) as (_ & _ & S & _). now rewrite S.
    + destruct (schedule_session_effect u m f t s) as (_ & S & _).
      cbn [after] in *. now rewrite S.
    + destruct (review_effect u x f s)
        as (_ & _ & _ & _
            & [S|(y & r & re & G & A & S & Rr & Rs & Re & _)]);
        cbn [after] in *; rewrite S; [exact IH|].
      apply Forall_app. split; [exact Old|]. constructor; [|constructor].
      assert (Hy : In y (sessions s)).
      { unfold Session_query_get in G.
        destruct (Session_pk s x); [|discriminate].
        now apply nth_error_In in G. }
      rewrite Forall_forall in SS. destruct (SS y Hy) as (N & _).
      assert (P : (Session.learner_id y = Review.reviewer_id r
                   /\ Session.teacher_id y = Review.reviewee_id r)
                  \/ (Session.teacher_id y = Review.reviewer_id r
                      /\ Session.learner_id y = Review.reviewee_id r)).
      { rewrite Re, Rr.
        destruct (Z.eqb_spec u (Session.learner_id y)) as [E|E].
        - left. split; congruence.
        - right. destruct A as [A|A]; [split; congruence|congruence]. }
      split.
      * destruct P as [[P1 P2]|[P1 P2]]; congruence.
      * apply K. exists x, y. repeat split; assumption.
    + destruct (dashboard_effect u s) as (_ & _ & S & _).
      cbn [after] in *. now rewrite S.
Qed.

(** X16.  In every reachable state of the site nobody has reviewed
    themselves: the reviewer and the reviewee of a review are the two
    participants, teacher and learner, of the session the review
    names. *)
Theorem reviews_join_participants : forall s,
  site_reachable s ->
  forall r, In r (reviews s) ->
    Review.reviewer_id r <> Review.reviewee_id r /\ review_of_session s r.
Proof.
  intros s R. apply Forall_forall. now apply site_reviews_sound.
Qed.

Lemma reviews_join_participants_witness :
  site_reachable site_guitar_reviewed
  /\ List.length (reviews site_guitar_reviewed) = 1%nat
  /\ forall r, In r (reviews site_guitar_reviewed) ->
       Review.reviewer_id r <> Review.reviewee_id r
       /\ review_of_session site_guitar_reviewed r.
Proof.
  split; [exact site_guitar_reviewed_reachable|].
  split; [vm_compute; reflexivity|].
  exact (reviews_join_participants site_guitar_reviewed
           site_guitar_reviewed_reachable).
Defined.

Lemma site_trust_score : forall s,
  site_reachable s ->
  forall u, calculate_trust_score (reviews s) u
            = Return (trust_score s (User.id u)).
Proof.
  intros s R. induction R as [s _ _ S T|s c R IH]; intros v.
  - unfold calculate_trust_score. rewrite S, T. reflexivity.
  - destruct c as [r|u m f t|u x f|u].
    + destruct (engine_effect r s) as (_ & _ & S & T & _).
      rewrite S, T. apply IH.
    + destruct (schedule_session_effect u m f t s) as (_ & S & T & _).
      cbn [after] in *. rewrite S, T. apply IH.
    + destruct (review_effect u x f s)
        as (_ & _ & _ & _
            & [S|(y & r & re & _ & _ & S & _ & _ & _ & Ie & C & O)]);
        cbn [after] in *; [rewrite S; apply IH|].
      destruct (Z.eq_dec (User.id v) (Review.reviewee_id r)) as [E|N].
      * rewrite (calculate_trust_score_id _ v re) by congruence.
        rewrite E. exact C.
      * rewrite (O _ N), S.
        rewrite calculate_trust_score_other by congruence. apply IH.
    + destruct (dashboard_effect u s)
        as (_ & _ & S & _ & _ & [E|(cu & Ic & C & O)]);
        cbn [after] in *; [rewrite E; apply IH|].
      rewrite S. destruct (Z.eq_dec (User.id v) u) as [E|N].
      * rewrite (calculate_trust_score_id _ v cu) by congruence.
        rewrite E. exact C.
      * rewrite (O _ N). apply IH.
Qed.

(** X17.  In every reachable state of the site the stored trust score of
    every user is the one [calculate_trust_score] returns for the stored
    reviews: no review is left out of it, and the dashboard's update
    finds nothing to change.  When the ratings the user received are all
    from 1 to 5, so is the stored score. *)
Theorem stored_trust_score_is_current : forall s,
  site_reachable s ->
  forall u,
    calculate_trust_score (reviews s) u = Return (trust_score s (User.id u))
    /\ (ratings_within 1 5 (reviews s) u ->
        (1 <=? trust_score s (User.id u))%float = true
        /\ (trust_score s (User.id u) <=? 5)%float = true).
Proof.
  intros s R u. pose proof (site_trust_score s R u) as E.
  split; [exact E|]. intros H.
  destruct (calculate_trust_score_range (reviews s) u H) as (x & Ex & B).
  rewrite E in Ex. apply Return_inj in Ex. now rewrite Ex.
Qed.

Lemma stored_trust_score_is_current_witness :
  site_reachable site_guitar_reviewed
  /\ trust_score site_guitar_reviewed 2 = 4%float
  /\ forall u,
       calculate_trust_score (reviews site_guitar_reviewed) u
       = Return (trust_score site_guitar_reviewed (User.id u))
       /\ (ratings_within 1 5 (reviews site_guitar_reviewed) u ->
           (1 <=? trust_score site_guitar_reviewed (User.id u))%float = true
           /\ (trust_score site_guitar_reviewed (User.id u) <=? 5)%float
              = true).
Proof.
  split; [exact site_guitar_reviewed_reachable|].
  split; [vm_compute; reflexivity|].
  exact (stored_trust_score_is_current site_guitar_reviewed
           site_guitar_reviewed_reachable).
Defined.

(** ** Messages *)

Lemma insert_by_time_perm : forall m l,
  Permutation (insert_by_time m l) (m :: l).
Proof.
  intros m l. induction l as [|x l IH]; simpl.
  - apply Permutation_refl.
  - destruct (_ <=? _)%Z.
    + apply Permutation_refl.
    + eapply perm_trans; [apply perm_skip, IH|apply perm_swap].
Qed.

Lemma order_by_created_at_perm : forall l,
  Permutation (order_by_created_at l) l.
Proof.
  induction l as [|m l IH]; simpl.
  - constructor.
  - eapply perm_trans; [apply insert_by_time_perm|now apply perm_skip].
Qed.

Lemma chat_messages_In : forall a b table m,
  In m (chat_messages a b table) <-> In m table /\ between a b m = true.
Proof.
  intros a b table m. unfold chat_messages. rewrite <- filter_In. split.
  - apply Permutation_in, order_by_created_at_perm.
  - apply Permutation_in, Permutation_sym, order_by_created_at_perm.
Qed.

Lemma between_sym : forall a b m, between a b m = between b a m.
Proof. intros a b m. unfold between. apply orb_comm. Qed.

(** X18.  The list of conversations and the chats agree: a user of the
    table is listed among the conversations of the logged-in user exactly
    when the chat with that user shows a message, and exactly when the
    logged-in user, if in the table, is listed among the conversations of
    that user.  Both users see the same messages in the chat. *)
Theorem conversations_open_chats : forall d table current_user u,
  In current_user (users d) -> In u (users d) ->
  (In u (conversations (User.id current_user) d table)
   <-> chat_messages (User.id current_user) (User.id u) table <> [])
  /\ (In u (conversations (User.id current_user) d table)
      <-> In current_user (conversations (User.id u) d table))
  /\ chat_messages (User.id current_user) (User.id u) table
     = chat_messages (User.id u) (User.id current_user) table.
Proof.
  intros d table cu u Hcu Hu.
  assert (C : forall a b, In a (users d) -> In b (users d) ->
            (In b (conversations (User.id a) d table)
             <-> exists m, In m table
                           /\ between (User.id a) (User.id b) m = true)).
  { intros a b Ha Hb. unfold conversations. rewrite filter_In, existsb_exists.
    split.
    - intros [_ (m & Hm & E)]. exists m. split; [exact Hm|].
      unfold between. rewrite orb_comm.
      rewrite (andb_comm (Message.receiver_id m =? User.id b)%Z) in E.
      exact E.
    - intros (m & Hm & E). split; [exact Hb|]. exists m. split; [exact Hm|].
      unfold between in E. rewrite orb_comm in E.
      rewrite (andb_comm (Message.receiver_id m =? User.id b)%Z).
      exact E. }
  split; [|split].
  - rewrite (C cu u Hcu Hu). split.
    + intros (m & Hm & E) N.
      assert (H : In m (chat_messages (User.id cu) (User.id u) table))
        by (apply chat_messages_In; now split).
      rewrite N in H. destruct H.
    + intros N.
      destruct (chat_messages (User.id cu) (User.id u) table) as [|m l] eqn:E;
        [now elim N|].
      exists m. apply chat_messages_In. rewrite E. now left.
  - rewrite (C cu u Hcu Hu), (C u cu Hu Hcu).
    split; intros (m & Hm & E); exists m; (split; [exact Hm|]);
      now rewrite between_sym.
  - unfold chat_messages.
    rewrite (filter_ext (between (User.id cu) (User.id u))
                        (between (User.id u) (User.id cu)))
      by (intros m; apply between_sym).
    reflexivity.
Qed.

Lemma conversations_open_chats_witness :
  In (user 1 "ana") (users db_guitar) /\ In (user 2 "ben") (users db_guitar)
  /\ In (user 2 "ben") (conversations 1 db_guitar one_message)
  /\ (In (user 2 "ben") (conversations 1 db_guitar one_message)
      <-> chat_messages 1 2 one_message <> [])
  /\ (In (user 2 "ben") (conversations 1 db_guitar one_message)
      <-> In (user 1 "ana") (conversations 2 db_guitar one_message))
  /\ chat_messages 1 2 one_message = chat_messages 2 1 one_message.
Proof.
  assert (H1 : In (user 1 "ana") (users db_guitar)) by (simpl; auto).
  assert (H2 : In (user 2 "ben") (users db_guitar)) by (simpl; auto).
  split; [exact H1|]. split; [exact H2|]. split; [vm_compute; auto|].
  exact (conversations_open_chats db_guitar one_message (user 1 "ana")
           (user 2 "ben") H1 H2).
Defined.

Lemma unread_messages_cons : forall b m table,
  unread_messages b (m :: table)
  = ((if (Message.receiver_id m =? b)%Z && negb (Message.is_read m)
      then 1 else 0) + unread_messages b table)%nat.
Proof.
  intros b m table. unfold unread_messages. simpl.
  destruct ((Message.receiver_id m =? b)%Z && negb (Message.is_read m));
    reflexivity.
Qed.

(** X19.  Opening the chat with a user of the table marks as read the
    unread messages that this user sent to the logged-in user, and
    nothing else: no message is added, dropped or rewritten, every other
    message keeps its flag, the unread count of the logged-in user goes
    down by the number of messages marked, and the count of everybody
    else stays. *)
Theorem chat_marks_read : forall d table current_user_id other,
  In other (users d) ->
  let table' := snd (chat current_user_id (User.id other) d table) in
  fst (chat current_user_id (User.id other) d table)
  = render_template "chat.html"
  /\ map envelope table' = map envelope table
  /\ (forall m, In m table' ->
        unread_from (User.id other) current_user_id m = false)
  /\ (forall m, In m table ->
        unread_from (User.id other) current_user_id m = false ->
        In m table')
  /\ unread_messages current_user_id table
     = (unread_messages current_user_id table'
        + List.length
            (filter (unread_from (User.id other) current_user_id) table))%nat
  /\ (forall b, b <> current_user_id ->
        unread_messages b table' = unread_messages b table).
Proof.
  intros d table cur other Hin. unfold chat.
  destruct (User_query_get d (User.id other)) as [o|] eqn:G;
    [|now elim (User_query_get_some d other Hin)].
  cbn [fst snd]. split; [reflexivity|].
  set (f := fun m => if unread_from (User.id other) cur m
                     then mark_read m else m).
  assert (F : forall m, unread_from (User.id other) cur (f m) = false).
  { intros m. unfold f.
    destruct (unread_from (User.id other) cur m) eqn:E; [|exact E].
    unfold unread_from, mark_read. simpl. apply andb_false_r. }
  split; [|split; [|split; [|split]]].
  - rewrite map_map. apply map_ext. intros m. unfold f.
    destruct (unread_from _ _ m); reflexivity.
  - intros m Hm. apply in_map_iff in Hm. destruct Hm as (m0 & <- & _).
    apply F.
  - intros m Hm E. apply in_map_iff. exists m. split; [|exact Hm].
    unfold f. now rewrite E.
  - induction table as [|m table IH]; [reflexivity|].
    cbn [map filter]. rewrite !unread_messages_cons, IH.
    change (f m) with (if unread_from (User.id other) cur m
                       then mark_read m else m).
    destruct (unread_from (User.id other) cur m) eqn:E.
    + unfold unread_from in E. apply andb_true_iff in E.
      destruct E as [E R]. apply andb_true_iff in E. destruct E as [_ E].
      cbn [mark_read Message.receiver_id Message.is_read List.length].
      rewrite E, R. simpl. lia.
    + lia.
  - intros b Hb. induction table as [|m table IH]; [reflexivity|].
    cbn [map]. rewrite !unread_messages_cons, IH.
    change (f m) with (if unread_from (User.id other) cur m
                       then mark_read m else m).
    destruct (unread_from (User.id other) cur m) eqn:E; [|reflexivity].
    unfold unread_from in E. apply andb_true_iff in E.
    destruct E as [E R]. apply andb_true_iff in E. destruct E as [_ E].
    apply Z.eqb_eq in E.
    cbn [mark_read Message.receiver_id Message.is_read].
    destruct (Z.eqb_spec (Message.receiver_id m) b); [congruence|].
    reflexivity.
Qed.

Lemma chat_marks_read_witness :
  In (user 2 "ben") (users db_guitar)
  /\ unread_messages 1 one_message = 1%nat
  /\ unread_messages 1 (snd (chat 1 2 db_guitar one_message)) = 0%nat
  /\ (fst (chat 1 2 db_guitar one_message) = render_template "chat.html"
      /\ map envelope (snd (chat 1 2 db_guitar one_message))
         = map envelope one_message
      /\ (forall m, In m (snd (chat 1 2 db_guitar one_message)) ->
            unread_from 2 1 m = false)
      /\ (forall m, In m one_message -> unread_from 2 1 m = false ->
            In m (snd (chat 1 2 db_guitar one_message)))
      /\ unread_messages 1 one_message
         = (unread_messages 1 (snd (chat 1 2 db_guitar one_message))
            + List.length (filter (unread_from 2 1) one_message))%nat
      /\ (forall b, b <> 1%Z ->
            unread_messages b (snd (chat 1 2 db_guitar one_message))
            = unread_messages b one_message)).
Proof.
  assert (H2 : In (user 2 "ben") (users db_guitar)) by (simpl; auto).
  split; [exact H2|]. split; [reflexivity|]. split; [reflexivity|].
  exact (chat_marks_read db_guitar one_message 1 (user 2 "ben") H2).
Defined.

(** X20.  A message sent and then read: [handle_send_message] raises the
    unread count of the receiver by one and of nobody else; when the
    receiver opens the chat with the sender, a user of the table, the
    chat shows the message, marked as read. *)
Theorem message_round_trip : forall d table sender receiver_id content utcnow,
  In sender (users d) ->
  let sent :=
    handle_send_message (User.id sender) receiver_id content utcnow table in
  let seen := snd (chat receiver_id (User.id sender) d sent) in
  unread_messages receiver_id sent = S (unread_messages receiver_id table)
  /\ (forall b, b <> receiver_id ->
        unread_messages b sent = unread_messages b table)
  /\ In (Message.mk (User.id sender) receiver_id content true utcnow)
        (chat_messages receiver_id (User.id sender) seen).
Proof.
  intros d table sender b content now Hin sent seen.
  assert (A : forall c t m,
            unread_messages c (t ++ [m])
            = (unread_messages c t
               + (if (Message.receiver_id m =? c)%Z
                     && negb (Message.is_read m) then 1 else 0))%nat).
  { intros c t m. unfold unread_messages. rewrite filter_app, length_app.
    simpl. destruct (_ && _); reflexivity. }
  split; [|split].
  - unfold sent, handle_send_message. rewrite A. simpl.
    rewrite Z.eqb_refl. simpl. lia.
  - intros c Hc. unfold sent, handle_send_message. rewrite A. simpl.
    destruct (Z.eqb_spec b c); [congruence|]. simpl. lia.
  - apply chat_messages_In. split.
    + unfold seen, chat.
      destruct (User_query_get d (User.id sender)) as [o|] eqn:G;
        [|now elim (User_query_get_some d sender Hin)].
      cbn [snd]. apply in_map_iff.
      exists (Message.mk (User.id sender) b content false now). split.
      * unfold unread_from. simpl. now rewrite !Z.eqb_refl.
      * unfold sent, handle_send_message. apply in_or_app. right. now left.
    + unfold between. simpl. rewrite !Z.eqb_refl. simpl. apply orb_true_r.
Qed.

Lemma message_round_trip_witness :
  In (user 2 "ben") (users db_guitar)
  /\ unread_messages 1 one_message = S (unread_messages 1 [])
  /\ (forall b, b <> 1%Z ->
        unread_messages b one_message = unread_messages b [])
  /\ In (Message.mk 2 1 "hello" true 0)
        (chat_messages 1 2 (snd (chat 1 2 db_guitar one_message))).
Proof.
  assert (H2 : In (user 2 "ben") (users db_guitar)) by (simpl; auto).
  split; [exact H2|].
  exact (message_round_trip db_guitar [] (user 2 "ben") 1 "hello" 0 H2).
Defined.

(** ** Registration *)

Lemma next_user_id_above : forall d u,
  In u (users d) -> (User.id u < next_user_id d)%Z.
Proof.
  intros d u. unfold next_user_id.
  induction (users d) as [|x xs IH]; simpl; intros H.
  - destruct H.
  - destruct H as [->|H]; [lia|]. specialize (IH H). lia.
Qed.

Lemma NoDup_map_snoc : forall (A B : Type) (f : A -> B) (l : list A) x,
  NoDup (map f l) -> (forall y, In y l -> f y <> f x) ->
  NoDup (map f (l ++ [x])).
Proof.
  intros A B f l x N H. rewrite map_app. simpl.
  apply NoDup_app; [exact N|repeat constructor; auto|].
  intros b Hb [<-|[]]. apply in_map_iff in Hb.
  destruct Hb as (y & E & Hy). now apply (H y Hy).
Qed.

(** X21.  [register] keeps the accounts apart: when no two users share
    an identity, a username or an email, this is still so afterwards.
    It stores at most one user, with the username and the email of the
    form, after the users that were there, and none when the username or
    the email is taken; the skills and the match rows stay. *)
Theorem register_keeps_users_unique : forall form d,
  users_unique d ->
  let d' := snd (register form d) in
  users_unique d'
  /\ skills d' = skills d /\ matches d' = matches d
  /\ (users d' = users d
      \/ exists f user,
           form = Some f /\ users d' = users d ++ [user]
           /\ form_username f = Some (User.username user)
           /\ form_email f = Some (User.email user)
           /\ fst (register form d) = redirect "login")
  /\ (forall f u, form = Some f -> In u (users d) ->
        form_username f = Some (User.username u)
        \/ form_email f = Some (User.email u) ->
        d' = d /\ fst (register form d) = redirect "register").
Proof.
  intros form d (Ni & Nn & Ne). unfold register.
  destruct form as [f|]; cbn zeta.
  2:{ cbn [snd fst]. repeat split; try assumption; [now left|discriminate]. }
  destruct (User_query_username d (form_username f)) as [x|] eqn:Qn.
  { cbn [snd fst]. repeat split; try assumption. now left. }
  destruct (User_query_email d (form_email f)) as [x|] eqn:Qe.
  { cbn [snd fst]. repeat split; try assumption. now left. }
  assert (Free : forall u, In u (users d) ->
            form_username f <> Some (User.username u)
            /\ form_email f <> Some (User.email u)).
  { intros u Hu. split; intros E.
    - rewrite E in Qn. simpl in Qn.
      apply (find_none _ _ Qn) in Hu. simpl in Hu.
      now rewrite String.eqb_refl in Hu.
    - rewrite E in Qe. simpl in Qe.
      apply (find_none _ _ Qe) in Hu. simpl in Hu.
      now rewrite String.eqb_refl in Hu. }
  assert (Taken : forall f0 u, Some f = Some f0 -> In u (users d) ->
            form_username f0 = Some (User.username u)
            \/ form_email f0 = Some (User.email u) -> False).
  { intros f0 u E Hu H. injection E as <-.
    destruct (Free u Hu) as [F1 F2]. destruct H; contradiction. }
  assert (Refused : forall r : response,
            users_unique d /\ skills d = skills d /\ matches d = matches d
            /\ (users d = users d
                \/ exists f0 user,
                     Some f = Some f0 /\ users d = users d ++ [user]
                     /\ form_username f0 = Some (User.username user)
                     /\ form_email f0 = Some (User.email user)
                     /\ r = redirect "login")
            /\ (forall f0 u, Some f = Some f0 -> In u (users d) ->
                  form_username f0 = Some (User.username u)
                  \/ form_email f0 = Some (User.email u) ->
                  d = d /\ r = redirect "register")).
  { intros r. split; [now repeat split|]. split; [reflexivity|].
    split; [reflexivity|]. split; [now left|].
    intros f0 u E Hu H. now elim (Taken f0 u E Hu H). }
  destruct (form_password f) as [password|]; [|apply Refused].
  destruct (form_username f) as [username|] eqn:Fn; [|apply Refused].
  destruct (form_email f) as [email|] eqn:Fe; [|apply Refused].
  cbn [snd fst users skills matches]. split; [|split; [|split; [|split]]].
  - unfold users_unique. cbn [users]. split; [|split].
    + apply NoDup_map_snoc; [exact Ni|]. intros y Hy. simpl.
      pose proof (next_user_id_above d y Hy). lia.
    + apply NoDup_map_snoc; [exact Nn|]. intros y Hy. simpl.
      destruct (Free y Hy) as [F _]. congruence.
    + apply NoDup_map_snoc; [exact Ne|]. intros y Hy. simpl.
      destruct (Free y Hy) as [_ F]. congruence.
  - reflexivity.
  - reflexivity.
  - right. eexists f, _. repeat split; try reflexivity; simpl; assumption.
  - intros f0 u E Hu H. now elim (Taken f0 u E Hu H).
Qed.

Lemma register_keeps_users_unique_witness :
  users_unique db_accounts
  /\ List.length (users (snd (register (Some form_cleo) db_accounts)))
     = 3%nat
  /\ users_unique (snd (register (Some form_cleo) db_accounts)).
Proof.
  assert (U : users_unique db_accounts).
  { unfold users_unique. simpl. repeat split; repeat constructor; simpl;
      intuition discriminate. }
  split; [exact U|]. split; [reflexivity|].
  exact (proj1 (register_keeps_users_unique (Some form_cleo) db_accounts U)).
Defined.
